(** * Hack2Hire interview engine: the session policy engine in Rocq

    A shallow embedding of [services/policy.ts], [types.ts], the
    [LogicCore] and [InterviewEngine] of [services/engine.ts] and the
    [FallbackRegistry] of [services/gemini.ts].

    Conventions of the embedding.
    - A JavaScript [number] is the rational ([Q]) it stands for.  Where
      the doubles of the code round, the embedding rounds as binary64 does
      ([Module Double]: to nearest, ties to even): in the products and the
      sums of [calculateScore], in the subtractions of the final score and
      in the sum and the division of [calculateFinalAverage].
      [x.toFixed(d)] is the decimal it prints (of the numbers with [d]
      decimals the one nearest to the value of the double, halves away
      from zero) and [Number] reads a decimal back as a double.  Durations,
      the time penalty and the skill match rate are computed with the
      rational operations, and [Math.ceil] is [Qceiling].  [NaN], the
      infinities and the sign of zero have no counterpart.  Counters that
      only count ([timeViolations], [consecutiveWeakAnswers]) are [nat].
    - A JavaScript string is a [string] whose characters are the code units
      U+0000..U+00FF; [toLowerCase] and [trim] are the ECMAScript ones on
      that range.
    - Wall-clock readings (the time prefix of a log line, the [timestamp] of
      a turn) are left out; a log line is kept as the template it was built
      from together with the interpolated values.
    - The engine mutates one state object in place.  [Module Engine] writes
      every method as a function on the value of that object and lists the
      values the subscribers are shown; [Module Live] puts the object in a
      heap and hands subscribers the reference, as [notify] does. *)

From Stdlib Require Import ZArith QArith Qround Qminmax Qabs Qpower.
From Stdlib Require Import Qreduction Lqa Lia.
From Stdlib Require Import String Ascii List Bool DecimalString.
From stdpp Require Import gmap strings.
Import ListNotations.

Local Open Scope Q_scope.
Local Open Scope string_scope.

(** ** JavaScript primitives *)

Module JS.

(** [x.toFixed(d)], as the decimal it prints: the multiple of [10^-d]
    nearest to [x]; of two equally near ones the larger in magnitude. *)
Definition round_half_up (y : Q) : Z := Qfloor (y + (1 # 2)).

Definition pow10 (d : nat) : Z := Z.pow 10 (Z.of_nat d).

Definition toFixed (d : nat) (x : Q) : Q :=
  let scale := inject_Z (pow10 d) in
  if Qle_bool 0 x
  then inject_Z (round_half_up (x * scale)) / scale
  else - (inject_Z (round_half_up ((- x) * scale)) / scale).

(** [x < y] on numbers. *)
Definition lt (x y : Q) : bool := negb (Qle_bool y x).

(** [Math.ceil]. *)
Definition ceil (x : Q) : Q := inject_Z (Qceiling x).

(** [String(n)] for a counter. *)
Definition show_nat (n : nat) : string :=
  NilZero.string_of_uint (Nat.to_uint n).

(** Code units. *)
Definition code (c : ascii) : nat := nat_of_ascii c.

(** [String.prototype.toLowerCase] on U+0000..U+00FF: A-Z and the
    capital letters U+00C0..U+00DE (U+00D7, the multiplication sign, is
    not a letter) move up by 32. *)
Definition lower_char (c : ascii) : ascii :=
  let n := code c in
  if ((65 <=? n) && (n <=? 90))%nat then ascii_of_nat (n + 32)
  else if ((192 <=? n) && (n <=? 222) && negb (n =? 215))%nat
       then ascii_of_nat (n + 32)
       else c.

Fixpoint toLowerCase (s : string) : string :=
  match s with
  | EmptyString => EmptyString
  | String c r => String (lower_char c) (toLowerCase r)
  end.

(** ECMAScript WhiteSpace and LineTerminator code units below U+0100:
    TAB, LF, VT, FF, CR, SP and NBSP. *)
Definition is_space (c : ascii) : bool :=
  let n := code c in
  (((9 <=? n) && (n <=? 13)) || (n =? 32) || (n =? 160))%nat.

Fixpoint trimStart (s : string) : string :=
  match s with
  | EmptyString => EmptyString
  | String c r => if is_space c then trimStart r else s
  end.

(** [trimEnd s] drops the trailing white space: a character is kept when
    something that is kept follows it or when it is not white space. *)
Fixpoint trimEnd (s : string) : string :=
  match s with
  | EmptyString => EmptyString
  | String c r =>
      match trimEnd r with
      | EmptyString => if is_space c then EmptyString else String c EmptyString
      | r' => String c r'
      end
  end.

Definition trim (s : string) : string := trimEnd (trimStart s).

(** [hay.includes(needle)]: [needle] occurs in [hay] at some position. *)
Fixpoint includes (hay needle : string) : bool :=
  String.prefix needle hay ||
  match hay with
  | EmptyString => false
  | String _ r => includes r needle
  end.

End JS.

(** ** Binary64 arithmetic

    The finite doubles as the rationals they stand for: 53 significant
    bits, exponents of the last bit from -1074 on, rounding to nearest
    with ties to the even significand.  Results beyond the largest double
    are not cut off. *)

Module Double.

(** [2^e], for any integer [e]. *)
Definition pow2 (e : Z) : Q := 2 ^ e.

(** [floor (log2 x)], for [0 < x]: the difference of the bit lengths of
    numerator and denominator, or one less. *)
Definition ilog2 (x : Q) : Z :=
  let k := (Z.log2 (Qnum x) - Z.log2 (Zpos (Qden x)))%Z in
  if Qle_bool (pow2 k) x then k else (k - 1)%Z.

(** The integer nearest to [y]; of two equally near ones the even one. *)
Definition nearest_even (y : Q) : Z :=
  let f := Qfloor y in
  match Qcompare (y - inject_Z f) (1 # 2) with
  | Lt => f
  | Gt => (f + 1)%Z
  | Eq => if Z.even f then f else (f + 1)%Z
  end.

(** The exponent of the last bit of the doubles around [x], for [0 < x]:
    53 significant bits, and no exponent below the subnormal one. *)
Definition exponent (x : Q) : Z := Z.max (-1074) (ilog2 x - 52).

Definition nearest (x : Q) : Q :=
  let e := exponent x in
  Qred (inject_Z (nearest_even (x / pow2 e)) * pow2 e).

(** The double a decimal literal or a JSON number denotes, and the
    rounding of every arithmetic operation: round to nearest, ties to
    even. *)
Definition number (x : Q) : Q :=
  match Qcompare x 0 with
  | Eq => 0
  | Gt => nearest x
  | Lt => - nearest (- x)
  end.

(** [x + y], [x - y], [x * y] and [x / y] on doubles: the exact result,
    rounded.  The operands are read as doubles, which leaves a double as
    it is (lemma [number_idem]). *)
Definition add (x y : Q) : Q := number (number x + number y).
Definition sub (x y : Q) : Q := number (number x - number y).
Definition mul (x y : Q) : Q := number (number x * number y).
Definition div (x y : Q) : Q := number (number x / number y).

(** The multiples of [2^e]. *)
Definition on_grid (e : Z) (x : Q) : Prop :=
  exists m : Z, x == inject_Z m * pow2 e.

End Double.

(** ** types.ts *)

Inductive Difficulty := Easy | Medium | Hard.

Inductive EvaluationMode := LLM | FALLBACK_RULE_BASED.

Inductive Level := Junior | Mid | Senior.

Inductive GapType := PRIMARY | SECONDARY.

Inductive Status :=
| IDLE | ANALYZING | GENERATING | INTERVIEWING | EVALUATING
| TERMINATED | COMPLETED.

Record Skill := { skill_name : string; skill_level : Level }.

Record ResumeData := {
  candidateName : string;
  skills : list Skill;
  experienceYears : Q;
  primaryRole : string }.

Record JobDescriptionData := {
  roleTitle : string;
  primarySkills : list string;
  secondarySkills : list string;
  complexityLevel : Level;
  description : string }.

Record Question := {
  id : string;
  text : string;
  targetSkill : string;
  difficulty : Difficulty;
  expectedKeywords : list string }.

Record EvaluationCriteria := {
  accuracy : Q;
  clarity : Q;
  depth : Q;
  relevance : Q }.

(** What an evaluator hands back: the criteria, the feedback text and the
    optional [isFallback] flag. *)
Record RawEvaluation := {
  raw_criteria : EvaluationCriteria;
  raw_feedback : string;
  raw_isFallback : option bool }.

(** [AnswerEvaluation extends EvaluationCriteria]. *)
Record AnswerEvaluation := {
  criteria : EvaluationCriteria;
  totalScore : Q;
  feedback : string;
  timeTakenSeconds : Q;
  timePenalty : Q;
  finalScore : Q;
  skillGapPenalty : option Q;
  isFallback : option bool }.

Record InterviewTurn := {
  question : Question;
  answer : string;
  evaluation : AnswerEvaluation;
  difficultyBefore : Difficulty;
  difficultyAfter : Difficulty;
  criticalFailure : bool }.

Record SkillGap := { skill : string; gap_type : GapType }.

Record Config := {
  maxQuestions : nat;
  timeLimitPerQuestion : Q;
  passingScoreThreshold : Q;
  maxViolations : nat }.

(** The lines the engine writes to its audit log, one constructor per
    template literal of engine.ts. *)
Inductive LogEntry :=
| LogEngineOnline
| LogAnalyzing
| LogInitialDifficulty (lvl : Level) (d : Difficulty)
| LogGapsFound (gaps primaryMissing : nat)
| LogCeiling (matchRatePercent : Q) (cap : Difficulty)
| LogInitComplete
| LogSessionInitialized
| LogQuestion (n : nat) (target : string) (d : Difficulty)
| LogAnswerSubmitted (seconds : Q)
| LogEmptyAnswer (zero : Q)
| LogSpam (seconds : Q)
| LogFallbackMode
| LogTimeViolation (n : nat) (penalty : Q)
| LogGapPenalty (t : option GapType) (target : string) (penalty : Q)
| LogScore (base time gap final : Q)
| LogAdaptBlocked (cap : Difficulty)
| LogAdapt (from to : Difficulty)
| LogCriticalFailure (threshold : Q) (strikes : nat)
| LogWeakAnswer (threshold : Q)
| LogRecovery
| LogFinalAverage (avg : Q)
| LogCompleted
| LogTerminated (reason : string).

Record InterviewState := {
  status : Status;
  currentDifficulty : Difficulty;
  evaluationMode : EvaluationMode;
  activeQuestion : option Question;
  turns : list InterviewTurn;
  scoreHistory : list Q;
  consecutiveWeakAnswers : nat;
  timeViolations : nat;
  detectedSkillGaps : list SkillGap;
  difficultyCeiling : option Difficulty;
  terminationReason : option string;
  logs : list LogEntry;
  config : Config }.

(** ** services/policy.ts *)

Module INTERVIEW_POLICY.

Module SCORING.
Definition ACCURACY_weight : Q := 0.40.
Definition DEPTH_weight : Q := 0.30.
Definition CLARITY_weight : Q := 0.15.
Definition RELEVANCE_weight : Q := 0.15.
Definition STRONG_SCORE : Q := 8.0.
Definition WEAK_SCORE : Q := 4.5.
Definition CRITICAL_FAIL_SCORE : Q := 2.0.
Definition PASSING_THRESHOLD : Q := 6.0.
End SCORING.

Module FALLBACK_SCORING.
Definition KEYWORD_MATCH_VALUE : Q := 2.0.
Definition LENGTH_THRESHOLD_CHARS : nat := 50.
Definition LENGTH_BONUS : Q := 1.0.
Definition BASE_SCORE : Q := 4.0.
Definition MAX_SCORE : Q := 8.5.
End FALLBACK_SCORING.

Module TIMING.
Definition LIMIT_SEC : Q := 60.
Definition PENALTY_START_SEC : Q := 60.
Definition PENALTY_STEP_SEC : Q := 5.
Definition PENALTY_PER_STEP : Q := 0.5.
Definition MAX_VIOLATIONS_ALLOWED : nat := 2.
Definition MIN_ANSWER_TIME_MS : Q := 2000.
End TIMING.

Module DIFFICULTY.
(** [INITIAL]: the start difficulty per declared complexity of the role. *)
Definition INITIAL (lvl : Level) : option Difficulty :=
  match lvl with
  | Senior => Some Medium
  | Mid => Some Easy
  | Junior => Some Easy
  end.
Definition CRITICAL_GAP_MATCH_THRESHOLD : Q := 0.6.
Definition CAP_LEVEL : Difficulty := Medium.
End DIFFICULTY.

Module RESUME_JD_LOGIC.
Definition PRIMARY_MISSING : Q := 1.5.
Definition SECONDARY_MISSING : Q := 0.5.
End RESUME_JD_LOGIC.

Module TERMINATION.
Definition MAX_QUESTIONS : nat := 5.
Definition STRIKE_LIMIT : nat := 3.
Definition CRITICAL_FAIL_STRIKES : nat := 2.
End TERMINATION.

Module EDGE_CASES.
Definition EMPTY_ANSWER_SCORE : Q := 0.
Definition IRRELEVANT_ANSWER_SCORE : Q := 0.
Definition SPAM_ANSWER_SCORE : Q := 0.
End EDGE_CASES.

End INTERVIEW_POLICY.

#[global] Instance Difficulty_eq_dec : EqDecision Difficulty.
Proof. solve_decision. Defined.

#[global] Instance Status_eq_dec : EqDecision Status.
Proof. solve_decision. Defined.

#[global] Instance EvaluationMode_eq_dec : EqDecision EvaluationMode.
Proof. solve_decision. Defined.

(** ** services/engine.ts: LogicCore *)

Module LogicCore.
Import INTERVIEW_POLICY.

(** Weighted score, [Number(score.toFixed(2))]: the products and the sums
    are those of doubles, [toFixed] rounds the double that results to two
    decimals and [Number] reads the decimal back as a double. *)
Definition calculateScore (c : EvaluationCriteria) : Q :=
  let score :=
    Double.add
      (Double.add
         (Double.add
            (Double.mul (accuracy c) SCORING.ACCURACY_weight)
            (Double.mul (depth c) SCORING.DEPTH_weight))
         (Double.mul (clarity c) SCORING.CLARITY_weight))
      (Double.mul (relevance c) SCORING.RELEVANCE_weight) in
  Double.number (JS.toFixed 2 score).

Record TimeLogic := { penalty : Q; isViolation : bool }.

Definition calculateTimeLogic (seconds : Q) : TimeLogic :=
  if Qle_bool seconds TIMING.PENALTY_START_SEC
  then {| penalty := 0; isViolation := false |}
  else
    let overtime := seconds - TIMING.PENALTY_START_SEC in
    let steps := JS.ceil (overtime / TIMING.PENALTY_STEP_SEC) in
    let penalty := steps * TIMING.PENALTY_PER_STEP in
    {| penalty := JS.toFixed 1 penalty; isViolation := true |}.

Record GapCheck := { gap_penalty : Q; gap_kind : option GapType }.

(** [gaps.find(g => g.skill.toLowerCase() === targetSkill.toLowerCase())] *)
Definition find_gap (target : string) (gaps : list SkillGap) : option SkillGap :=
  List.find
    (fun g => String.eqb (JS.toLowerCase (skill g)) (JS.toLowerCase target))
    gaps.

Definition checkSkillGap (target : string) (gaps : list SkillGap) : GapCheck :=
  match find_gap target gaps with
  | None => {| gap_penalty := 0; gap_kind := None |}
  | Some gap =>
      match gap_type gap with
      | PRIMARY =>
          {| gap_penalty := RESUME_JD_LOGIC.PRIMARY_MISSING;
             gap_kind := Some PRIMARY |}
      | SECONDARY =>
          {| gap_penalty := RESUME_JD_LOGIC.SECONDARY_MISSING;
             gap_kind := Some SECONDARY |}
      end
  end.

Definition levels : list Difficulty := [Easy; Medium; Hard].

(** [Array.prototype.indexOf]: the first position, or -1. *)
Fixpoint indexOf_from (l : list Difficulty) (x : Difficulty) (i : Z) : Z :=
  match l with
  | [] => (-1)%Z
  | y :: r => if decide (y = x) then i else indexOf_from r x (i + 1)%Z
  end.

Definition indexOf (l : list Difficulty) (x : Difficulty) : Z :=
  indexOf_from l x 0%Z.

Definition nextDifficulty
    (current : Difficulty) (score : Q) (ceiling : option Difficulty)
    : Difficulty :=
  let next :=
    if Qle_bool SCORING.STRONG_SCORE score then
      match current with
      | Easy => Medium
      | Medium => Hard
      | Hard => current
      end
    else if Qle_bool score SCORING.WEAK_SCORE then
      match current with
      | Hard => Medium
      | Medium => Easy
      | Easy => current
      end
    else current in
  match ceiling with
  | Some cap =>
      let nextIdx := indexOf levels next in
      let capIdx := indexOf levels cap in
      if (capIdx <? nextIdx)%Z then cap else next
  | None => next
  end.

End LogicCore.

(** ** services/gemini.ts: FallbackRegistry *)

Module FallbackRegistry.
Import INTERVIEW_POLICY.

(** An entry of the static question pool. *)
Record PoolQuestion := {
  pool_text : string;
  pool_targetSkill : string;
  pool_keywords : list string }.

Definition QUESTIONS : list PoolQuestion :=
  [ {| pool_text := "Explain the virtual DOM in React and its performance benefits.";
       pool_targetSkill := "React";
       pool_keywords := ["diffing"; "reconciliation"; "memory"; "batching"] |};
    {| pool_text := "What are the differences between LocalStorage, SessionStorage, and Cookies?";
       pool_targetSkill := "Web Storage";
       pool_keywords := ["expiration"; "server"; "capacity"; "persistent"] |};
    {| pool_text := "Explain how closures work in JavaScript and provide a use case.";
       pool_targetSkill := "JavaScript";
       pool_keywords := ["scope"; "function"; "lexical"; "memory"] |};
    {| pool_text := "Describe the CSS Box Model.";
       pool_targetSkill := "CSS";
       pool_keywords := ["margin"; "border"; "padding"; "content"] |};
    {| pool_text := "How do you handle asynchronous operations in Node.js?";
       pool_targetSkill := "Node.js";
       pool_keywords := ["promise"; "async"; "await"; "callback"] |} ].

Definition mockResume (text : string) : ResumeData :=
  {| candidateName := "Candidate (Fallback Parsing)";
     experienceYears := 3;
     primaryRole := "Developer";
     skills :=
       [ {| skill_name := "React"; skill_level := Mid |};
         {| skill_name := "TypeScript"; skill_level := Mid |};
         {| skill_name := "JavaScript"; skill_level := Senior |} ] |}.

Definition mockJD (text : string) : JobDescriptionData :=
  {| roleTitle := "Software Engineer (Fallback Parsing)";
     complexityLevel := Mid;
     primarySkills := ["React"; "TypeScript"; "Node.js"];
     secondarySkills := ["AWS"; "Testing"];
     description := text |}.

(** The fallback branch of [generateQuestion]: the pool entry at the drawn
    index [Math.floor(Math.random() * pool.length)], given a fresh id and
    the requested difficulty.  An index into the pool always hits. *)
Definition fallbackQuestion (drawn : nat) (uuid : string)
    (currentDifficulty : Difficulty) : option Question :=
  match nth_error QUESTIONS drawn with
  | None => None
  | Some fallbackQ =>
      Some {| id := uuid;
              text := pool_text fallbackQ;
              targetSkill := pool_targetSkill fallbackQ;
              expectedKeywords := pool_keywords fallbackQ;
              difficulty := currentDifficulty |}
  end.

(** The [forEach] over the expected keywords: the hit counter and the
    keywords that were not found, in order. *)
Definition scan_keywords (lowerAnswer : string) (kws : list string)
    : nat * list string :=
  fold_left
    (fun (acc : nat * list string) kw =>
       if JS.includes lowerAnswer (JS.toLowerCase kw)
       then (S (fst acc), snd acc)
       else (fst acc, (snd acc ++ [kw])%list))
    kws (0%nat, []).

Definition heuristic (keywordHits : nat) (isShort : bool) : Q :=
  let h0 := FALLBACK_SCORING.BASE_SCORE in
  let h1 := h0 + inject_Z (Z.of_nat keywordHits) * FALLBACK_SCORING.KEYWORD_MATCH_VALUE in
  let h2 := if negb isShort then h1 + FALLBACK_SCORING.LENGTH_BONUS else h1 in
  Qmin h2 FALLBACK_SCORING.MAX_SCORE.

Definition evaluate (q : Question) (answer : string) : RawEvaluation :=
  let lowerAnswer := JS.toLowerCase answer in
  let keywordHits := fst (scan_keywords lowerAnswer (expectedKeywords q)) in
  let isShort :=
    (String.length answer <? FALLBACK_SCORING.LENGTH_THRESHOLD_CHARS)%nat in
  let heuristicScore := heuristic keywordHits isShort in
  let f0 :=
    "[Deterministic Evaluation] Score calculated based on length and keyword coverage. " in
  let f1 :=
    if (0 <? keywordHits)%nat
    then f0 ++ "Identified " ++ JS.show_nat keywordHits ++ " relevant concepts. "
    else f0 ++ "Answer lacked specific expected technical terminology. " in
  let f2 := if isShort then f1 ++ "Response was brief." else f1 in
  {| raw_criteria :=
       {| accuracy := Qmin 10 heuristicScore;
          clarity := 6;
          depth := if isShort then 3 else 6;
          relevance := if (0 <? keywordHits)%nat then 8 else 4 |};
     raw_feedback := f2;
     raw_isFallback := Some true |}.

End FallbackRegistry.

(** ** Field updates of the state object *)

Definition set_status (v : Status) (s : InterviewState) : InterviewState :=
  Build_InterviewState v (currentDifficulty s) (evaluationMode s)
    (activeQuestion s) (turns s) (scoreHistory s) (consecutiveWeakAnswers s)
    (timeViolations s) (detectedSkillGaps s) (difficultyCeiling s)
    (terminationReason s) (logs s) (config s).

Definition set_currentDifficulty (v : Difficulty) (s : InterviewState) :=
  Build_InterviewState (status s) v (evaluationMode s)
    (activeQuestion s) (turns s) (scoreHistory s) (consecutiveWeakAnswers s)
    (timeViolations s) (detectedSkillGaps s) (difficultyCeiling s)
    (terminationReason s) (logs s) (config s).

Definition set_evaluationMode (v : EvaluationMode) (s : InterviewState) :=
  Build_InterviewState (status s) (currentDifficulty s) v
    (activeQuestion s) (turns s) (scoreHistory s) (consecutiveWeakAnswers s)
    (timeViolations s) (detectedSkillGaps s) (difficultyCeiling s)
    (terminationReason s) (logs s) (config s).

Definition set_activeQuestion (v : option Question) (s : InterviewState) :=
  Build_InterviewState (status s) (currentDifficulty s) (evaluationMode s)
    v (turns s) (scoreHistory s) (consecutiveWeakAnswers s)
    (timeViolations s) (detectedSkillGaps s) (difficultyCeiling s)
    (terminationReason s) (logs s) (config s).

Definition set_turns (v : list InterviewTurn) (s : InterviewState) :=
  Build_InterviewState (status s) (currentDifficulty s) (evaluationMode s)
    (activeQuestion s) v (scoreHistory s) (consecutiveWeakAnswers s)
    (timeViolations s) (detectedSkillGaps s) (difficultyCeiling s)
    (terminationReason s) (logs s) (config s).

Definition set_scoreHistory (v : list Q) (s : InterviewState) :=
  Build_InterviewState (status s) (currentDifficulty s) (evaluationMode s)
    (activeQuestion s) (turns s) v (consecutiveWeakAnswers s)
    (timeViolations s) (detectedSkillGaps s) (difficultyCeiling s)
    (terminationReason s) (logs s) (config s).

Definition set_consecutiveWeakAnswers (v : nat) (s : InterviewState) :=
  Build_InterviewState (status s) (currentDifficulty s) (evaluationMode s)
    (activeQuestion s) (turns s) (scoreHistory s) v
    (timeViolations s) (detectedSkillGaps s) (difficultyCeiling s)
    (terminationReason s) (logs s) (config s).

Definition set_timeViolations (v : nat) (s : InterviewState) :=
  Build_InterviewState (status s) (currentDifficulty s) (evaluationMode s)
    (activeQuestion s) (turns s) (scoreHistory s) (consecutiveWeakAnswers s)
    v (detectedSkillGaps s) (difficultyCeiling s)
    (terminationReason s) (logs s) (config s).

Definition set_detectedSkillGaps (v : list SkillGap) (s : InterviewState) :=
  Build_InterviewState (status s) (currentDifficulty s) (evaluationMode s)
    (activeQuestion s) (turns s) (scoreHistory s) (consecutiveWeakAnswers s)
    (timeViolations s) v (difficultyCeiling s)
    (terminationReason s) (logs s) (config s).

Definition set_difficultyCeiling (v : option Difficulty) (s : InterviewState) :=
  Build_InterviewState (status s) (currentDifficulty s) (evaluationMode s)
    (activeQuestion s) (turns s) (scoreHistory s) (consecutiveWeakAnswers s)
    (timeViolations s) (detectedSkillGaps s) v
    (terminationReason s) (logs s) (config s).

Definition set_terminationReason (v : option string) (s : InterviewState) :=
  Build_InterviewState (status s) (currentDifficulty s) (evaluationMode s)
    (activeQuestion s) (turns s) (scoreHistory s) (consecutiveWeakAnswers s)
    (timeViolations s) (detectedSkillGaps s) (difficultyCeiling s)
    v (logs s) (config s).

Definition set_logs (v : list LogEntry) (s : InterviewState) :=
  Build_InterviewState (status s) (currentDifficulty s) (evaluationMode s)
    (activeQuestion s) (turns s) (scoreHistory s) (consecutiveWeakAnswers s)
    (timeViolations s) (detectedSkillGaps s) (difficultyCeiling s)
    (terminationReason s) v (config s).

(** ** services/engine.ts: InterviewEngine, on the value of the state *)

Module InterviewEngine.
Import INTERVIEW_POLICY.

(** What a method leaves behind: the state at its end and the values the
    subscribers were shown on the way, oldest first. *)
Record Outcome := { final : InterviewState; notified : list InterviewState }.

(** A method that mutates and then calls [notify] once, last. *)
Definition notify_last (s : InterviewState) : Outcome :=
  {| final := s; notified := [s] |}.

Definition silent (s : InterviewState) : Outcome :=
  {| final := s; notified := [] |}.

Definition getInitialState : InterviewState :=
  {| status := IDLE;
     currentDifficulty := Easy;
     evaluationMode := LLM;
     activeQuestion := None;
     turns := [];
     scoreHistory := [];
     consecutiveWeakAnswers := 0;
     timeViolations := 0;
     detectedSkillGaps := [];
     difficultyCeiling := None;
     terminationReason := None;
     logs := [LogEngineOnline];
     config :=
       {| maxQuestions := TERMINATION.MAX_QUESTIONS;
          timeLimitPerQuestion := TIMING.LIMIT_SEC;
          passingScoreThreshold := SCORING.PASSING_THRESHOLD;
          maxViolations := TIMING.MAX_VIOLATIONS_ALLOWED |} |}.

(** [log]: newest line first; beyond 200 lines the oldest is popped. *)
Definition log (msg : LogEntry) (s : InterviewState) : InterviewState :=
  let l := msg :: logs s in
  set_logs (if (200 <? List.length l)%nat then removelast l else l) s.

Definition startAnalysis (s : InterviewState) : Outcome :=
  notify_last (log LogAnalyzing (set_status ANALYZING s)).

(** The two [forEach] loops of the skill-gap analysis. *)
Definition missing (resumeSkills : gset string) (skill : string) : bool :=
  negb (bool_decide (JS.trim (JS.toLowerCase skill) ∈ resumeSkills)).

Definition gaps_of (resumeSkills : gset string) (t : GapType)
    (required : list string) : list SkillGap :=
  map (fun sk => {| skill := sk; gap_type := t |})
      (List.filter (missing resumeSkills) required).

Definition initializeSession (jd : JobDescriptionData) (resume : ResumeData)
    (s : InterviewState) : Outcome :=
  let startDiff := default Easy (DIFFICULTY.INITIAL (complexityLevel jd)) in
  let s := set_currentDifficulty startDiff s in
  let s := log (LogInitialDifficulty (complexityLevel jd) startDiff) s in
  let resumeSkills : gset string :=
    list_to_set (map (fun sk => JS.trim (JS.toLowerCase (skill_name sk)))
                     (skills resume)) in
  let primaryGaps := gaps_of resumeSkills PRIMARY (primarySkills jd) in
  let primaryMissing := List.length primaryGaps in
  let gaps :=
    (primaryGaps ++ gaps_of resumeSkills SECONDARY (secondarySkills jd))%list in
  let s := set_detectedSkillGaps gaps s in
  let s := log (LogGapsFound (List.length gaps) primaryMissing) s in
  let primaryCount := List.length (primarySkills jd) in
  let primaryMatchRate : Q :=
    if (0 <? primaryCount)%nat
    then (inject_Z (Z.of_nat primaryCount) - inject_Z (Z.of_nat primaryMissing))
         / inject_Z (Z.of_nat primaryCount)
    else 1 in
  let s :=
    if JS.lt primaryMatchRate DIFFICULTY.CRITICAL_GAP_MATCH_THRESHOLD
    then
      let s := set_difficultyCeiling (Some DIFFICULTY.CAP_LEVEL) s in
      log (LogCeiling (JS.toFixed 0 (primaryMatchRate * 100))
                      DIFFICULTY.CAP_LEVEL) s
    else s in
  let s := set_status IDLE s in
  let s := log LogInitComplete s in
  notify_last s.

Definition setGenerating (s : InterviewState) : Outcome :=
  notify_last (set_status GENERATING s).

(** [presentQuestion], statement by statement: the state after the
    assignment of the question, after the assignment of the status and
    after the log line. *)
Definition presentQuestion_trace (q : Question) (s : InterviewState)
    : list InterviewState :=
  let s1 := set_activeQuestion (Some q) s in
  let s2 := set_status INTERVIEWING s1 in
  let s3 := log (LogQuestion (List.length (turns s2) + 1) (targetSkill q)
                             (difficulty q)) s2 in
  [s1; s2; s3].

Definition presentQuestion (q : Question) (s : InterviewState) : Outcome :=
  notify_last (List.last (presentQuestion_trace q s) s).

Definition startInterview (firstQuestion : Question) (s : InterviewState)
    : Outcome :=
  if negb (bool_decide (status s = IDLE)) &&
     negb (bool_decide (status s = GENERATING))
  then silent s
  else presentQuestion firstQuestion (log LogSessionInitialized s).

Definition reset (s : InterviewState) : Outcome :=
  notify_last getInitialState.

(** *** submitAnswer *)

Definition zero_evaluation (zero : Q) (fb : string) : RawEvaluation :=
  {| raw_criteria :=
       {| accuracy := zero; clarity := zero; depth := zero; relevance := zero |};
     raw_feedback := fb;
     raw_isFallback := Some true |}.

Definition is_empty_answer (answerText : string) : bool :=
  String.eqb answerText "" || (String.length (JS.trim answerText) =? 0)%nat.

Definition is_spam_answer (answerText : string) (timeTakenSeconds : Q) : bool :=
  JS.lt (timeTakenSeconds * 1000) TIMING.MIN_ANSWER_TIME_MS &&
  (5 <? String.length answerText)%nat.

(** The deterministic filters: the log line and the forced evaluation of
    an answer that is settled locally, [None] for an answer that goes to
    the evaluator. *)
Definition preFilter (answerText : string) (timeTakenSeconds : Q)
    : option (LogEntry * RawEvaluation) :=
  if is_empty_answer answerText then
    let zero := EDGE_CASES.EMPTY_ANSWER_SCORE in
    Some (LogEmptyAnswer zero,
          zero_evaluation zero "Automatic Failure: No answer provided.")
  else if is_spam_answer answerText timeTakenSeconds then
    let zero := EDGE_CASES.SPAM_ANSWER_SCORE in
    Some (LogSpam timeTakenSeconds,
          zero_evaluation zero
            "Automatic Failure: Response time impossibly fast (Spam detection).")
  else None.

(** [calculateFinalAverage], as the decimal that is printed: the scores
    are summed and divided as doubles, and [toFixed] rounds the double that
    results to two decimals. *)
Definition calculateFinalAverage (s : InterviewState) : Q :=
  match scoreHistory s with
  | [] => 0
  | h =>
      let sum := fold_left Double.add h 0 in
      JS.toFixed 2 (Double.div sum (inject_Z (Z.of_nat (List.length h))))
  end.

Definition terminate (reason : string) (s : InterviewState) : InterviewState :=
  let s := set_status TERMINATED s in
  let s := set_terminationReason (Some reason) s in
  let s := log (LogFinalAverage (calculateFinalAverage s)) s in
  log (LogTerminated reason) s.

Definition time_reason (violations : nat) : string :=
  "Time Management Failure: " ++ JS.show_nat violations ++
  " violations exceeded limit of " ++
  JS.show_nat TIMING.MAX_VIOLATIONS_ALLOWED ++ ".".

Definition strike_reason (strikes : nat) : string :=
  "Performance Threshold Reached: " ++ JS.show_nat strikes ++
  " consecutive strikes.".

(** [checkTermination]: whether the session ended, and the state; in each
    ending branch the subscribers are notified last. *)
Definition checkTermination (s : InterviewState) : bool * InterviewState :=
  if (TIMING.MAX_VIOLATIONS_ALLOWED <? timeViolations s)%nat then
    (true, terminate (time_reason (timeViolations s)) s)
  else if (TERMINATION.STRIKE_LIMIT <=? consecutiveWeakAnswers s)%nat then
    (true, terminate (strike_reason (consecutiveWeakAnswers s)) s)
  else if (TERMINATION.MAX_QUESTIONS <=? List.length (turns s))%nat then
    let s1 := set_status COMPLETED s in
    let s2 := log (LogFinalAverage (calculateFinalAverage s1)) s1 in
    (true, log LogCompleted s2)
  else (false, s).

(** Step H up to the final [+= strikes]: the strikes an answer is worth,
    and the state after the log line and the recovery reset. *)
Definition strikeSystem (finalScore : Q) (s : InterviewState)
    : nat * InterviewState :=
  if Qle_bool finalScore SCORING.CRITICAL_FAIL_SCORE then
    let strikes := TERMINATION.CRITICAL_FAIL_STRIKES in
    (strikes, log (LogCriticalFailure SCORING.CRITICAL_FAIL_SCORE strikes) s)
  else if Qle_bool finalScore SCORING.WEAK_SCORE then
    (1%nat, log (LogWeakAnswer SCORING.WEAK_SCORE) s)
  else
    (0%nat,
     if (0 <? consecutiveWeakAnswers s)%nat
     then set_consecutiveWeakAnswers 0 (log LogRecovery s)
     else s).

(** Step F: [Math.max(0, baseScore - timePenalty - gapPenalty)], the two
    subtractions being those of doubles. *)
Definition finalScoreOf (baseScore timePenalty gapPenalty : Q) : Q :=
  Qmax 0 (Double.sub (Double.sub baseScore timePenalty) gapPenalty).

(** Step I: the turn that is recorded. *)
Definition makeTurn (question : Question) (answerText : string)
    (timeTakenSeconds : Q) (rawEvaluation : RawEvaluation)
    (baseScore timePenalty gapPenalty finalScore : Q)
    (before after : Difficulty) : InterviewTurn :=
  {| question := question;
     answer := answerText;
     evaluation :=
       {| criteria := raw_criteria rawEvaluation;
          totalScore := baseScore;
          feedback :=
            if String.eqb (raw_feedback rawEvaluation) ""
            then "Processed by Policy Engine"
            else raw_feedback rawEvaluation;
          timeTakenSeconds := timeTakenSeconds;
          timePenalty := timePenalty;
          finalScore := finalScore;
          skillGapPenalty := Some gapPenalty;
          isFallback := raw_isFallback rawEvaluation |};
     difficultyBefore := before;
     difficultyAfter := after;
     criticalFailure := Qle_bool finalScore SCORING.CRITICAL_FAIL_SCORE |}.

(** Steps C to I of [submitAnswer]: scoring, counters, the turn. *)
Definition applyPolicy (question : Question) (answerText : string)
    (timeTakenSeconds : Q) (rawEvaluation : RawEvaluation)
    (s : InterviewState) : InterviewState :=
  let baseScore := LogicCore.calculateScore (raw_criteria rawEvaluation) in
  let tl := LogicCore.calculateTimeLogic timeTakenSeconds in
  let timePenalty := LogicCore.penalty tl in
  let s :=
    if LogicCore.isViolation tl then
      let s := set_timeViolations (S (timeViolations s)) s in
      log (LogTimeViolation (timeViolations s) timePenalty) s
    else s in
  let gc := LogicCore.checkSkillGap (targetSkill question) (detectedSkillGaps s) in
  let gapPenalty := LogicCore.gap_penalty gc in
  let s :=
    if JS.lt 0 gapPenalty
    then log (LogGapPenalty (LogicCore.gap_kind gc) (targetSkill question) gapPenalty) s
    else s in
  let finalScore := finalScoreOf baseScore timePenalty gapPenalty in
  let s := log (LogScore baseScore timePenalty gapPenalty (JS.toFixed 2 finalScore)) s in
  let nextDiff :=
    LogicCore.nextDifficulty (currentDifficulty s) finalScore (difficultyCeiling s) in
  let s :=
    if bool_decide (nextDiff = currentDifficulty s) then s
    else
      match difficultyCeiling s with
      | Some cap =>
          if bool_decide (nextDiff = cap) && bool_decide (currentDifficulty s = cap)
          then log (LogAdaptBlocked cap) s
          else log (LogAdapt (currentDifficulty s) nextDiff) s
      | None => log (LogAdapt (currentDifficulty s) nextDiff) s
      end in
  let '(strikes, s) := strikeSystem finalScore s in
  let s := set_consecutiveWeakAnswers (consecutiveWeakAnswers s + strikes) s in
  let turn :=
    makeTurn question answerText timeTakenSeconds rawEvaluation
             baseScore timePenalty gapPenalty finalScore
             (currentDifficulty s) nextDiff in
  let s := set_turns (turns s ++ [turn])%list s in
  let s := set_scoreHistory (scoreHistory s ++ [finalScore])%list s in
  let s := set_currentDifficulty nextDiff s in
  set_activeQuestion None s.

(** Step J: the termination check, else back to [GENERATING]; either way
    one notification, last. *)
Definition conclude (s : InterviewState) : InterviewState :=
  let '(ended, s) := checkTermination s in
  if ended then s else set_status GENERATING s.

(** Step 1: the freeze. *)
Definition freeze (timeTakenSeconds : Q) (s : InterviewState) : InterviewState :=
  log (LogAnswerSubmitted (JS.toFixed 1 timeTakenSeconds))
      (set_status EVALUATING s).

(** A submission suspended at [await evaluateAnswer(question, answerText)]. *)
Record Pending := {
  pend_question : Question;
  pend_answer : string;
  pend_time : Q }.

Inductive SubmitStart :=
| Thrown (msg : string)
| Ignored
| Awaiting (frozen : InterviewState) (p : Pending)
| Finished (o : Outcome).

(** [submitAnswer] up to its first suspension.  An answer settled by the
    filters runs to the end without suspending. *)
Definition submit_begin (answerText : string) (timeTakenSeconds : Q)
    (s : InterviewState) : SubmitStart :=
  match activeQuestion s with
  | None => Thrown "Cannot submit answer: No active question."
  | Some question =>
      if negb (bool_decide (status s = INTERVIEWING)) then Ignored
      else
        let frozen := freeze timeTakenSeconds s in
        match preFilter answerText timeTakenSeconds with
        | Some (line, rawEvaluation) =>
            let s1 := log line frozen in
            let s2 := applyPolicy question answerText timeTakenSeconds
                                  rawEvaluation s1 in
            let s3 := conclude s2 in
            Finished {| final := s3; notified := [frozen; s3] |}
        | None =>
            Awaiting frozen
              {| pend_question := question;
                 pend_answer := answerText;
                 pend_time := timeTakenSeconds |}
        end
  end.

(** [submitAnswer] from the point where the evaluator's [result] arrives,
    on the state as it is then. *)
Definition submit_resume (p : Pending) (result : RawEvaluation)
    (s : InterviewState) : Outcome :=
  let s :=
    if bool_decide (raw_isFallback result = Some true) &&
       negb (bool_decide (evaluationMode s = FALLBACK_RULE_BASED))
    then log LogFallbackMode (set_evaluationMode FALLBACK_RULE_BASED s)
    else s in
  let s := applyPolicy (pend_question p) (pend_answer p) (pend_time p) result s in
  notify_last (conclude s).

(** The final score [applyPolicy] computes for a turn, as a function of
    what it reads. *)
Definition turnScore (question : Question) (timeTakenSeconds : Q)
    (rawEvaluation : RawEvaluation) (s : InterviewState) : Q :=
  finalScoreOf
    (LogicCore.calculateScore (raw_criteria rawEvaluation))
    (LogicCore.penalty (LogicCore.calculateTimeLogic timeTakenSeconds))
    (LogicCore.gap_penalty
       (LogicCore.checkSkillGap (targetSkill question) (detectedSkillGaps s))).

(** The fields a turn reads and writes, apart from the status, the mode,
    the active question and the log. *)
Definition ledger (s : InterviewState) :=
  (currentDifficulty s, turns s, scoreHistory s, consecutiveWeakAnswers s,
   timeViolations s, detectedSkillGaps s, difficultyCeiling s,
   terminationReason s).

(** The evaluation a submission is scored with, and the calls it makes to
    the external evaluator: none when the filters settle the answer. *)
Definition evaluationOf (evaluateAnswer : Question -> string -> RawEvaluation)
    (question : Question) (answerText : string) (timeTakenSeconds : Q)
    : RawEvaluation :=
  match preFilter answerText timeTakenSeconds with
  | Some (_, rawEvaluation) => rawEvaluation
  | None => evaluateAnswer question answerText
  end.

Definition evaluatorCallsOf (question : Question) (answerText : string)
    (timeTakenSeconds : Q) : list (Question * string) :=
  match preFilter answerText timeTakenSeconds with
  | Some _ => []
  | None => [(question, answerText)]
  end.

(** One whole [submitAnswer] with nothing interleaved at the suspension:
    the outcome and the calls made to the external evaluator. *)
Inductive Submitted :=
| SubmitThrown (msg : string)
| SubmitIgnored
| SubmitDone (o : Outcome) (evaluatorCalls : list (Question * string)).

Definition submitAnswer (evaluateAnswer : Question -> string -> RawEvaluation)
    (answerText : string) (timeTakenSeconds : Q) (s : InterviewState)
    : Submitted :=
  match submit_begin answerText timeTakenSeconds s with
  | Thrown msg => SubmitThrown msg
  | Ignored => SubmitIgnored
  | Finished o => SubmitDone o []
  | Awaiting frozen p =>
      let result := evaluateAnswer (pend_question p) (pend_answer p) in
      let o := submit_resume p result frozen in
      SubmitDone {| final := final o; notified := frozen :: notified o |}
                 [(pend_question p, pend_answer p)]
  end.

End InterviewEngine.

(** ** Sessions: the public operations in any order *)

Module Session.
Import InterviewEngine.

(** The state object together with the submissions that are suspended at
    the evaluator. *)
Record World := { live : InterviewState; suspended : list Pending }.

Inductive Call :=
| CallStartAnalysis
| CallInitializeSession (jd : JobDescriptionData) (resume : ResumeData)
| CallSetGenerating
| CallStartInterview (q : Question)
| CallPresentQuestion (q : Question)
| CallSubmitAnswer (answerText : string) (timeTakenSeconds : Q)
| CallReset
| Resolve (i : nat) (result : RawEvaluation).

Definition settle (o : Outcome) (w : World) : World * list InterviewState :=
  ({| live := final o; suspended := suspended w |}, notified o).

(** Drop the [i]-th element. *)
Definition remove_at {A} (i : nat) (l : list A) : list A :=
  (firstn i l ++ skipn (S i) l)%list.

Definition exec (c : Call) (w : World) : World * list InterviewState :=
  match c with
  | CallStartAnalysis => settle (startAnalysis (live w)) w
  | CallInitializeSession jd resume =>
      settle (initializeSession jd resume (live w)) w
  | CallSetGenerating => settle (setGenerating (live w)) w
  | CallStartInterview q => settle (startInterview q (live w)) w
  | CallPresentQuestion q => settle (presentQuestion q (live w)) w
  | CallReset => settle (reset (live w)) w
  | CallSubmitAnswer answerText timeTakenSeconds =>
      match submit_begin answerText timeTakenSeconds (live w) with
      | Thrown _ => (w, [])
      | Ignored => (w, [])
      | Finished o => settle o w
      | Awaiting frozen p =>
          ({| live := frozen; suspended := (suspended w ++ [p])%list |}, [frozen])
      end
  | Resolve i result =>
      match nth_error (suspended w) i with
      | None => (w, [])
      | Some p =>
          let o := submit_resume p result (live w) in
          ({| live := final o; suspended := remove_at i (suspended w) |},
           notified o)
      end
  end.

(** A sequence of calls: the world at the end and everything the
    subscribers were shown, oldest first. *)
Fixpoint run (cs : list Call) (w : World) : World * list InterviewState :=
  match cs with
  | [] => (w, [])
  | c :: r =>
      let '(w1, seen1) := exec c w in
      let '(w2, seen2) := run r w1 in
      (w2, (seen1 ++ seen2)%list)
  end.

Definition start : World := {| live := getInitialState; suspended := [] |}.

(** A sequence of calls each of which passes the guard [G] in the state it
    is invoked from. *)
Fixpoint guarded_by (G : Call -> InterviewState -> bool) (cs : list Call)
    (w : World) : bool :=
  match cs with
  | [] => true
  | c :: r => G c (live w) && guarded_by G r (fst (exec c w))
  end.

(** The states an observer can get to see: what [getState] returns after
    some calls, and what a subscriber was shown during them. *)
Definition observable (s : InterviewState) : Prop :=
  exists cs, s = live (fst (run cs start)) \/ In s (snd (run cs start)).

End Session.

(** ** The engine as an object: the state behind a reference *)

Module Live.
Import InterviewEngine.

Definition loc := nat.

(** A subscriber is called with a reference to a state object and may
    read and write the heap. *)
Definition Subscriber : Type :=
  loc -> gmap loc InterviewState -> gmap loc InterviewState.

(** The fields [state] and [subscribers] of the engine. *)
Record Engine := { state : loc; subscribers : list Subscriber }.

Definition getState (e : Engine) : loc := state e.

Definition subscribe (cb : Subscriber) (e : Engine) : Engine :=
  {| state := state e; subscribers := (subscribers e ++ [cb])%list |}.

(** [this.subscribers.forEach(cb => cb(this.state))] *)
Definition notify (e : Engine) (h : gmap loc InterviewState)
    : gmap loc InterviewState :=
  fold_left (fun h cb => cb (state e) h) (subscribers e) h.

(** An in-place update of the state object. *)
Definition mutate (f : InterviewState -> InterviewState) (e : Engine)
    (h : gmap loc InterviewState) : gmap loc InterviewState :=
  alter f (state e) h.

(** A method other than [submitAnswer] and [reset]: it updates the state
    object in place and calls [notify] last, unless it returned early. *)
Definition perform (m : InterviewState -> Outcome) (e : Engine)
    (h : gmap loc InterviewState) : gmap loc InterviewState :=
  match h !! state e with
  | None => h
  | Some s =>
      let o := m s in
      let h' := <[state e := final o]> h in
      match notified o with
      | [] => h'
      | _ => notify e h'
      end
  end.

Definition startAnalysis := perform InterviewEngine.startAnalysis.

Definition initializeSession jd resume :=
  perform (InterviewEngine.initializeSession jd resume).

Definition setGenerating := perform InterviewEngine.setGenerating.

Definition startInterview q := perform (InterviewEngine.startInterview q).

Definition presentQuestion q := perform (InterviewEngine.presentQuestion q).

(** [submitAnswer] with nothing interleaved at the suspension: [None] when
    it throws.  After the freeze the subscribers run, and the method goes
    on with the object as they left it. *)
Definition submitAnswer (evaluateAnswer : Question -> string -> RawEvaluation)
    (answerText : string) (timeTakenSeconds : Q) (e : Engine)
    (h : gmap loc InterviewState) : option (gmap loc InterviewState) :=
  match h !! state e with
  | None => Some h
  | Some s =>
      match activeQuestion s with
      | None => None
      | Some question =>
          if negb (bool_decide (status s = INTERVIEWING)) then Some h
          else
            let h1 := notify e (mutate (freeze timeTakenSeconds) e h) in
            let rest :=
              match preFilter answerText timeTakenSeconds with
              | Some (line, rawEvaluation) =>
                  fun s =>
                    conclude (applyPolicy question answerText timeTakenSeconds
                                          rawEvaluation (log line s))
              | None =>
                  fun s =>
                    final (submit_resume
                             {| pend_question := question;
                                pend_answer := answerText;
                                pend_time := timeTakenSeconds |}
                             (evaluateAnswer question answerText) s)
              end in
            Some (notify e (mutate rest e h1))
      end
  end.

(** [this.state = this.getInitialState()]: a new object; the engine's
    reference moves to it and the old object stays where it was. *)
Definition reset (e : Engine) (h : gmap loc InterviewState)
    : Engine * gmap loc InterviewState :=
  let l := fresh (dom h) in
  let e' := {| state := l; subscribers := subscribers e |} in
  (e', notify e' (<[l := getInitialState]> h)).

(** The subscriber of App.tsx, [s => setEngineState({ ...s })]: it copies
    the delivered object into a slot of its own. *)
Definition copying (slot : loc) : Subscriber :=
  fun l h =>
    match h !! l with
    | Some v => <[slot := v]> h
    | None => h
    end.

(** A subscriber that writes through the reference it is handed. *)
Definition tamper : Subscriber :=
  fun l h => alter (set_status COMPLETED) l h.

(** A subscriber that never writes through the reference it is handed. *)
Definition read_only (cb : Subscriber) : Prop :=
  forall l h, cb l h !! l = h !! l.

End Live.

(** ** Sample sessions, for the examples *)

Module Sample.
Import InterviewEngine.

Definition closures : Question :=
  {| id := "q-closures";
     text := "Explain how closures work in JavaScript and provide a use case.";
     targetSkill := "JavaScript";
     difficulty := Easy;
     expectedKeywords := ["scope"; "function"; "lexical"; "memory"] |}.

Definition boxModel : Question :=
  {| id := "q-box";
     text := "Describe the CSS Box Model.";
     targetSkill := "CSS";
     difficulty := Easy;
     expectedKeywords := ["margin"; "border"; "padding"; "content"] |}.

(** An evaluator that finds every answer strong, and one that finds every
    answer weak but not critical. *)
Definition strong_evaluator (_ : Question) (_ : string) : RawEvaluation :=
  {| raw_criteria := {| accuracy := 9; clarity := 9; depth := 9; relevance := 9 |};
     raw_feedback := "Good.";
     raw_isFallback := Some false |}.

Definition weak_evaluator (_ : Question) (_ : string) : RawEvaluation :=
  {| raw_criteria := {| accuracy := 4; clarity := 4; depth := 4; relevance := 4 |};
     raw_feedback := "Thin.";
     raw_isFallback := Some false |}.

Definition state_of (r : Submitted) (otherwise : InterviewState)
    : InterviewState :=
  match r with
  | SubmitDone o _ => final o
  | _ => otherwise
  end.

Definition outcome_of (r : Submitted) : Outcome :=
  match r with
  | SubmitDone o _ => o
  | _ => silent getInitialState
  end.

Definition calls_of (r : Submitted) : list (Question * string) :=
  match r with
  | SubmitDone _ calls => calls
  | _ => []
  end.

(** A session in which the first question has just been presented. *)
Definition asked : InterviewState :=
  final (presentQuestion closures getInitialState).

Definition goodAnswer : string :=
  "A closure is a function that keeps the lexical scope it was made in.".

(** Two strong answers, each a second late, and a third question. *)
Definition twice_late : InterviewState :=
  let s1 := state_of (submitAnswer strong_evaluator goodAnswer 61 asked) asked in
  let s2 := final (presentQuestion boxModel s1) in
  let s3 := state_of (submitAnswer strong_evaluator goodAnswer 61 s2) s2 in
  final (presentQuestion closures s3).

(** A senior role of which the candidate of [mockResume] misses half the
    primary skills, and a session on it up to the first strong answer. *)
Definition seniorRole : JobDescriptionData :=
  {| roleTitle := "Senior Frontend Engineer";
     primarySkills := ["React"; "TypeScript"; "System Design"; "GraphQL"];
     secondarySkills := ["Performance Optimization"; "AWS"; "CI/CD"];
     complexityLevel := Senior;
     description := "" |}.

Definition capped_session : list Session.Call :=
  [ Session.CallStartAnalysis;
    Session.CallInitializeSession seniorRole (FallbackRegistry.mockResume "");
    Session.CallSetGenerating;
    Session.CallStartInterview closures;
    Session.CallSubmitAnswer goodAnswer 30;
    Session.Resolve 0 (strong_evaluator closures goodAnswer) ].

Definition capped_state : InterviewState :=
  Session.live (fst (Session.run capped_session Session.start)).

(** The same session while the evaluator is still out. *)
Definition evaluating_session : list Session.Call := firstn 5 capped_session.

Definition evaluating_state : InterviewState :=
  Session.live (fst (Session.run evaluating_session Session.start)).

(** An engine whose one subscriber writes to what it is handed, over a
    heap that holds the initial state object. *)
Definition tampered_engine : Live.Engine :=
  {| Live.state := 0%nat; Live.subscribers := [Live.tamper] |}.

Definition fresh_heap : gmap Live.loc InterviewState :=
  {[ 0%nat := getInitialState ]}.

(** An engine whose one subscriber is the one of App.tsx. *)
Definition app_engine : Live.Engine :=
  {| Live.state := 0%nat; Live.subscribers := [Live.copying 1%nat] |}.

(** Criteria, as doubles, whose weighted sum lies just above 7.995. *)
Definition borderline : EvaluationCriteria :=
  {| accuracy := Double.number 5.4; clarity := 9.5;
     depth := Double.number 9.8; relevance := Double.number 9.8 |}.

(** Two weak answers and then a strong one. *)
Definition first_weak : Outcome :=
  outcome_of (submitAnswer weak_evaluator goodAnswer 30 asked).

Definition second_weak : Outcome :=
  outcome_of (submitAnswer weak_evaluator goodAnswer 30
                (final (presentQuestion boxModel (final first_weak)))).

Definition then_strong : Outcome :=
  outcome_of (submitAnswer strong_evaluator goodAnswer 30
                (final (presentQuestion closures (final second_weak)))).

End Sample.

(** ** The specification's own words

    Definitions written after the specification text, to be compared with
    the ones above that were written after the code. *)

Module Spec.
Import INTERVIEW_POLICY.

(** Difficulty is ordered Easy < Medium < Hard. *)
Definition rank (d : Difficulty) : nat :=
  match d with Easy => 0 | Medium => 1 | Hard => 2 end.

(** Escalate one level, saturating at Hard. *)
Definition escalate (d : Difficulty) : Difficulty :=
  match d with Easy => Medium | Medium => Hard | Hard => Hard end.

(** Downgrade one level, saturating at Easy. *)
Definition downgrade (d : Difficulty) : Difficulty :=
  match d with Hard => Medium | Medium => Easy | Easy => Easy end.

(** Clamp a proposed difficulty down to the ceiling, when there is one. *)
Definition clamp (ceiling : option Difficulty) (d : Difficulty) : Difficulty :=
  match ceiling with
  | Some cap => if (rank cap <? rank d)%nat then cap else d
  | None => d
  end.

Definition adapt (current : Difficulty) (score : Q) : Difficulty :=
  if Qle_bool SCORING.STRONG_SCORE score then escalate current
  else if Qle_bool score SCORING.WEAK_SCORE then downgrade current
  else current.

(** Strike accounting: the counter after an answer of the given final
    score. *)
Definition strikes_after (finalScore : Q) (before : nat) : nat :=
  if Qle_bool finalScore SCORING.CRITICAL_FAIL_SCORE
  then before + TERMINATION.CRITICAL_FAIL_STRIKES
  else if Qle_bool finalScore SCORING.WEAK_SCORE then before + 1
  else 0.

(** The ceiling, when set, is Medium and bounds the current difficulty. *)
Definition capped (s : InterviewState) : Prop :=
  forall cap,
    difficultyCeiling s = Some cap ->
    cap = Medium /\ (rank (currentDifficulty s) <= rank cap)%nat.

(** An empty or whitespace-only answer. *)
Fixpoint whitespace_only (s : string) : bool :=
  match s with
  | EmptyString => true
  | String c r => JS.is_space c && whitespace_only r
  end.


(** The expected keywords found as case-insensitive substrings of the
    answer, counted. *)
Definition keywordHits (q : Question) (answer : string) : nat :=
  List.length
    (List.filter
       (fun kw => JS.includes (JS.toLowerCase answer) (JS.toLowerCase kw))
       (expectedKeywords q)).


(** ceil((timeTaken - 60) / 5) * 0.5 *)
Definition overtime_penalty (timeTaken : Q) : Q :=
  inject_Z (Qceiling ((timeTaken - TIMING.PENALTY_START_SEC)
                      / TIMING.PENALTY_STEP_SEC))
  * TIMING.PENALTY_PER_STEP.

(** The weighted sum of the four criteria. *)
Definition weighted_sum (c : EvaluationCriteria) : Q :=
  accuracy c * (40 # 100) + depth c * (30 # 100)
  + clarity c * (15 # 100) + relevance c * (15 # 100).

(** A penalty: a whole number of halves. *)
Definition half_steps (p : Q) : Prop :=
  exists j : Z, (0 <= j)%Z /\ p == inject_Z j * (1 # 2).

(** Criteria on the evaluator's scale, 0 to 10. *)
Definition on_scale (c : EvaluationCriteria) : Prop :=
  (0 <= accuracy c /\ accuracy c <= 10)
  /\ (0 <= clarity c /\ clarity c <= 10)
  /\ (0 <= depth c /\ depth c <= 10)
  /\ (0 <= relevance c /\ relevance c <= 10).

(** The status a session takes after a completed turn, by the priority
    order of the termination check. *)
Definition verdict (violations strikes turnCount : nat) : Status :=
  if (2 <? violations)%nat then TERMINATED
  else if (3 <=? strikes)%nat then TERMINATED
  else if (5 <=? turnCount)%nat then COMPLETED
  else GENERATING.

(** The states from which 4.1 allows an operation to be invoked; the
    engine itself checks this only for [startInterview] and
    [submitAnswer]. *)
Definition in_protocol (c : Session.Call) (s : InterviewState) : bool :=
  match c with
  | Session.CallStartAnalysis => bool_decide (status s = IDLE)
  | Session.CallInitializeSession _ _ => bool_decide (status s = ANALYZING)
  | Session.CallSetGenerating => bool_decide (status s = IDLE)
  | _ => true
  end.

(** A sequence of calls each of which is invoked from an allowed state. *)
Definition follows_protocol (cs : list Session.Call) (w : Session.World) : bool :=
  Session.guarded_by in_protocol cs w.

End Spec.

(** ** Notions for the properties of the recorded history *)

Module Audit.
Import INTERVIEW_POLICY.

(** The final scores of the recorded turns, oldest first. *)
Definition scores_of (ts : list InterviewTurn) : list Q :=
  map (fun t => finalScore (evaluation t)) ts.

(** A turn that can be recomputed from its own fields: the base score from
    the criteria, the time penalty from the time taken, the final score
    from the base score and the two penalties (for criteria between 0 and
    10 by exact arithmetic), the critical-failure flag from the final
    score; the final score is not negative and not above max(0, base). *)
Definition audited (t : InterviewTurn) : Prop :=
  let e := evaluation t in
  totalScore e = LogicCore.calculateScore (criteria e)
  /\ timePenalty e
     = LogicCore.penalty (LogicCore.calculateTimeLogic (timeTakenSeconds e))
  /\ (exists gap,
         skillGapPenalty e = Some gap
         /\ (gap = 0 \/ gap = RESUME_JD_LOGIC.PRIMARY_MISSING
             \/ gap = RESUME_JD_LOGIC.SECONDARY_MISSING)
         /\ finalScore e
            = InterviewEngine.finalScoreOf (totalScore e) (timePenalty e) gap
         /\ (Spec.on_scale (criteria e) ->
             finalScore e == Qmax 0 (totalScore e - timePenalty e - gap)))
  /\ 0 <= finalScore e
  /\ finalScore e <= Qmax 0 (totalScore e)
  /\ criticalFailure t = Qle_bool (finalScore e) SCORING.CRITICAL_FAIL_SCORE.

(** The audit log within its bound. *)
Definition log_bounded (s : InterviewState) : Prop :=
  (1 <= List.length (logs s) <= 200)%nat.

(** Any call but [reset]. *)
Definition keeps_session (c : Session.Call) : bool :=
  match c with
  | Session.CallReset => false
  | _ => true
  end.

(** Criteria within the evaluator's range. *)
Definition in_range (c : EvaluationCriteria) : Prop :=
  (0 <= accuracy c /\ accuracy c <= 10)
  /\ (0 <= clarity c /\ clarity c <= 10)
  /\ (0 <= depth c /\ depth c <= 10)
  /\ (0 <= relevance c /\ relevance c <= 10).

End Audit.

(** ** Notions for what a call leaves in place *)

Module Trend.

(** The state before and after a call that does not start the session
    over: turns are only appended, at most one at a time; the violation
    counter does not go down and goes up by at most one; a ceiling that is
    set stays set; fallback mode stays on. *)
Definition grows (s s' : InterviewState) : Prop :=
  (exists extra,
      turns s' = (turns s ++ extra)%list /\ (List.length extra <= 1)%nat)
  /\ (timeViolations s <= timeViolations s' <= S (timeViolations s))%nat
  /\ (difficultyCeiling s <> None -> difficultyCeiling s' <> None)
  /\ (evaluationMode s = FALLBACK_RULE_BASED ->
      evaluationMode s' = FALLBACK_RULE_BASED).

(** Two difficulties at most one level apart. *)
Definition adjacent (d d' : Difficulty) : Prop :=
  (Spec.rank d <= Spec.rank d' + 1 /\ Spec.rank d' <= Spec.rank d + 1)%nat.

End Trend.

(** ** Notions for the skill-gap analysis *)

Module Gaps.

(** A skill written as the analysis compares it: lower case, trimmed. *)
Definition normal (sk : string) : string := JS.trim (JS.toLowerCase sk).

(** A required skill that none of the candidate's skills matches. *)
Definition absent (resume : ResumeData) (sk : string) : Prop :=
  forall k, In k (skills resume) -> normal (skill_name k) <> normal sk.

(** The required skills a gap of the given type is drawn from. *)
Definition required (jd : JobDescriptionData) (t : GapType) : list string :=
  match t with
  | PRIMARY => primarySkills jd
  | SECONDARY => secondarySkills jd
  end.

(** The primary gaps of a gap list. *)
Definition primary_gaps (gaps : list SkillGap) : list SkillGap :=
  List.filter (fun g => match gap_type g with PRIMARY => true | SECONDARY => false end)
              gaps.

End Gaps.

(** ** App.tsx: the countdown and the time a submission reports *)

Module App.

(** The countdown: [setTimeLeft(prev => prev <= 1 ? 0 : prev - 1)], started
    at the time limit when a question comes up. *)
Definition tick (prev : Q) : Q := if Qle_bool prev 1 then 0 else prev - 1.

Fixpoint countdown (ticks : nat) (timeLeft : Q) : Q :=
  match ticks with
  | O => timeLeft
  | S n => countdown n (tick timeLeft)
  end.

(** [Math.max(0, timeLimit - timeLeft)] of [handleManualSubmit]. *)
Definition manualTimeTaken (timeLimit timeLeft : Q) : Q :=
  Qmax 0 (timeLimit - timeLeft).

End App.

(** * Properties *)
(** ** Binary64 rounding *)

Section Binary64.
Import Double.

Lemma pow2_pos e : 0 < pow2 e.
Proof. apply Qpower_0_lt. reflexivity. Qed.

Lemma pow2_add a b : pow2 (a + b) == pow2 a * pow2 b.
Proof. apply Qpower_plus. discriminate. Qed.

Lemma pow2_sub a b : pow2 (a - b) == pow2 a / pow2 b.
Proof.
  assert (E : pow2 a == pow2 (a - b) * pow2 b).
  { rewrite <- pow2_add. replace (a - b + b)%Z with a by ring. reflexivity. }
  rewrite E. field. pose proof (pow2_pos b). lra.
Qed.

Lemma pow2_le a b : (a <= b)%Z -> pow2 a <= pow2 b.
Proof. intros H. apply Qpower_le_compat_l; [exact H|discriminate]. Qed.

Lemma pow2_lt a b : (a < b)%Z -> pow2 a < pow2 b.
Proof. intros H. apply Qpower_lt_compat_l; [exact H|reflexivity]. Qed.

Lemma pow2_lt_inv a b : pow2 a < pow2 b -> (a < b)%Z.
Proof. intros H. apply (Qpower_lt_compat_l_inv 2); [exact H|reflexivity]. Qed.

Lemma pow2_Z n : (0 <= n)%Z -> pow2 n == inject_Z (2 ^ n).
Proof. intros H. unfold pow2. rewrite Zpower_Qpower by exact H. reflexivity. Qed.

Lemma Zfrac_lt (a b c : Z) (d : positive) :
  (0 < b)%Z -> (a * Zpos d < c * b)%Z -> inject_Z a / inject_Z b < c # d.
Proof.
  intros Hb H. rewrite (Qmake_Qdiv c d).
  apply Qlt_shift_div_r; [replace 0 with (inject_Z 0) by reflexivity;
                          rewrite <- Zlt_Qlt; exact Hb|].
  assert (E : inject_Z c / inject_Z (Zpos d) * inject_Z b
              == inject_Z (c * b) / inject_Z (Zpos d)).
  { rewrite inject_Z_mult. field. discriminate. }
  rewrite E. apply Qlt_shift_div_l; [reflexivity|].
  rewrite <- inject_Z_mult, <- Zlt_Qlt. exact H.
Qed.

Lemma Zfrac_gt (a b c : Z) (d : positive) :
  (0 < b)%Z -> (c * b < a * Zpos d)%Z -> c # d < inject_Z a / inject_Z b.
Proof.
  intros Hb H. rewrite (Qmake_Qdiv c d).
  apply Qlt_shift_div_l; [replace 0 with (inject_Z 0) by reflexivity;
                          rewrite <- Zlt_Qlt; exact Hb|].
  assert (E : inject_Z c / inject_Z (Zpos d) * inject_Z b
              == inject_Z (c * b) / inject_Z (Zpos d)).
  { rewrite inject_Z_mult. field. discriminate. }
  rewrite E. apply Qlt_shift_div_r; [reflexivity|].
  rewrite <- inject_Z_mult, <- Zlt_Qlt. exact H.
Qed.

Lemma ilog2_spec x :
  0 < x -> pow2 (ilog2 x) <= x /\ x < pow2 (ilog2 x + 1).
Proof.
  intros Hx. destruct x as [p q].
  assert (Hp : (0 < p)%Z) by (unfold Qlt in Hx; simpl in Hx; lia).
  unfold ilog2. cbn [Qnum Qden].
  set (lp := Z.log2 p). set (lq := Z.log2 (Zpos q)).
  destruct (Z.log2_spec p Hp) as [P1 P2].
  destruct (Z.log2_spec (Zpos q) (Pos2Z.is_pos q)) as [Q1 Q2].
  fold lp in P1, P2. fold lq in Q1, Q2.
  assert (Lp : (0 <= lp)%Z) by apply Z.log2_nonneg.
  assert (Lq : (0 <= lq)%Z) by apply Z.log2_nonneg.
  rewrite Z.pow_succ_r in P2, Q2 by assumption.
  pose proof (Pos2Z.is_pos q) as Hq.
  assert (Tp : (0 < 2 ^ lp)%Z) by (apply Z.pow_pos_nonneg; lia).
  assert (Tq : (0 < 2 ^ lq)%Z) by (apply Z.pow_pos_nonneg; lia).
  assert (A : pow2 (lp - lq - 1) < p # q).
  { replace (lp - lq - 1)%Z with (lp - (lq + 1))%Z by ring.
    rewrite pow2_sub, (pow2_Z lp), (pow2_Z (lq + 1)) by lia.
    rewrite Z.pow_add_r by lia. change (2 ^ 1)%Z with 2%Z.
    apply Zfrac_lt; [lia|].
    apply Z.le_lt_trans with (p * Zpos q)%Z; [nia|].
    apply Z.mul_lt_mono_pos_l; lia. }
  assert (B : p # q < pow2 (lp - lq + 1)).
  { replace (lp - lq + 1)%Z with (lp + 1 - lq)%Z by ring.
    rewrite pow2_sub, (pow2_Z (lp + 1)), (pow2_Z lq) by lia.
    rewrite Z.pow_add_r by lia. change (2 ^ 1)%Z with 2%Z.
    apply Zfrac_gt; [lia|].
    apply Z.le_lt_trans with (p * Zpos q)%Z; [nia|].
    apply Z.mul_lt_mono_pos_r; lia. }
  destruct (Qle_bool (pow2 (lp - lq)) (p # q)) eqn:E.
  - apply Qle_bool_iff in E. split; [exact E|exact B].
  - split; [apply Qlt_le_weak; exact A|].
    replace (lp - lq - 1 + 1)%Z with (lp - lq)%Z by ring.
    apply Qnot_le_lt. intros C. apply Qle_bool_iff in C. congruence.
Qed.

Lemma ilog2_unique x k :
  0 < x -> pow2 k <= x -> x < pow2 (k + 1) -> ilog2 x = k.
Proof.
  intros Hx L U. destruct (ilog2_spec x Hx) as [L' U'].
  pose proof (pow2_lt_inv _ _ (Qle_lt_trans _ _ _ L' U)).
  pose proof (pow2_lt_inv _ _ (Qle_lt_trans _ _ _ L U')).
  lia.
Qed.

Lemma ilog2_mono x y : 0 < x -> x <= y -> (ilog2 x <= ilog2 y)%Z.
Proof.
  intros Hx Hxy.
  destruct (ilog2_spec x Hx) as [L _].
  destruct (ilog2_spec y (Qlt_le_trans _ _ _ Hx Hxy)) as [_ U].
  pose proof (pow2_lt_inv _ _ (Qle_lt_trans _ _ _ (Qle_trans _ _ _ L Hxy) U)).
  lia.
Qed.

Lemma ilog2_comp x y : 0 < x -> x == y -> ilog2 x = ilog2 y.
Proof.
  intros Hx E. symmetry. assert (Hy : 0 < y) by (rewrite <- E; exact Hx).
  destruct (ilog2_spec x Hx) as [L U].
  apply ilog2_unique; [exact Hy|rewrite <- E; exact L|rewrite <- E; exact U].
Qed.

(** *** Rounding to an integer *)

Lemma floor_bounds y :
  inject_Z (Qfloor y) <= y /\ y < inject_Z (Qfloor y) + 1.
Proof.
  split; [apply Qfloor_le|].
  pose proof (Qlt_floor y) as H. rewrite inject_Z_plus in H. exact H.
Qed.

Lemma nearest_even_bounds y :
  (Qfloor y <= nearest_even y <= Qfloor y + 1)%Z.
Proof.
  unfold nearest_even. destruct (Qcompare _ _); [destruct (Z.even _)| |]; lia.
Qed.

Lemma nearest_even_near y :
  y - (1 # 2) <= inject_Z (nearest_even y)
  /\ inject_Z (nearest_even y) <= y + (1 # 2).
Proof.
  destruct (floor_bounds y) as [L U]. unfold nearest_even.
  destruct (Qcompare_spec (y - inject_Z (Qfloor y)) (1 # 2)) as [E|E|E].
  - destruct (Z.even _); [|rewrite inject_Z_plus];
      change (inject_Z 1) with 1; split; lra.
  - split; lra.
  - rewrite inject_Z_plus. change (inject_Z 1) with 1. split; lra.
Qed.

Lemma nearest_even_comp y y' : y == y' -> nearest_even y = nearest_even y'.
Proof.
  intros E. unfold nearest_even.
  assert (F : Qfloor y = Qfloor y') by (rewrite E; reflexivity).
  rewrite F.
  assert (C : Qcompare (y - inject_Z (Qfloor y')) (1 # 2)
              = Qcompare (y' - inject_Z (Qfloor y')) (1 # 2))
    by (rewrite E; reflexivity).
  rewrite C. reflexivity.
Qed.

Lemma nearest_even_Z z : nearest_even (inject_Z z) = z.
Proof.
  unfold nearest_even. rewrite Qfloor_Z.
  assert (C : Qcompare (inject_Z z - inject_Z z) (1 # 2) = Lt).
  { apply Qlt_alt.
    assert (E : inject_Z z - inject_Z z == 0) by ring.
    rewrite E. reflexivity. }
  rewrite C. reflexivity.
Qed.

Lemma nearest_even_mono y1 y2 :
  y1 <= y2 -> (nearest_even y1 <= nearest_even y2)%Z.
Proof.
  intros H. pose proof (Qfloor_resp_le _ _ H) as F.
  pose proof (nearest_even_bounds y1) as B1.
  pose proof (nearest_even_bounds y2) as B2.
  destruct (Z.eq_dec (Qfloor y1) (Qfloor y2)) as [E|E]; [|lia].
  unfold nearest_even. rewrite E.
  destruct (Qcompare_spec (y1 - inject_Z (Qfloor y2)) (1 # 2)) as [C1|C1|C1];
    destruct (Qcompare_spec (y2 - inject_Z (Qfloor y2)) (1 # 2)) as [C2|C2|C2];
    try destruct (Z.even _); try lia; exfalso; lra.
Qed.

(** *** Rounding to a double *)

Lemma exponent_comp x y : 0 < x -> x == y -> exponent x = exponent y.
Proof. intros Hx E. unfold exponent. rewrite (ilog2_comp x y Hx E). reflexivity. Qed.

Lemma nearest_eq x :
  nearest x
  == inject_Z (nearest_even (x / pow2 (exponent x))) * pow2 (exponent x).
Proof. unfold nearest. apply Qred_correct. Qed.

Lemma nearest_comp x y : 0 < x -> x == y -> nearest x = nearest y.
Proof.
  intros Hx E. unfold nearest. rewrite (exponent_comp x y Hx E).
  apply Qred_complete.
  rewrite (nearest_even_comp (x / pow2 (exponent y)) (y / pow2 (exponent y)))
    by (rewrite E; reflexivity).
  reflexivity.
Qed.

Lemma number_comp x y : x == y -> number x = number y.
Proof.
  intros E. unfold number.
  assert (C : Qcompare x 0 = Qcompare y 0) by (rewrite E; reflexivity).
  rewrite <- C. destruct (Qcompare_spec x 0) as [H|H|H].
  - reflexivity.
  - f_equal. apply nearest_comp; [lra|rewrite E; reflexivity].
  - apply nearest_comp; assumption.
Qed.

#[global] Instance number_proper : Proper (Qeq ==> Qeq) number.
Proof. intros x y E. rewrite (number_comp x y E). reflexivity. Qed.

Lemma nearest_nonneg x : 0 < x -> 0 <= nearest x.
Proof.
  intros Hx. rewrite nearest_eq. pose proof (pow2_pos (exponent x)) as P.
  apply Qmult_le_0_compat; [|lra].
  change 0 with (inject_Z 0). rewrite <- Zle_Qle.
  pose proof (nearest_even_bounds (x / pow2 (exponent x))) as B.
  assert (F : (0 <= Qfloor (x / pow2 (exponent x)))%Z).
  { change 0%Z with (Qfloor (inject_Z 0)) at 1. apply Qfloor_resp_le.
    change (inject_Z 0) with 0. apply Qle_shift_div_l; [exact P|lra]. }
  lia.
Qed.

Lemma nearest_mono x y : 0 < x -> x <= y -> nearest x <= nearest y.
Proof.
  intros Hx Hxy. assert (Hy : 0 < y) by lra.
  rewrite !nearest_eq.
  set (ex := exponent x). set (ey := exponent y).
  pose proof (pow2_pos ex) as Px. pose proof (pow2_pos ey) as Py.
  assert (Le : (ex <= ey)%Z).
  { unfold ex, ey, exponent. pose proof (ilog2_mono x y Hx Hxy). lia. }
  destruct (Z.eq_dec ex ey) as [E|E].
  - rewrite E. apply Qmult_le_compat_r; [|lra].
    rewrite <- Zle_Qle. apply nearest_even_mono.
    apply Qmult_le_compat_r; [exact Hxy|].
    apply Qlt_le_weak, Qinv_lt_0_compat. exact Py.
  - destruct (ilog2_spec x Hx) as [_ Ux]. destruct (ilog2_spec y Hy) as [Ly _].
    assert (Mx : (nearest_even (x / pow2 ex) <= 2 ^ 53)%Z).
    { rewrite <- (nearest_even_Z (2 ^ 53)). apply nearest_even_mono.
      rewrite <- (pow2_Z 53) by lia.
      apply Qle_shift_div_r; [exact Px|]. rewrite <- pow2_add.
      apply Qlt_le_weak. eapply Qlt_le_trans; [exact Ux|].
      apply pow2_le. unfold ex, exponent. lia. }
    assert (My : (2 ^ 52 <= nearest_even (y / pow2 ey))%Z).
    { rewrite <- (nearest_even_Z (2 ^ 52)) at 1. apply nearest_even_mono.
      rewrite <- (pow2_Z 52) by lia.
      apply Qle_shift_div_l; [exact Py|]. rewrite <- pow2_add.
      eapply Qle_trans; [|exact Ly].
      apply pow2_le. unfold ex, ey, exponent in *. lia. }
    apply Qle_trans with (inject_Z (2 ^ 53) * pow2 ex).
    { apply Qmult_le_compat_r; [rewrite <- Zle_Qle; exact Mx|lra]. }
    apply Qle_trans with (inject_Z (2 ^ 52) * pow2 ey).
    { rewrite <- (pow2_Z 53), <- (pow2_Z 52), <- !pow2_add by lia.
      apply pow2_le. lia. }
    apply Qmult_le_compat_r; [rewrite <- Zle_Qle; exact My|lra].
Qed.

Lemma number_sign x :
  (0 <= x -> 0 <= number x) /\ (x <= 0 -> number x <= 0).
Proof.
  unfold number. destruct (Qcompare_spec x 0) as [H|H|H].
  - split; intros _; lra.
  - split; [intros; lra|intros _].
    assert (0 <= nearest (- x)) by (apply nearest_nonneg; lra). lra.
  - split; [intros _; apply nearest_nonneg; exact H|intros; lra].
Qed.

(** Rounding keeps the order. *)
Lemma number_mono x y : x <= y -> number x <= number y.
Proof.
  intros H.
  destruct (Qlt_le_dec 0 x) as [Hx|Hx].
  - unfold number.
    assert (Cx : Qcompare x 0 = Gt) by (apply (proj1 (Qgt_alt x 0)); exact Hx).
    assert (Cy : Qcompare y 0 = Gt) by (apply (proj1 (Qgt_alt y 0)); lra).
    rewrite Cx, Cy. apply nearest_mono; assumption.
  - destruct (Qlt_le_dec y 0) as [Hy|Hy].
    + unfold number.
      assert (Cx : Qcompare x 0 = Lt) by (apply (proj1 (Qlt_alt x 0)); lra).
      assert (Cy : Qcompare y 0 = Lt) by (apply (proj1 (Qlt_alt y 0)); exact Hy).
      rewrite Cx, Cy.
      assert (nearest (- y) <= nearest (- x)) by (apply nearest_mono; lra).
      lra.
    + apply Qle_trans with 0; [apply number_sign; exact Hx|apply number_sign; exact Hy].
Qed.

(** A value with at most 53 significant bits above the least exponent is
    a double: rounding leaves it as it is. *)
Lemma nearest_fixed (m e : Z) :
  (0 < m < 2 ^ 53)%Z -> (-1074 <= e)%Z ->
  nearest (inject_Z m * pow2 e) == inject_Z m * pow2 e.
Proof.
  intros Hm He. set (x := inject_Z m * pow2 e).
  pose proof (pow2_pos e) as Pe.
  assert (Hx : 0 < x).
  { unfold x. apply Qmult_lt_0_compat; [|exact Pe].
    change 0 with (inject_Z 0). rewrite <- Zlt_Qlt. lia. }
  rewrite nearest_eq. set (ex := exponent x). pose proof (pow2_pos ex) as Px.
  assert (Le : (ex <= e)%Z).
  { destruct (ilog2_spec x Hx) as [L _].
    assert (U : x < pow2 (53 + e)).
    { unfold x. rewrite pow2_add, (pow2_Z 53) by lia.
      apply Qmult_lt_compat_r; [exact Pe|]. rewrite <- Zlt_Qlt. lia. }
    pose proof (pow2_lt_inv _ _ (Qle_lt_trans _ _ _ L U)).
    unfold ex, exponent. lia. }
  assert (E : x / pow2 ex == inject_Z (m * 2 ^ (e - ex))).
  { unfold x. rewrite inject_Z_mult, <- (pow2_Z (e - ex)) by lia.
    rewrite pow2_sub. field. lra. }
  rewrite (nearest_even_comp _ _ E), nearest_even_Z.
  rewrite inject_Z_mult, <- (pow2_Z (e - ex)) by lia.
  rewrite pow2_sub. unfold x. field. lra.
Qed.

Lemma number_fixed (m e : Z) :
  (Z.abs m < 2 ^ 53)%Z -> (-1074 <= e)%Z ->
  number (inject_Z m * pow2 e) == inject_Z m * pow2 e.
Proof.
  intros Hm He. pose proof (pow2_pos e) as Pe. unfold number.
  destruct (Qcompare_spec (inject_Z m * pow2 e) 0) as [H|H|H].
  - symmetry. exact H.
  - assert (M : (m < 0)%Z).
    { destruct (Z_lt_le_dec m 0) as [L|L]; [exact L|exfalso].
      assert (0 <= inject_Z m) by (change 0 with (inject_Z 0); rewrite <- Zle_Qle; exact L).
      assert (0 <= inject_Z m * pow2 e) by (apply Qmult_le_0_compat; lra). lra. }
    assert (E : - (inject_Z m * pow2 e) == inject_Z (- m) * pow2 e).
    { rewrite inject_Z_opp. ring. }
    assert (N : 0 < - (inject_Z m * pow2 e)) by lra.
    rewrite (nearest_comp _ _ N E), nearest_fixed by lia.
    rewrite inject_Z_opp. ring.
  - assert (M : (0 < m)%Z).
    { destruct (Z_lt_le_dec 0 m) as [L|L]; [exact L|exfalso].
      assert (inject_Z m <= 0) by (change 0 with (inject_Z 0); rewrite <- Zle_Qle; exact L).
      assert (0 <= (- inject_Z m) * pow2 e) by (apply Qmult_le_0_compat; lra). lra. }
    apply nearest_fixed; lia.
Qed.

(** Whole numbers below [2^53] in magnitude are doubles. *)
Lemma number_Z (z : Z) :
  (Z.abs z < 2 ^ 53)%Z -> number (inject_Z z) == inject_Z z.
Proof.
  intros H. pose proof (number_fixed z 0 H ltac:(lia)) as F.
  assert (E : inject_Z z * pow2 0 == inject_Z z) by (change (pow2 0) with 1; ring).
  rewrite (number_comp _ _ E) in F. rewrite F. exact E.
Qed.

(** The rounding error: at most half a unit in the last place. *)
Lemma nearest_near x B :
  0 < x -> x <= B -> pow2 (-1022) <= B ->
  x - B * pow2 (-53) <= nearest x /\ nearest x <= x + B * pow2 (-53).
Proof.
  intros Hx HB HS. rewrite nearest_eq. set (e := exponent x).
  pose proof (pow2_pos e) as Pe.
  destruct (nearest_even_near (x / pow2 e)) as [L U].
  set (m := inject_Z (nearest_even (x / pow2 e))) in *.
  assert (L' : x - (1 # 2) * pow2 e <= m * pow2 e).
  { assert (E1 : (x / pow2 e - (1 # 2)) * pow2 e == x - (1 # 2) * pow2 e)
      by (field; lra).
    rewrite <- E1. apply Qmult_le_compat_r; lra. }
  assert (U' : m * pow2 e <= x + (1 # 2) * pow2 e).
  { assert (E1 : (x / pow2 e + (1 # 2)) * pow2 e == x + (1 # 2) * pow2 e)
      by (field; lra).
    rewrite <- E1. apply Qmult_le_compat_r; lra. }
  assert (K : (1 # 2) * pow2 e <= B * pow2 (-53)).
  { assert (E2 : pow2 e <= B * pow2 (-52)).
    { unfold e, exponent. destruct (ilog2_spec x Hx) as [Lx _].
      destruct (Z.max_spec (-1074) (ilog2 x - 52)) as [[_ M]|[_ M]]; rewrite M.
      - rewrite pow2_sub.
        assert (P52 : pow2 (-52) == / pow2 52) by reflexivity.
        rewrite P52. unfold Qdiv.
        apply Qmult_le_compat_r; [lra|].
        apply Qlt_le_weak, Qinv_lt_0_compat, pow2_pos.
      - assert (P : pow2 (-1074) == pow2 (-1022) * pow2 (-52)) by reflexivity.
        rewrite P. apply Qmult_le_compat_r; [exact HS|].
        apply Qlt_le_weak, pow2_pos. }
    assert (P53 : pow2 (-53) == (1 # 2) * pow2 (-52)) by reflexivity.
    rewrite P53. lra. }
  split; lra.
Qed.

Lemma number_near x B :
  Qabs x <= B -> pow2 (-1022) <= B ->
  x - B * pow2 (-53) <= number x /\ number x <= x + B * pow2 (-53).
Proof.
  intros HB HS. apply Qabs_Qle_condition in HB. destruct HB as [B1 B2].
  pose proof (pow2_pos (-53)) as P. pose proof (pow2_pos (-1022)) as P'.
  assert (0 <= B * pow2 (-53)) by (apply Qmult_le_0_compat; lra).
  unfold number. destruct (Qcompare_spec x 0) as [H0|H0|H0].
  - lra.
  - destruct (nearest_near (- x) B) as [L U]; lra.
  - destruct (nearest_near x B) as [L U]; lra.
Qed.

(** *** Doubles are fixed points *)

Lemma mantissa_bounds x :
  0 < x ->
  (0 <= nearest_even (x / pow2 (exponent x)) <= 2 ^ 53)%Z.
Proof.
  intros Hx. set (e := exponent x). pose proof (pow2_pos e) as Pe.
  destruct (ilog2_spec x Hx) as [_ Ux]. split.
  - rewrite <- (nearest_even_Z 0). apply nearest_even_mono.
    change (inject_Z 0) with 0. apply Qle_shift_div_l; [exact Pe|lra].
  - rewrite <- (nearest_even_Z (2 ^ 53)). apply nearest_even_mono.
    rewrite <- (pow2_Z 53) by lia.
    apply Qle_shift_div_r; [exact Pe|]. rewrite <- pow2_add.
    apply Qlt_le_weak. eapply Qlt_le_trans; [exact Ux|].
    apply pow2_le. unfold e, exponent. lia.
Qed.

Lemma number_fixed_top (m e : Z) :
  (Z.abs m <= 2 ^ 53)%Z -> (-1074 <= e)%Z ->
  number (inject_Z m * pow2 e) == inject_Z m * pow2 e.
Proof.
  intros Hm He.
  destruct (Z_lt_le_dec (Z.abs m) (2 ^ 53)) as [L|L];
    [apply number_fixed; assumption|].
  assert (M : (Z.abs m = 2 ^ 53)%Z) by lia.
  assert (E : inject_Z m * pow2 e == inject_Z (m / 2) * pow2 (e + 1)).
  { rewrite pow2_add. change (pow2 1) with 2.
    assert (D : (m = 2 * (m / 2))%Z).
    { destruct (Z.abs_spec m) as [[_ A]|[_ A]]; rewrite A in M.
      - rewrite M. reflexivity.
      - assert (m = - 2 ^ 53)%Z by lia. subst m. reflexivity. }
    rewrite D at 1. rewrite inject_Z_mult. change (inject_Z 2) with 2. ring. }
  rewrite (number_comp _ _ E), E. apply number_fixed; [|lia].
  destruct (Z.abs_spec m) as [[_ A]|[_ A]]; rewrite A in M.
  - rewrite M. reflexivity.
  - assert (m = - 2 ^ 53)%Z by lia. subst m. reflexivity.
Qed.

Lemma on_grid_finer e e' x : (e' <= e)%Z -> on_grid e x -> on_grid e' x.
Proof.
  intros H [m E]. exists (m * 2 ^ (e - e'))%Z.
  rewrite E, inject_Z_mult, <- (pow2_Z (e - e')) by lia.
  rewrite pow2_sub. field. pose proof (pow2_pos e'). lra.
Qed.

Lemma on_grid_sub e x y : on_grid e x -> on_grid e y -> on_grid e (x - y).
Proof.
  intros [m E] [m' E']. exists (m - m')%Z.
  rewrite E, E'. unfold Z.sub. rewrite inject_Z_plus, inject_Z_opp. ring.
Qed.

(** A value on a grid that has at most 53 bits is a double. *)
Lemma grid_fixed e x :
  (-1074 <= e)%Z -> on_grid e x -> Qabs x <= pow2 (53 + e) -> number x == x.
Proof.
  intros He [m E] B. pose proof (pow2_pos e) as Pe.
  rewrite (number_comp _ _ E), E. apply number_fixed_top; [|exact He].
  apply Qabs_Qle_condition in B. destruct B as [B1 B2].
  rewrite E, pow2_add, (pow2_Z 53) in B1, B2 by lia.
  assert (U : inject_Z m <= inject_Z (2 ^ 53)).
  { apply Qmult_le_r with (z := pow2 e); [exact Pe|exact B2]. }
  assert (L : inject_Z (- 2 ^ 53) <= inject_Z m).
  { apply Qmult_le_r with (z := pow2 e); [exact Pe|].
    rewrite inject_Z_opp. lra. }
  rewrite <- Zle_Qle in U, L. lia.
Qed.

(** What a rounding returns is on the grid of its exponent, with at most
    53 bits, ... *)
Lemma number_on_grid x (k : Z) :
  Qabs x < pow2 (k + 1) -> (-1074 <= k - 52)%Z ->
  exists e, (-1074 <= e <= k - 52)%Z
            /\ on_grid e (number x)
            /\ Qabs (number x) <= pow2 (53 + e).
Proof.
  intros B Hk.
  assert (G : forall y, 0 < y -> y < pow2 (k + 1) ->
              exists e, (-1074 <= e <= k - 52)%Z
                        /\ on_grid e (nearest y)
                        /\ 0 <= nearest y /\ nearest y <= pow2 (53 + e)).
  { intros y Hy Uy. exists (exponent y).
    destruct (ilog2_spec y Hy) as [Ly _].
    pose proof (pow2_lt_inv _ _ (Qle_lt_trans _ _ _ Ly Uy)) as I.
    pose proof (mantissa_bounds y Hy) as [M0 M1].
    pose proof (pow2_pos (exponent y)) as Pe.
    split; [unfold exponent; lia|].
    split; [eexists; apply nearest_eq|].
    rewrite nearest_eq. split.
    - apply Qmult_le_0_compat; [|lra].
      change 0 with (inject_Z 0). rewrite <- Zle_Qle. exact M0.
    - rewrite pow2_add, (pow2_Z 53) by lia.
      apply Qmult_le_compat_r; [rewrite <- Zle_Qle; exact M1|lra]. }
  unfold number. destruct (Qcompare_spec x 0) as [H|H|H].
  - exists (k - 52)%Z. split; [lia|]. split.
    + exists 0%Z. change (inject_Z 0) with 0. ring.
    + pose proof (pow2_pos (53 + (k - 52))). change (Qabs 0) with 0. lra.
  - rewrite (Qabs_neg x) in B by lra.
    destruct (G (- x) ltac:(lra) B) as (e & He & [m Hm] & N0 & N1).
    exists e. split; [exact He|]. split.
    + exists (- m)%Z. rewrite Hm, inject_Z_opp. ring.
    + rewrite Qabs_opp, Qabs_pos; assumption.
  - rewrite (Qabs_pos x) in B by lra.
    destruct (G x H B) as (e & He & Hg & N0 & N1).
    exists e. split; [exact He|]. split; [exact Hg|].
    rewrite Qabs_pos; assumption.
Qed.

(** ... so rounding it again changes nothing. *)
Lemma number_idem x : number (number x) == number x.
Proof.
  assert (G : forall y, 0 < y -> number (nearest y) == nearest y).
  { intros y Hy. pose proof (mantissa_bounds y Hy) as [M0 M1].
    rewrite (number_comp _ _ (nearest_eq y)), nearest_eq.
    apply number_fixed_top; [lia|unfold exponent; lia]. }
  unfold number at 2 3. destruct (Qcompare_spec x 0) as [H|H|H].
  - reflexivity.
  - assert (N : 0 <= nearest (- x)) by (apply nearest_nonneg; lra).
    pose proof (G (- x) ltac:(lra)) as F.
    destruct (Qlt_le_dec 0 (nearest (- x))) as [P|P].
    + unfold number.
      assert (C : Qcompare (- nearest (- x)) 0 = Lt)
        by (apply (proj1 (Qlt_alt _ _)); lra).
      rewrite C.
      assert (E : - - nearest (- x) == nearest (- x)) by ring.
      assert (P' : 0 < - - nearest (- x)) by lra.
      rewrite (nearest_comp _ _ P' E).
      unfold number in F.
      assert (C' : Qcompare (nearest (- x)) 0 = Gt)
        by (apply (proj1 (Qgt_alt _ _)); exact P).
      rewrite C' in F. rewrite F. reflexivity.
    + assert (Z0 : - nearest (- x) == 0) by lra.
      rewrite (number_comp _ _ Z0). rewrite Z0. reflexivity.
  - apply G. exact H.
Qed.

(** Subtracting, on a grid with room for 53 bits, a smaller value from a
    larger one is exact. *)
Lemma sub_exact e x y :
  (-1074 <= e)%Z -> on_grid e x -> on_grid e y ->
  0 <= y -> y <= x -> x <= pow2 (53 + e) ->
  number (x - y) == x - y.
Proof.
  intros He Gx Gy Hy Hxy Hx.
  apply (grid_fixed e); [exact He|apply on_grid_sub; assumption|].
  rewrite Qabs_pos; lra.
Qed.

End Binary64.

(** From here on a rounding is unfolded only by evaluation. *)
Opaque Double.number.

(** ** Rounding *)

Section Rounding.

Lemma Qfloor_half (n : Z) : Qfloor (inject_Z n + (1 # 2)) = n.
Proof.
  pose proof (Qfloor_le (inject_Z n + (1 # 2))) as Hl.
  pose proof (Qlt_floor (inject_Z n + (1 # 2))) as Hu.
  rewrite inject_Z_plus in Hu. change (inject_Z 1) with 1 in Hu.
  assert (H1 : inject_Z (Qfloor (inject_Z n + (1 # 2))) < inject_Z (n + 1)).
  { rewrite inject_Z_plus. change (inject_Z 1) with 1. lra. }
  assert (H2 : inject_Z (n - 1) < inject_Z (Qfloor (inject_Z n + (1 # 2)))).
  { unfold Z.sub. rewrite inject_Z_plus. change (inject_Z (- (1))) with (-1). lra. }
  rewrite <- Zlt_Qlt in H1, H2. lia.
Qed.

Lemma scale_pos d : 0 < inject_Z (JS.pow10 d).
Proof.
  change 0 with (inject_Z 0). rewrite <- Zlt_Qlt.
  unfold JS.pow10. apply Z.pow_pos_nonneg; lia.
Qed.

(** A number that has [d] decimals is its own rounding. *)
Lemma toFixed_grid d (n : Z) :
  JS.toFixed d (inject_Z n / inject_Z (JS.pow10 d))
  == inject_Z n / inject_Z (JS.pow10 d).
Proof.
  pose proof (scale_pos d) as Hs.
  unfold JS.toFixed, JS.round_half_up.
  destruct (Qle_bool 0 (inject_Z n / inject_Z (JS.pow10 d))).
  - assert (Hx : inject_Z n / inject_Z (JS.pow10 d) * inject_Z (JS.pow10 d)
                 == inject_Z n) by (field; lra).
    rewrite (Qfloor_comp _ _ (Qplus_comp _ _ Hx _ _ (Qeq_refl _))).
    rewrite Qfloor_half. reflexivity.
  - assert (Hx : - (inject_Z n / inject_Z (JS.pow10 d)) * inject_Z (JS.pow10 d)
                 == inject_Z (- n)).
    { rewrite inject_Z_opp. field. lra. }
    rewrite (Qfloor_comp _ _ (Qplus_comp _ _ Hx _ _ (Qeq_refl _))).
    rewrite Qfloor_half, inject_Z_opp. field. lra.
Qed.

Lemma toFixed_comp d x y : x == y -> JS.toFixed d x == JS.toFixed d y.
Proof.
  intros E. unfold JS.toFixed, JS.round_half_up.
  assert (Hb : Qle_bool 0 x = Qle_bool 0 y).
  { apply eq_true_iff_eq. rewrite !Qle_bool_iff, E. tauto. }
  rewrite Hb.
  assert (E1 : x * inject_Z (JS.pow10 d) + (1 # 2)
               == y * inject_Z (JS.pow10 d) + (1 # 2)) by (rewrite E; reflexivity).
  assert (E2 : - x * inject_Z (JS.pow10 d) + (1 # 2)
               == - y * inject_Z (JS.pow10 d) + (1 # 2)) by (rewrite E; reflexivity).
  rewrite (Qfloor_comp _ _ E1), (Qfloor_comp _ _ E2). reflexivity.
Qed.

(** The rounding lands on the grid of [d] decimals... *)
Lemma toFixed_decimals d x :
  exists n : Z, JS.toFixed d x == inject_Z n / inject_Z (JS.pow10 d).
Proof.
  unfold JS.toFixed. destruct (Qle_bool 0 x).
  - eexists; reflexivity.
  - exists (- JS.round_half_up (- x * inject_Z (JS.pow10 d)))%Z.
    pose proof (scale_pos d). rewrite inject_Z_opp. field. lra.
Qed.

(** ... within half a unit of the last decimal. *)
Lemma toFixed_near d x :
  x - 1 / (2 * inject_Z (JS.pow10 d)) <= JS.toFixed d x
  /\ JS.toFixed d x <= x + 1 / (2 * inject_Z (JS.pow10 d)).
Proof.
  pose proof (scale_pos d) as Hs.
  set (k := inject_Z (JS.pow10 d)) in *.
  assert (Hdiv : forall a b : Q, a <= b * k -> a / k <= b).
  { intros a b Hab. apply Qle_shift_div_r; assumption. }
  assert (Hdiv' : forall a b : Q, b * k <= a -> b <= a / k).
  { intros a b Hab. apply Qle_shift_div_l; assumption. }
  assert (Hh : 1 / (2 * k) * k == 1 # 2) by (field; lra).
  unfold JS.toFixed, JS.round_half_up. fold k.
  destruct (Qle_bool 0 x).
  - pose proof (Qfloor_le (x * k + (1 # 2))) as Hl.
    pose proof (Qlt_floor (x * k + (1 # 2))) as Hu.
    rewrite inject_Z_plus in Hu. change (inject_Z 1) with 1 in Hu.
    split; [apply Hdiv' | apply Hdiv]; lra.
  - pose proof (Qfloor_le (- x * k + (1 # 2))) as Hl.
    pose proof (Qlt_floor (- x * k + (1 # 2))) as Hu.
    rewrite inject_Z_plus in Hu. change (inject_Z 1) with 1 in Hu.
    split.
    + assert (G : inject_Z (Qfloor (- x * k + (1 # 2))) / k <= - x + 1 / (2 * k)).
      { apply Hdiv. lra. }
      lra.
    + assert (G : - (x + 1 / (2 * k)) <= inject_Z (Qfloor (- x * k + (1 # 2))) / k).
      { apply Hdiv'. lra. }
      lra.
Qed.

End Rounding.

(** ** LogicCore *)

Section Kernel.
Import INTERVIEW_POLICY LogicCore.

Lemma lt_iff x y : JS.lt x y = true <-> x < y.
Proof.
  unfold JS.lt. rewrite negb_true_iff, <- not_true_iff_false, Qle_bool_iff.
  split; [apply Qnot_le_lt | apply Qlt_not_le].
Qed.

Lemma Qle_bool_false x y : Qle_bool x y = false <-> y < x.
Proof.
  rewrite <- not_true_iff_false, Qle_bool_iff.
  split; [apply Qnot_le_lt | apply Qlt_not_le].
Qed.

Lemma timeLogic_within t :
  t <= 60 -> calculateTimeLogic t = {| penalty := 0; isViolation := false |}.
Proof.
  intros H. unfold calculateTimeLogic, TIMING.PENALTY_START_SEC.
  apply Qle_bool_iff in H. rewrite H. reflexivity.
Qed.

Lemma timeLogic_over t :
  60 < t ->
  isViolation (calculateTimeLogic t) = true
  /\ penalty (calculateTimeLogic t) == Spec.overtime_penalty t
  /\ 1 # 2 <= penalty (calculateTimeLogic t).
Proof.
  intros H. unfold calculateTimeLogic, TIMING.PENALTY_START_SEC.
  apply Qle_bool_false in H as Hb. rewrite Hb. cbn [penalty isViolation].
  unfold Spec.overtime_penalty, JS.ceil, TIMING.PENALTY_START_SEC,
    TIMING.PENALTY_STEP_SEC, TIMING.PENALTY_PER_STEP.
  set (k := Qceiling ((t - 60) / 5)).
  assert (Hk : (1 <= k)%Z).
  { assert (G : inject_Z 0 < inject_Z k).
    { eapply Qlt_le_trans; [|apply Qle_ceiling].
      change (inject_Z 0) with 0. apply Qlt_shift_div_l; lra. }
    rewrite <- Zlt_Qlt in G. lia. }
  assert (E : inject_Z k * 0.5 == inject_Z (5 * k) / inject_Z (JS.pow10 1)).
  { rewrite inject_Z_mult. change (inject_Z (JS.pow10 1)) with 10.
    change (inject_Z 5) with 5. field. }
  assert (P : JS.toFixed 1 (inject_Z k * 0.5) == inject_Z k * 0.5).
  { rewrite (toFixed_comp _ _ _ E), toFixed_grid. symmetry. exact E. }
  split; [reflexivity|]. split; [exact P|].
  rewrite P. rewrite Zle_Qle in Hk. change (inject_Z 1) with 1 in Hk. lra.
Qed.

Lemma penalty_nonneg t : 0 <= penalty (calculateTimeLogic t).
Proof.
  destruct (Qlt_le_dec 60 t) as [H|H].
  - destruct (timeLogic_over t H) as (_ & _ & G). lra.
  - rewrite (timeLogic_within t H). cbn. lra.
Qed.

Lemma gap_penalty_nonneg target gaps :
  0 <= gap_penalty (checkSkillGap target gaps).
Proof.
  unfold checkSkillGap. destruct (find_gap target gaps) as [g|]; [|cbn; lra].
  destruct (gap_type g); cbn; unfold RESUME_JD_LOGIC.PRIMARY_MISSING,
    RESUME_JD_LOGIC.SECONDARY_MISSING; lra.
Qed.

Lemma weights_sum :
  SCORING.ACCURACY_weight + SCORING.DEPTH_weight
  + SCORING.CLARITY_weight + SCORING.RELEVANCE_weight == 1.
Proof. reflexivity. Qed.

(** The rounding keeps the order. *)
Lemma toFixed_mono d x y : x <= y -> JS.toFixed d x <= JS.toFixed d y.
Proof.
  intros H. pose proof (scale_pos d) as Hs.
  set (k := inject_Z (JS.pow10 d)) in *.
  assert (Hi : 0 <= / k) by (apply Qlt_le_weak, Qinv_lt_0_compat; exact Hs).
  assert (M : forall a b : Q,
             a <= b ->
             inject_Z (JS.round_half_up (a * k)) / k
             <= inject_Z (JS.round_half_up (b * k)) / k).
  { intros a b Hab. unfold Qdiv. apply Qmult_le_compat_r; [|exact Hi].
    rewrite <- Zle_Qle. apply Qfloor_resp_le.
    assert (a * k <= b * k) by (apply Qmult_le_compat_r; lra). lra. }
  assert (P : forall a : Q, 0 <= a -> 0 <= inject_Z (JS.round_half_up (a * k)) / k).
  { intros a Ha. unfold Qdiv. apply Qmult_le_0_compat; [|exact Hi].
    change 0 with (inject_Z 0). rewrite <- Zle_Qle.
    change 0%Z with (Qfloor (inject_Z 0)). apply Qfloor_resp_le.
    change (inject_Z 0) with 0.
    assert (0 <= a * k) by (apply Qmult_le_0_compat; lra). lra. }
  unfold JS.toFixed. fold k.
  destruct (Qle_bool 0 x) eqn:Ex; destruct (Qle_bool 0 y) eqn:Ey.
  - apply M. exact H.
  - apply Qle_bool_iff in Ex. apply Qle_bool_false in Ey. lra.
  - apply Qle_bool_false in Ex. apply Qle_bool_iff in Ey.
    pose proof (P (- x) ltac:(lra)). pose proof (P y Ey). lra.
  - pose proof (M (- y) (- x) ltac:(lra)). lra.
Qed.

(** Below 16 in magnitude a rounding to a double is off by at most
    [2^-49]. *)
Lemma number_near16 x :
  -16 <= x -> x <= 16 ->
  x - (1 # 562949953421312) <= Double.number x
  /\ Double.number x <= x + (1 # 562949953421312).
Proof.
  intros L U.
  assert (A : Qabs x <= 16) by (apply Qabs_Qle_condition; split; lra).
  assert (S : Double.pow2 (-1022) <= 16)
    by (apply Qle_bool_iff; vm_compute; reflexivity).
  assert (E : 16 * Double.pow2 (-53) == 1 # 562949953421312) by reflexivity.
  pose proof (number_near x 16 A S) as N. rewrite E in N. exact N.
Qed.

Ltac rounded x v :=
  let L := fresh "L" in
  let U := fresh "U" in
  destruct (number_near16 x) as [L U]; [lra|lra|];
  set (v := Double.number x) in *.

(** The weighted sum, as the doubles compute it, is within [10^-13] of the
    exact one when the criteria are between 0 and 10. *)
Lemma calculateScore_sum c :
  Spec.on_scale c ->
  exists score,
    calculateScore c = Double.number (JS.toFixed 2 score)
    /\ Spec.weighted_sum c - (1 # 10000000000000) <= score
    /\ score <= Spec.weighted_sum c + (1 # 10000000000000).
Proof.
  intros ((A1 & A2) & (C1 & C2) & (D1 & D2) & (R1 & R2)).
  eexists. split; [reflexivity|].
  unfold Spec.weighted_sum, Double.add, Double.mul.
  assert (Wa : Double.number SCORING.ACCURACY_weight
               = 3602879701896397 # 9007199254740992)
    by (vm_compute; reflexivity).
  assert (Wd : Double.number SCORING.DEPTH_weight
               = 5404319552844595 # 18014398509481984)
    by (vm_compute; reflexivity).
  assert (Wc : Double.number SCORING.CLARITY_weight
               = 5404319552844595 # 36028797018963968)
    by (vm_compute; reflexivity).
  assert (Wr : Double.number SCORING.RELEVANCE_weight
               = 5404319552844595 # 36028797018963968)
    by (vm_compute; reflexivity).
  rewrite Wa, Wd, Wc, Wr. clear Wa Wd Wc Wr.
  destruct c as [a cl d r]. cbn [accuracy clarity depth relevance] in *.
  rounded a a'. rounded d d'. rounded cl cl'. rounded r r'.
  rounded (a' * (3602879701896397 # 9007199254740992)) p1.
  rounded (d' * (5404319552844595 # 18014398509481984)) p2.
  rounded (cl' * (5404319552844595 # 36028797018963968)) p3.
  rounded (r' * (5404319552844595 # 36028797018963968)) p4.
  rounded p1 q1. rounded p2 q2. rounded (q1 + q2) s1.
  rounded s1 t1. rounded p3 q3. rounded (t1 + q3) s2.
  rounded s2 t2. rounded p4 q4. rounded (t2 + q4) s3.
  split; lra.
Qed.

(** The base score prints with two decimals. *)
Lemma calculateScore_decimals c :
  exists n : Z, calculateScore c == Double.number (inject_Z n / 100).
Proof.
  unfold calculateScore.
  match goal with |- context [JS.toFixed 2 ?x] =>
    destruct (toFixed_decimals 2 x) as [n Hn] end.
  exists n. rewrite Hn. reflexivity.
Qed.

(** It is within 0.005 of the exact weighted sum, up to the error of the
    doubles. *)
Lemma calculateScore_near c :
  Spec.on_scale c ->
  Spec.weighted_sum c - (1 # 200) - (1 # 1000000000000) <= calculateScore c
  /\ calculateScore c <= Spec.weighted_sum c + (1 # 200) + (1 # 1000000000000).
Proof.
  intros H. pose proof H as ((A1 & A2) & (C1 & C2) & (D1 & D2) & (R1 & R2)).
  destruct (calculateScore_sum c H) as (score & E & L & U). rewrite E.
  assert (W : 0 <= Spec.weighted_sum c /\ Spec.weighted_sum c <= 10)
    by (unfold Spec.weighted_sum; split; lra).
  destruct (toFixed_near 2 score) as [L2 U2].
  assert (K : 1 / (2 * inject_Z (JS.pow10 2)) == 1 # 200) by reflexivity.
  rewrite K in L2, U2.
  destruct (number_near16 (JS.toFixed 2 score)) as [L3 U3]; [lra|lra|].
  split; lra.
Qed.

(** Unless the exact weighted sum is within [10^-13] of the middle of two
    neighbouring two-decimal numbers, the base score is the double that
    the rounded exact sum denotes. *)
Lemma calculateScore_exact c :
  Spec.on_scale c ->
  JS.toFixed 2 (Spec.weighted_sum c - (1 # 10000000000000))
  == JS.toFixed 2 (Spec.weighted_sum c + (1 # 10000000000000)) ->
  calculateScore c = Double.number (JS.toFixed 2 (Spec.weighted_sum c)).
Proof.
  intros H M. destruct (calculateScore_sum c H) as (score & E & L & U).
  rewrite E. apply number_comp.
  pose proof (toFixed_mono 2 _ _ L) as M1.
  pose proof (toFixed_mono 2 _ _ U) as M2.
  assert (L' : Spec.weighted_sum c - (1 # 10000000000000) <= Spec.weighted_sum c) by lra.
  assert (U' : Spec.weighted_sum c <= Spec.weighted_sum c + (1 # 10000000000000)) by lra.
  pose proof (toFixed_mono 2 _ _ L') as M3.
  pose proof (toFixed_mono 2 _ _ U') as M4.
  lra.
Qed.

(** Bounds of the exact weighted sum carry over to the base score. *)
Lemma calculateScore_between c (lo hi : Q) :
  Spec.on_scale c ->
  lo <= Spec.weighted_sum c -> Spec.weighted_sum c <= hi ->
  Double.number (JS.toFixed 2 (lo - (1 # 10000000000000))) <= calculateScore c
  /\ calculateScore c
     <= Double.number (JS.toFixed 2 (hi + (1 # 10000000000000))).
Proof.
  intros H Hlo Hhi. destruct (calculateScore_sum c H) as (score & E & L & U).
  rewrite E. split; apply number_mono, toFixed_mono; lra.
Qed.

Lemma calculateScore_zero :
  calculateScore {| accuracy := 0; clarity := 0; depth := 0; relevance := 0 |}
  = 0.
Proof. vm_compute. reflexivity. Qed.

Lemma calculateScore_ten :
  calculateScore {| accuracy := 10; clarity := 10; depth := 10;
                    relevance := 10 |}
  = 10.
Proof. vm_compute. reflexivity. Qed.

(** The base score of criteria between 0 and 10 is between 0 and 10. *)
Lemma calculateScore_on_scale c :
  Spec.on_scale c -> 0 <= calculateScore c /\ calculateScore c <= 10.
Proof.
  intros H. pose proof H as ((A1 & A2) & (C1 & C2) & (D1 & D2) & (R1 & R2)).
  assert (W : 0 <= Spec.weighted_sum c /\ Spec.weighted_sum c <= 10)
    by (unfold Spec.weighted_sum; split; lra).
  destruct W as [W1 W2].
  destruct (calculateScore_between c 0 10 H W1 W2) as [L U].
  assert (E0 : Double.number (JS.toFixed 2 (0 - (1 # 10000000000000))) = 0)
    by (vm_compute; reflexivity).
  assert (E1 : Double.number (JS.toFixed 2 (10 + (1 # 10000000000000))) = 10)
    by (vm_compute; reflexivity).
  rewrite E0 in L. rewrite E1 in U. split; assumption.
Qed.

(** It is a double, on a grid finer than the penalties are. *)
Lemma calculateScore_grid c :
  Spec.on_scale c ->
  exists e, (-1074 <= e <= -1)%Z
            /\ Double.on_grid e (calculateScore c)
            /\ calculateScore c <= Double.pow2 (53 + e).
Proof.
  intros H. pose proof (calculateScore_on_scale c H) as [B0 B1].
  destruct (calculateScore_sum c H) as (score & E & L & U).
  pose proof H as ((A1 & A2) & (C1 & C2) & (D1 & D2) & (R1 & R2)).
  assert (W : 0 <= Spec.weighted_sum c /\ Spec.weighted_sum c <= 10)
    by (unfold Spec.weighted_sum; split; lra).
  destruct (toFixed_near 2 score) as [L2 U2].
  assert (K : 1 / (2 * inject_Z (JS.pow10 2)) == 1 # 200) by reflexivity.
  rewrite K in L2, U2.
  destruct (number_on_grid (JS.toFixed 2 score) 3) as (e & He & G & B).
  - assert (P : Double.pow2 (3 + 1) == 16) by reflexivity. rewrite P.
    apply Qabs_case; intros; lra.
  - lia.
  - rewrite E. exists e. split; [lia|]. split; [exact G|].
    apply Qabs_Qle_condition in B. apply B.
Qed.

Lemma half_steps_on_grid e p :
  (e <= -1)%Z -> Spec.half_steps p -> Double.on_grid e p.
Proof.
  intros He (j & _ & E). apply (on_grid_finer (-1)); [exact He|].
  exists j. rewrite E. reflexivity.
Qed.

Lemma half_steps_nonneg p : Spec.half_steps p -> 0 <= p.
Proof.
  intros (j & Hj & E). rewrite E.
  assert (0 <= inject_Z j)
    by (change 0 with (inject_Z 0); rewrite <- Zle_Qle; exact Hj).
  lra.
Qed.

(** Taking a penalty off a double: exact while the result is not negative,
    and not positive otherwise. *)
Lemma sub_half_steps e x p :
  (-1074 <= e <= -1)%Z -> Double.on_grid e x ->
  0 <= x -> x <= Double.pow2 (53 + e) -> Spec.half_steps p ->
  (p <= x -> Double.sub x p == x - p)
  /\ (x <= p -> Double.sub x p <= 0).
Proof.
  intros He Gx X0 X1 Hp. pose proof (half_steps_nonneg p Hp) as P0.
  assert (Fx : Double.number x == x).
  { apply (grid_fixed e); [lia|exact Gx|]. rewrite Qabs_pos; assumption. }
  unfold Double.sub. split; intros H.
  - assert (Fp : Double.number p == p).
    { apply (grid_fixed e); [lia|apply half_steps_on_grid; [lia|exact Hp]|].
      rewrite Qabs_pos; lra. }
    assert (E : Double.number x - Double.number p == x - p)
      by (rewrite Fx, Fp; reflexivity).
    rewrite (number_comp _ _ E).
    apply (sub_exact e); try assumption; [lia|].
    apply half_steps_on_grid; [lia|exact Hp].
  - apply number_sign.
    pose proof (number_mono x p H) as M. lra.
Qed.

Lemma penalty_half_steps t : Spec.half_steps (penalty (calculateTimeLogic t)).
Proof.
  destruct (Qlt_le_dec 60 t) as [H|H].
  - destruct (timeLogic_over t H) as (_ & E & G).
    unfold Spec.overtime_penalty, TIMING.PENALTY_PER_STEP in E.
    exists (Qceiling ((t - TIMING.PENALTY_START_SEC) / TIMING.PENALTY_STEP_SEC)).
    split; [|rewrite E; ring].
    rewrite E in G.
    set (k := Qceiling _) in *.
    destruct (Z_lt_le_dec k 0) as [N|N]; [exfalso|exact N].
    assert (inject_Z k < inject_Z 0) by (rewrite <- Zlt_Qlt; exact N).
    change (inject_Z 0) with 0 in *. lra.
  - rewrite (timeLogic_within t H). exists 0%Z. split; [lia|reflexivity].
Qed.

Lemma gap_half_steps target gaps :
  Spec.half_steps (gap_penalty (checkSkillGap target gaps)).
Proof.
  unfold checkSkillGap. destruct (find_gap target gaps) as [g|].
  - destruct (gap_type g); cbn [gap_penalty].
    + exists 3%Z. split; [lia|reflexivity].
    + exists 1%Z. split; [lia|reflexivity].
  - exists 0%Z. split; [lia|reflexivity].
Qed.

(** Step F never gives a negative score, and none above the base score. *)
Lemma finalScoreOf_spec b tp gp :
  0 <= InterviewEngine.finalScoreOf b tp gp
  /\ (0 <= tp -> 0 <= gp ->
      InterviewEngine.finalScoreOf b tp gp <= Qmax 0 (Double.number b)).
Proof.
  unfold InterviewEngine.finalScoreOf.
  split; [apply Q.le_max_l|]. intros Ht Hg.
  apply Q.max_le_compat_l. unfold Double.sub.
  pose proof (proj1 (number_sign tp) Ht) as T.
  pose proof (proj1 (number_sign gp) Hg) as G.
  set (A := Double.number b) in *.
  assert (I : Double.number A == A) by apply number_idem.
  assert (M1 : A - Double.number tp <= A) by lra.
  pose proof (number_mono _ _ M1) as D.
  assert (M2 : Double.number (A - Double.number tp) <= A) by lra.
  pose proof (number_mono _ _ M2) as D'.
  assert (M3 : Double.number (Double.number (A - Double.number tp))
               - Double.number gp <= A) by lra.
  pose proof (number_mono _ _ M3) as D''. lra.
Qed.

Lemma finalScoreOf_zero tp gp :
  0 <= tp -> 0 <= gp -> InterviewEngine.finalScoreOf 0 tp gp == 0.
Proof.
  intros Ht Hg. destruct (finalScoreOf_spec 0 tp gp) as [L U].
  specialize (U Ht Hg).
  assert (N : Double.number 0 == 0) by (apply (number_Z 0); reflexivity).
  rewrite N in U. rewrite Q.max_l in U by apply Qle_refl.
  apply Qle_antisym; assumption.
Qed.

(** For a base score of criteria between 0 and 10, and penalties that are
    multiples of 0.5, the doubles subtract without error where it counts:
    the final score is max(0, base - timePenalty - gapPenalty). *)
Lemma finalScoreOf_exact c tp gp :
  Spec.on_scale c -> Spec.half_steps tp -> Spec.half_steps gp ->
  InterviewEngine.finalScoreOf (calculateScore c) tp gp
  == Qmax 0 (calculateScore c - tp - gp).
Proof.
  intros H Ht Hg. unfold InterviewEngine.finalScoreOf.
  pose proof (calculateScore_on_scale c H) as [B0 B1].
  destruct (calculateScore_grid c H) as (e & He & G & B).
  pose proof (half_steps_nonneg tp Ht) as T0.
  pose proof (half_steps_nonneg gp Hg) as G0.
  set (b := calculateScore c) in *.
  destruct (sub_half_steps e b tp He G B0 B Ht) as [S1 S2].
  destruct (Qlt_le_dec b tp) as [C|C].
  - assert (N : Double.sub b tp <= 0) by (apply S2; lra).
    assert (N' : Double.sub (Double.sub b tp) gp <= 0).
    { unfold Double.sub at 1. apply number_sign.
      pose proof (proj2 (number_sign _) N).
      pose proof (proj1 (number_sign _) G0). lra. }
    rewrite (Q.max_l _ _ N'), Q.max_l by lra. reflexivity.
  - pose proof (S1 C) as E1.
    assert (G1 : Double.on_grid e (Double.sub b tp)).
    { destruct (on_grid_sub e b tp G (half_steps_on_grid e tp ltac:(lia) Ht))
        as [m Hm].
      exists m. rewrite E1. exact Hm. }
    destruct (sub_half_steps e (Double.sub b tp) gp He G1) as [S3 S4];
      [lra|lra|exact Hg|].
    destruct (Qlt_le_dec (Double.sub b tp) gp) as [C'|C'].
    + assert (N' : Double.sub (Double.sub b tp) gp <= 0) by (apply S4; lra).
      rewrite (Q.max_l _ _ N'), Q.max_l by lra. reflexivity.
    + rewrite (S3 C'), E1. reflexivity.
Qed.

End Kernel.

(** ** The doubles at work *)

Section DoublesAtWork.
Import INTERVIEW_POLICY InterviewEngine.

(** 0.5 * 0.15 falls just below 0.075 on doubles, and is rounded down. *)
Example calculateScore_below_tie :
  LogicCore.calculateScore
    {| accuracy := 0; clarity := 0.5; depth := 0; relevance := 0 |}
  = Double.number 0.07.
Proof. vm_compute. reflexivity. Qed.

(** Half of the double 0.15 prints as 0.07, and the double 1.005 as
    1.00. *)
Example calculateFinalAverage_below_tie :
  calculateFinalAverage (set_scoreHistory [0.15; 0] getInitialState) == 0.07
  /\ calculateFinalAverage (set_scoreHistory [1.005] getInitialState) == 1.
Proof. split; vm_compute; reflexivity. Qed.

(** Beyond 2^53 a penalty of 0.5 is lost in the subtraction. *)
Example finalScoreOf_absorbs :
  finalScoreOf 40000000000000000 0.5 0 == 40000000000000000.
Proof. vm_compute. reflexivity. Qed.

End DoublesAtWork.

(** ** What a turn does to the state *)

Section Turn.
Import INTERVIEW_POLICY InterviewEngine.

Ltac simp_state :=
  cbn [status currentDifficulty evaluationMode activeQuestion turns
       scoreHistory consecutiveWeakAnswers timeViolations detectedSkillGaps
       difficultyCeiling terminationReason logs config
       log set_status set_currentDifficulty set_evaluationMode
       set_activeQuestion set_turns set_scoreHistory
       set_consecutiveWeakAnswers set_timeViolations set_detectedSkillGaps
       set_difficultyCeiling set_terminationReason set_logs fst snd].

Lemma applyPolicy_fields q a t raw s :
  let fs := turnScore q t raw s in
  let r := applyPolicy q a t raw s in
  status r = status s
  /\ evaluationMode r = evaluationMode s
  /\ activeQuestion r = None
  /\ detectedSkillGaps r = detectedSkillGaps s
  /\ difficultyCeiling r = difficultyCeiling s
  /\ terminationReason r = terminationReason s
  /\ scoreHistory r = (scoreHistory s ++ [fs])%list
  /\ currentDifficulty r
     = LogicCore.nextDifficulty (currentDifficulty s) fs (difficultyCeiling s)
  /\ timeViolations r
     = (if LogicCore.isViolation (LogicCore.calculateTimeLogic t)
        then S (timeViolations s) else timeViolations s)
  /\ consecutiveWeakAnswers r = Spec.strikes_after fs (consecutiveWeakAnswers s)
  /\ turns r
     = (turns s ++
        [makeTurn q a t raw
           (LogicCore.calculateScore (raw_criteria raw))
           (LogicCore.penalty (LogicCore.calculateTimeLogic t))
           (LogicCore.gap_penalty
              (LogicCore.checkSkillGap (targetSkill q) (detectedSkillGaps s)))
           fs (currentDifficulty s)
           (LogicCore.nextDifficulty (currentDifficulty s) fs
                                     (difficultyCeiling s))])%list.
Proof.
  intros fs r. subst fs r.
  unfold applyPolicy, turnScore, strikeSystem, Spec.strikes_after.
  destruct s as [st cd em aq tu sh cwa tv gaps ceil tr lg cfg].
  cbn [status currentDifficulty evaluationMode activeQuestion turns
       scoreHistory consecutiveWeakAnswers timeViolations detectedSkillGaps
       difficultyCeiling terminationReason logs config].
  set (base := LogicCore.calculateScore (raw_criteria raw)).
  set (tl := LogicCore.calculateTimeLogic t).
  destruct (LogicCore.isViolation tl); simp_state.
  all: set (gc := LogicCore.checkSkillGap (targetSkill q) gaps).
  all: set (fs := finalScoreOf base (LogicCore.penalty tl) (LogicCore.gap_penalty gc)).
  all: destruct (JS.lt 0 (LogicCore.gap_penalty gc)); simp_state.
  all: set (nd := LogicCore.nextDifficulty cd fs ceil).
  all: destruct (bool_decide (nd = cd)); simp_state.
  all: try (destruct ceil as [cap|]; simp_state;
            [destruct (bool_decide (nd = cap) && bool_decide (cd = cap)); simp_state|]).
  all: destruct (Qle_bool fs SCORING.CRITICAL_FAIL_SCORE); simp_state;
    [|destruct (Qle_bool fs SCORING.WEAK_SCORE); simp_state;
      [|destruct (0 <? cwa)%nat eqn:Z; simp_state]].
  all: repeat split; try reflexivity.
  all: apply Nat.ltb_ge in Z; lia.
Qed.

Lemma ledger_log m s : ledger (log m s) = ledger s.
Proof. reflexivity. Qed.

Lemma ledger_freeze t s : ledger (freeze t s) = ledger s.
Proof. reflexivity. Qed.

Lemma turnScore_ledger q t raw s s1 :
  ledger s1 = ledger s -> turnScore q t raw s1 = turnScore q t raw s.
Proof.
  intros H. assert (detectedSkillGaps s1 = detectedSkillGaps s)
    by (unfold ledger in H; congruence).
  unfold turnScore. congruence.
Qed.

Lemma conclude_fields s :
  let r := conclude s in
  status r
  = Spec.verdict (timeViolations s) (consecutiveWeakAnswers s)
                 (List.length (turns s))
  /\ terminationReason r
     = (if (2 <? timeViolations s)%nat
        then Some (time_reason (timeViolations s))
        else if (3 <=? consecutiveWeakAnswers s)%nat
             then Some (strike_reason (consecutiveWeakAnswers s))
             else terminationReason s)
  /\ currentDifficulty r = currentDifficulty s
  /\ evaluationMode r = evaluationMode s
  /\ activeQuestion r = activeQuestion s
  /\ turns r = turns s
  /\ scoreHistory r = scoreHistory s
  /\ consecutiveWeakAnswers r = consecutiveWeakAnswers s
  /\ timeViolations r = timeViolations s
  /\ detectedSkillGaps r = detectedSkillGaps s
  /\ difficultyCeiling r = difficultyCeiling s.
Proof.
  unfold conclude, checkTermination, Spec.verdict, terminate,
    TIMING.MAX_VIOLATIONS_ALLOWED, TERMINATION.STRIKE_LIMIT,
    TERMINATION.MAX_QUESTIONS.
  destruct (2 <? timeViolations s)%nat; [cbn; tauto|].
  destruct (3 <=? consecutiveWeakAnswers s)%nat; [cbn; tauto|].
  destruct (5 <=? List.length (turns s))%nat; cbn; tauto.
Qed.

End Turn.

(** ** submitAnswer *)

Section Submit.
Import INTERVIEW_POLICY InterviewEngine.

(** The state [submit_resume] applies the policy to: the one it finds,
    after the switch to fallback mode if the evaluator asks for it. *)
Lemma submit_resume_final p result s :
  exists s1,
    ledger s1 = ledger s
    /\ activeQuestion s1 = activeQuestion s
    /\ status s1 = status s
    /\ final (submit_resume p result s)
       = conclude (applyPolicy (pend_question p) (pend_answer p) (pend_time p)
                               result s1)
    /\ notified (submit_resume p result s) = [final (submit_resume p result s)].
Proof.
  unfold submit_resume.
  set (c := bool_decide (raw_isFallback result = Some true) &&
            negb (bool_decide (evaluationMode s = FALLBACK_RULE_BASED))).
  exists (if c then log LogFallbackMode (set_evaluationMode FALLBACK_RULE_BASED s)
          else s).
  cbn [final notified notify_last].
  split; [destruct c; reflexivity|].
  split; [destruct c; reflexivity|].
  split; [destruct c; reflexivity|].
  split; reflexivity.
Qed.

Lemma SubmitDone_inj o c o' c' :
  SubmitDone o c = SubmitDone o' c' -> o = o' /\ c = c'.
Proof. intros H. injection H as -> ->. split; reflexivity. Qed.

Lemma final_mk a b : final {| final := a; notified := b |} = a.
Proof. reflexivity. Qed.

Lemma notified_mk a b : notified {| final := a; notified := b |} = b.
Proof. reflexivity. Qed.

(** A completed [submitAnswer]: the guards held, the evaluation came from
    the filters or from the evaluator, and the end state is the policy
    applied to the frozen state. *)
Lemma submitAnswer_done ev ans t s o calls :
  submitAnswer ev ans t s = SubmitDone o calls ->
  exists q s1,
    activeQuestion s = Some q
    /\ status s = INTERVIEWING
    /\ ledger s1 = ledger s
    /\ final o = conclude (applyPolicy q ans t (evaluationOf ev q ans t) s1)
    /\ calls = evaluatorCallsOf q ans t
    /\ notified o = [freeze t s; final o].
Proof.
  unfold submitAnswer, submit_begin, evaluationOf, evaluatorCallsOf.
  cbv zeta.
  destruct (activeQuestion s) as [q|] eqn:Eq; [|discriminate].
  destruct (bool_decide (status s = INTERVIEWING)) eqn:Est; [|discriminate].
  apply bool_decide_eq_true in Est. cbn [negb].
  destruct (preFilter ans t) as [[line raw]|].
  - intros H. apply SubmitDone_inj in H as [Ho Hc]. subst o calls.
    exists q, (log line (freeze t s)). rewrite final_mk, notified_mk.
    split; [reflexivity|]. split; [assumption|].
    split; [rewrite ledger_log; apply ledger_freeze|]. split; [reflexivity|]. split; reflexivity.
  - intros H. apply SubmitDone_inj in H as [Ho Hc]. subst o calls.
    rewrite final_mk, notified_mk.
    cbn [pend_question pend_answer pend_time].
    destruct (submit_resume_final
                {| pend_question := q; pend_answer := ans; pend_time := t |}
                (ev q ans) (freeze t s)) as (s1 & L & _ & _ & F & N).
    exists q, s1. split; [reflexivity|]. split; [assumption|].
    split; [exact L|]. split; [exact F|]. split; [reflexivity|].
    rewrite N. reflexivity.
Qed.

(** The fields of the state after a completed turn. *)
Lemma turn_effect q ans t raw s s1 :
  ledger s1 = ledger s ->
  let fs := turnScore q t raw s in
  let r := conclude (applyPolicy q ans t raw s1) in
  scoreHistory r = (scoreHistory s ++ [fs])%list
  /\ List.length (turns r) = S (List.length (turns s))
  /\ consecutiveWeakAnswers r
     = Spec.strikes_after fs (consecutiveWeakAnswers s)
  /\ timeViolations r
     = (if LogicCore.isViolation (LogicCore.calculateTimeLogic t)
        then S (timeViolations s) else timeViolations s)
  /\ currentDifficulty r
     = LogicCore.nextDifficulty (currentDifficulty s) fs (difficultyCeiling s)
  /\ difficultyCeiling r = difficultyCeiling s
  /\ activeQuestion r = None
  /\ status r
     = Spec.verdict (timeViolations r) (consecutiveWeakAnswers r)
                    (List.length (turns r))
  /\ terminationReason r
     = (if (2 <? timeViolations r)%nat
        then Some (time_reason (timeViolations r))
        else if (3 <=? consecutiveWeakAnswers r)%nat
             then Some (strike_reason (consecutiveWeakAnswers r))
             else terminationReason s)
  /\ turns r
     = (turns s ++
        [makeTurn q ans t raw
           (LogicCore.calculateScore (raw_criteria raw))
           (LogicCore.penalty (LogicCore.calculateTimeLogic t))
           (LogicCore.gap_penalty
              (LogicCore.checkSkillGap (targetSkill q) (detectedSkillGaps s)))
           fs (currentDifficulty s)
           (LogicCore.nextDifficulty (currentDifficulty s) fs
                                     (difficultyCeiling s))])%list.
Proof.
  intros L fs r.
  pose proof (applyPolicy_fields q ans t raw s1) as A. cbn zeta in A.
  pose proof (conclude_fields (applyPolicy q ans t raw s1)) as C. cbn zeta in C.
  rewrite (turnScore_ledger _ _ _ _ _ L) in A. fold fs in A. fold r in C.
  unfold ledger in L. injection L as L1 L2 L3 L4 L5 L6 L7 L8.
  destruct A as (A1 & A2 & A3 & A4 & A5 & A6 & A7 & A8 & A9 & A10 & A11).
  destruct C as (C1 & C2 & C3 & C4 & C5 & C6 & C7 & C8 & C9 & C10 & C11).
  rewrite C7, C6, C8, C9, C3, C11, C5, C1, C2.
  rewrite A7, A11, A10, A9, A8, A5, A3, A6.
  rewrite L1, L2, L3, L4, L5, L6, L7, L8.
  rewrite !length_app. cbn [List.length].
  repeat split; try reflexivity. lia.
Qed.

Lemma submitAnswer_filtered ev ans t s q line raw :
  activeQuestion s = Some q ->
  status s = INTERVIEWING ->
  preFilter ans t = Some (line, raw) ->
  submitAnswer ev ans t s
  = SubmitDone
      {| final := conclude (applyPolicy q ans t raw (log line (freeze t s)));
         notified :=
           [freeze t s;
            conclude (applyPolicy q ans t raw (log line (freeze t s)))] |}
      [].
Proof.
  intros Hq Hst Hpre. unfold submitAnswer, submit_begin. cbv zeta.
  rewrite Hq, Hpre.
  rewrite (bool_decide_eq_true_2 _ Hst). reflexivity.
Qed.

End Submit.

(** ** Strings *)

Section Strings.

Lemma trimEnd_whitespace s : Spec.whitespace_only s = true -> JS.trimEnd s = "".
Proof.
  induction s as [|c r IH]; [reflexivity|]. cbn.
  intros H. apply andb_true_iff in H as [Hc Hr].
  rewrite (IH Hr), Hc. reflexivity.
Qed.

Lemma trimEnd_empty s : JS.trimEnd s = "" -> Spec.whitespace_only s = true.
Proof.
  induction s as [|c r IH]; [reflexivity|]. cbn.
  destruct (JS.trimEnd r) eqn:E; [|discriminate].
  destruct (JS.is_space c); [|discriminate]. intros _. cbn. auto.
Qed.

Lemma trimStart_whitespace s :
  Spec.whitespace_only (JS.trimStart s) = Spec.whitespace_only s.
Proof.
  induction s as [|c r IH]; [reflexivity|]. cbn.
  destruct (JS.is_space c) eqn:E; cbn; [exact IH|]. rewrite E. reflexivity.
Qed.

Lemma length_zero s : (String.length s =? 0)%nat = true <-> s = "".
Proof.
  destruct s; cbn; split; intros H; try reflexivity; discriminate.
Qed.

(** The test of [submitAnswer] for a missing answer holds exactly of the
    strings made of white space only, the empty one included. *)
Lemma is_empty_answer_iff s :
  InterviewEngine.is_empty_answer s = true <-> Spec.whitespace_only s = true.
Proof.
  unfold InterviewEngine.is_empty_answer, JS.trim.
  rewrite orb_true_iff, length_zero, String.eqb_eq. split.
  - intros [->|H]; [reflexivity|].
    rewrite <- trimStart_whitespace. apply trimEnd_empty, H.
  - intros H. right. apply trimEnd_whitespace.
    rewrite trimStart_whitespace. exact H.
Qed.

End Strings.

(** ** The scoring pipeline of a turn *)

Section Pipeline.
Import INTERVIEW_POLICY InterviewEngine.



(** C7, as the code has it.  The weights sum to 1, as decimals and as the doubles
    are added.  The base score is the weighted sum of the four criteria,
    computed on doubles and rounded to two decimals: for criteria between
    0 and 10 it is the double of a number with two decimals, it is within
    0.005 of the exact weighted sum up to the error of the doubles (less
    than 10^-12), and it is the double of the exact sum rounded to two
    decimals unless that sum lies within 10^-13 of the middle between two
    neighbouring two-decimal numbers; it is exactly 10 for criteria
    (10,10,10,10).  The final score recorded for a turn is max(0, base -
    timePenalty - gapPenalty) as the doubles subtract: never negative, and
    for criteria between 0 and 10 the subtractions are exact, so that the
    final score equals the difference whenever that is not negative, with
    no upper clamp. *)
Theorem score_arithmetic :
  (SCORING.ACCURACY_weight + SCORING.DEPTH_weight
   + SCORING.CLARITY_weight + SCORING.RELEVANCE_weight == 1
   /\ Double.add
        (Double.add
           (Double.add SCORING.ACCURACY_weight SCORING.DEPTH_weight)
           SCORING.CLARITY_weight)
        SCORING.RELEVANCE_weight = 1)
  /\ (forall c,
         Spec.on_scale c ->
         (exists n : Z,
             LogicCore.calculateScore c == Double.number (inject_Z n / 100))
         /\ Spec.weighted_sum c - (1 # 200) - (1 # 1000000000000)
            <= LogicCore.calculateScore c
         /\ LogicCore.calculateScore c
            <= Spec.weighted_sum c + (1 # 200) + (1 # 1000000000000)
         /\ (JS.toFixed 2 (Spec.weighted_sum c - (1 # 10000000000000))
             == JS.toFixed 2 (Spec.weighted_sum c + (1 # 10000000000000)) ->
             LogicCore.calculateScore c
             = Double.number (JS.toFixed 2 (Spec.weighted_sum c))))
  /\ LogicCore.calculateScore
       {| accuracy := 10; clarity := 10; depth := 10; relevance := 10 |} == 10
  /\ (forall ev ans t s o calls,
         submitAnswer ev ans t s = SubmitDone o calls ->
         exists turn gapPenalty,
           turns (final o) = (turns s ++ [turn])%list
           /\ scoreHistory (final o)
              = (scoreHistory s ++ [finalScore (evaluation turn)])%list
           /\ totalScore (evaluation turn)
              = LogicCore.calculateScore (criteria (evaluation turn))
           /\ skillGapPenalty (evaluation turn) = Some gapPenalty
           /\ finalScore (evaluation turn)
              = Qmax 0 (Double.sub
                          (Double.sub (totalScore (evaluation turn))
                                      (timePenalty (evaluation turn)))
                          gapPenalty)
           /\ 0 <= finalScore (evaluation turn)
           /\ (Spec.on_scale (criteria (evaluation turn)) ->
               finalScore (evaluation turn)
               == Qmax 0 (totalScore (evaluation turn)
                          - timePenalty (evaluation turn) - gapPenalty)
               /\ (0 <= totalScore (evaluation turn)
                        - timePenalty (evaluation turn) - gapPenalty ->
                   finalScore (evaluation turn)
                   == totalScore (evaluation turn)
                      - timePenalty (evaluation turn) - gapPenalty))).
Proof.
  split; [split; [apply weights_sum|vm_compute; reflexivity]|].
  split; [|split].
  - intros c H. split; [apply calculateScore_decimals|].
    destruct (calculateScore_near c H) as [L U].
    split; [exact L|]. split; [exact U|]. apply calculateScore_exact. exact H.
  - rewrite calculateScore_ten. reflexivity.
  - intros ev ans t s o calls H.
    destruct (submitAnswer_done _ _ _ _ _ _ H) as (q & s1 & Hq & Hst & L & F & _).
    pose proof (turn_effect q ans t (evaluationOf ev q ans t) s s1 L) as E.
    cbv zeta in E. rewrite <- F in E.
    destruct E as (E1 & _ & _ & _ & _ & _ & _ & _ & _ & E10).
    eexists. eexists. split; [exact E10|].
    cbn [evaluation finalScore totalScore timePenalty skillGapPenalty criteria makeTurn].
    split; [exact E1|]. split; [reflexivity|]. split; [reflexivity|].
    split; [reflexivity|].
    split; [apply finalScoreOf_spec|]. intros S.
    pose proof (finalScoreOf_exact _ _ _ S (penalty_half_steps t)
                  (gap_half_steps (targetSkill q) (detectedSkillGaps s))) as X.
    split; [exact X|]. intros P. unfold turnScore. rewrite X.
    apply Q.max_r. exact P.
Qed.

(** C7, as stated, fails at the doubles 5.4, 9.5, 9.8 and 9.8 (accuracy,
    clarity, depth, relevance), which are on the scale: their exact weighted
    sum lies above 7.995 and rounds to 8.00, the code returns 7.99, which is
    more than 0.005 away from the sum; at difficulty Easy the answer then
    does not count as strong. *)
Lemma score_rounding_counterexample :
  Spec.on_scale Sample.borderline
  /\ 7995 # 1000 < Spec.weighted_sum Sample.borderline
  /\ JS.toFixed 2 (Spec.weighted_sum Sample.borderline) == 8
  /\ LogicCore.calculateScore Sample.borderline == Double.number 7.99
  /\ ~ LogicCore.calculateScore Sample.borderline
       == JS.toFixed 2 (Spec.weighted_sum Sample.borderline)
  /\ 1 # 200
     < Spec.weighted_sum Sample.borderline
       - LogicCore.calculateScore Sample.borderline
  /\ LogicCore.nextDifficulty
       Easy (LogicCore.calculateScore Sample.borderline) None = Easy
  /\ LogicCore.nextDifficulty
       Easy (JS.toFixed 2 (Spec.weighted_sum Sample.borderline)) None = Medium.
Proof.
  split; [vm_compute; intuition discriminate|].
  split; [vm_compute; reflexivity|].
  split; [vm_compute; reflexivity|].
  split; [vm_compute; reflexivity|].
  split; [vm_compute; discriminate|].
  split; [vm_compute; reflexivity|].
  split; vm_compute; reflexivity.
Qed.

End Pipeline.

(** ** Counters and termination *)

Section Counters.
Import INTERVIEW_POLICY InterviewEngine.

(** The final score of the turn a completed submission recorded. *)
Lemma submitAnswer_score ev ans t s o calls :
  submitAnswer ev ans t s = SubmitDone o calls ->
  exists q,
    activeQuestion s = Some q
    /\ status s = INTERVIEWING
    /\ scoreHistory (final o)
       = (scoreHistory s ++ [turnScore q t (evaluationOf ev q ans t) s])%list
    /\ consecutiveWeakAnswers (final o)
       = Spec.strikes_after (turnScore q t (evaluationOf ev q ans t) s)
                            (consecutiveWeakAnswers s).
Proof.
  intros H.
  destruct (submitAnswer_done _ _ _ _ _ _ H) as (q & s1 & Hq & Hst & L & F & _).
  pose proof (turn_effect q ans t (evaluationOf ev q ans t) s s1 L) as E.
  cbv zeta in E. rewrite <- F in E.
  destruct E as (E1 & _ & E3 & _).
  exists q. auto.
Qed.

Lemma strikes_after_cases fs n :
  (fs <= 2 -> Spec.strikes_after fs n = (n + 2)%nat)
  /\ (2 < fs -> fs <= 4.5 -> Spec.strikes_after fs n = (n + 1)%nat)
  /\ (4.5 < fs -> Spec.strikes_after fs n = 0%nat).
Proof.
  unfold Spec.strikes_after, SCORING.CRITICAL_FAIL_SCORE, SCORING.WEAK_SCORE,
    TERMINATION.CRITICAL_FAIL_STRIKES.
  destruct (Qle_bool fs 2.0) eqn:C; destruct (Qle_bool fs 4.5) eqn:W;
    try apply Qle_bool_iff in C; try apply Qle_bool_iff in W;
    try apply Qle_bool_false in C; try apply Qle_bool_false in W;
    repeat split; intros; try reflexivity; exfalso; lra.
Qed.

(** C4.  A completed submission appends its final score to the score
    history and moves the strike counter by that score: at most 2.0 adds
    2 strikes, above 2.0 and at most 4.5 adds 1, above 4.5 leaves the
    counter at 0.  Hence two weak, non-critical answers followed by an
    answer above the weak threshold end with the counter at 0, after it
    had grown by 2. *)
Theorem strike_accounting :
  (forall ev ans t s o calls,
      submitAnswer ev ans t s = SubmitDone o calls ->
      exists fs,
        scoreHistory (final o) = (scoreHistory s ++ [fs])%list
        /\ (fs <= 2 ->
            consecutiveWeakAnswers (final o) = (consecutiveWeakAnswers s + 2)%nat)
        /\ (2 < fs -> fs <= 4.5 ->
            consecutiveWeakAnswers (final o) = (consecutiveWeakAnswers s + 1)%nat)
        /\ (4.5 < fs -> consecutiveWeakAnswers (final o) = 0%nat))
  /\ (forall ev1 ev2 ev3 a1 a2 a3 t1 t2 t3 q2 q3 s o1 o2 o3 c1 c2 c3 f1 f2 f3,
         submitAnswer ev1 a1 t1 s = SubmitDone o1 c1 ->
         submitAnswer ev2 a2 t2 (final (presentQuestion q2 (final o1)))
         = SubmitDone o2 c2 ->
         submitAnswer ev3 a3 t3 (final (presentQuestion q3 (final o2)))
         = SubmitDone o3 c3 ->
         scoreHistory (final o3) = (scoreHistory s ++ [f1; f2; f3])%list ->
         2 < f1 -> f1 <= 4.5 -> 2 < f2 -> f2 <= 4.5 -> 4.5 < f3 ->
         consecutiveWeakAnswers (final o2) = (consecutiveWeakAnswers s + 2)%nat
         /\ consecutiveWeakAnswers (final o3) = 0%nat).
Proof.
  split.
  - intros ev ans t s o calls H.
    destruct (submitAnswer_score _ _ _ _ _ _ H) as (q & _ & _ & Hh & Hc).
    eexists. split; [exact Hh|]. rewrite Hc.
    apply strikes_after_cases.
  - intros ev1 ev2 ev3 a1 a2 a3 t1 t2 t3 q2 q3 s o1 o2 o3 c1 c2 c3 f1 f2 f3
           H1 H2 H3 Hh L1 U1 L2 U2 L3.
    destruct (submitAnswer_score _ _ _ _ _ _ H1) as (qa & _ & _ & Ha & Ca).
    destruct (submitAnswer_score _ _ _ _ _ _ H2) as (qb & _ & _ & Hb & Cb).
    destruct (submitAnswer_score _ _ _ _ _ _ H3) as (qc & _ & _ & Hc & Cc).
    assert (P2 : scoreHistory (final (presentQuestion q2 (final o1)))
                 = scoreHistory (final o1)) by reflexivity.
    assert (P3 : scoreHistory (final (presentQuestion q3 (final o2)))
                 = scoreHistory (final o2)) by reflexivity.
    assert (K2 : consecutiveWeakAnswers (final (presentQuestion q2 (final o1)))
                 = consecutiveWeakAnswers (final o1)) by reflexivity.
    rewrite P2 in Hb. rewrite P3 in Hc. rewrite K2 in Cb.
    remember (turnScore qa t1 (evaluationOf ev1 qa a1 t1) s) as x1.
    remember (turnScore qb t2 (evaluationOf ev2 qb a2 t2)
                (final (presentQuestion q2 (final o1)))) as x2.
    remember (turnScore qc t3 (evaluationOf ev3 qc a3 t3)
                (final (presentQuestion q3 (final o2)))) as x3.
    clear Heqx1 Heqx2 Heqx3.
    rewrite Hb, Ha in Hc. rewrite Hh in Hc.
    rewrite <- !app_assoc in Hc. apply app_inv_head in Hc.
    cbn [app] in Hc. injection Hc as E1 E2 E3.
    rewrite <- E1 in Ca. rewrite <- E2 in Cb. rewrite <- E3 in Cc.
    destruct (strikes_after_cases f1 (consecutiveWeakAnswers s)) as (_ & G1 & _).
    destruct (strikes_after_cases f2 (consecutiveWeakAnswers (final o1))) as (_ & G2 & _).
    destruct (strikes_after_cases f3
                (consecutiveWeakAnswers (final (presentQuestion q3 (final o2)))))
      as (_ & _ & G3).
    rewrite Cc, (G3 L3). rewrite Cb, (G2 L2 U2), Ca, (G1 L1 U1).
    split; [lia|reflexivity].
Qed.

(** C2.  After a completed submission the status follows the counters as
    they then stand, in this order: more than 2 time violations end the
    session as TERMINATED with the reason that cites the violation count;
    otherwise 3 or more strikes end it as TERMINATED with the reason that
    cites the strike count; otherwise 5 or more turns end it as
    COMPLETED; otherwise it goes to GENERATING.  In the last two cases the
    termination reason is left as it was.  The subscribers are shown that
    state last. *)
Theorem termination_priority ev ans t s o calls :
  submitAnswer ev ans t s = SubmitDone o calls ->
  let s' := final o in
  let v := timeViolations s' in
  let k := consecutiveWeakAnswers s' in
  let n := List.length (turns s') in
  ((2 < v)%nat ->
   status s' = TERMINATED
   /\ terminationReason s'
      = Some ("Time Management Failure: " ++ JS.show_nat v
              ++ " violations exceeded limit of 2."))
  /\ ((v <= 2)%nat -> (3 <= k)%nat ->
      status s' = TERMINATED
      /\ terminationReason s'
         = Some ("Performance Threshold Reached: " ++ JS.show_nat k
                 ++ " consecutive strikes."))
  /\ ((v <= 2)%nat -> (k < 3)%nat -> (5 <= n)%nat ->
      status s' = COMPLETED /\ terminationReason s' = terminationReason s)
  /\ ((v <= 2)%nat -> (k < 3)%nat -> (n < 5)%nat ->
      status s' = GENERATING /\ terminationReason s' = terminationReason s)
  /\ List.last (notified o) s = s'.
Proof.
  intros H s' v k n.
  destruct (submitAnswer_done _ _ _ _ _ _ H) as (q & s1 & Hq & Hst & L & F & _ & N).
  pose proof (turn_effect q ans t (evaluationOf ev q ans t) s s1 L) as E.
  cbv zeta in E. rewrite <- F in E. fold s' in E.
  destruct E as (_ & _ & _ & _ & _ & _ & _ & E8 & E9 & _).
  fold v k n in E8, E9. rewrite E8, E9. unfold Spec.verdict.
  repeat split; intros.
  all: try (rewrite N; reflexivity).
  all: repeat match goal with
         | |- context [(?a <? ?b)%nat] =>
             destruct (Nat.ltb_spec a b); try lia
         | |- context [(?a <=? ?b)%nat] =>
             destruct (Nat.leb_spec a b); try lia
       end; reflexivity.
Qed.

End Counters.

(** ** The edge-case filters *)

Section Filters.
Import INTERVIEW_POLICY InterviewEngine.

(** The answers the filters settle, in the specification's words. *)
Lemma preFilter_fires ans t :
  Spec.whitespace_only ans = true
  \/ ((5 < String.length ans)%nat /\ t * 1000 < 2000) ->
  exists line fb, preFilter ans t = Some (line, zero_evaluation 0 fb).
Proof.
  intros H. unfold preFilter.
  destruct (is_empty_answer ans) eqn:E; [eexists; eexists; reflexivity|].
  destruct H as [H|[Hl Ht]].
  - apply is_empty_answer_iff in H. congruence.
  - unfold is_spam_answer, TIMING.MIN_ANSWER_TIME_MS.
    apply lt_iff in Ht. apply Nat.ltb_lt in Hl. rewrite Ht, Hl.
    eexists; eexists; reflexivity.
Qed.

Lemma zero_score q t fb s :
  turnScore q t (zero_evaluation 0 fb) s == 0.
Proof.
  unfold turnScore. cbn [raw_criteria zero_evaluation].
  rewrite calculateScore_zero.
  apply finalScoreOf_zero; [apply penalty_nonneg|apply gap_penalty_nonneg].
Qed.

(** C6.  An answer that is empty or white space only, and likewise an
    answer of more than 5 characters given in under 2000 ms, is settled
    before any call to the external evaluator: the submission completes
    with no evaluator call and with the same outcome whatever the
    evaluator is, the recorded turn has all four criteria 0 and is flagged
    as a fallback, and its final score is 0 whatever the time taken and
    the target skill. *)
Theorem prefilter_forces_zero ev ans t s q :
  activeQuestion s = Some q ->
  status s = INTERVIEWING ->
  Spec.whitespace_only ans = true
  \/ ((5 < String.length ans)%nat /\ t * 1000 < 2000) ->
  exists o turn,
    submitAnswer ev ans t s = SubmitDone o []
    /\ (forall ev', submitAnswer ev' ans t s = SubmitDone o [])
    /\ turns (final o) = (turns s ++ [turn])%list
    /\ criteria (evaluation turn)
       = {| accuracy := 0; clarity := 0; depth := 0; relevance := 0 |}
    /\ isFallback (evaluation turn) = Some true
    /\ finalScore (evaluation turn) == 0
    /\ scoreHistory (final o)
       = (scoreHistory s ++ [finalScore (evaluation turn)])%list.
Proof.
  intros Hq Hst Hc.
  destruct (preFilter_fires ans t Hc) as (line & fb & Hp).
  pose proof (fun e => submitAnswer_filtered e ans t s q _ _ Hq Hst Hp) as Hs.
  pose proof (turn_effect q ans t (zero_evaluation 0 fb) s
                (log line (freeze t s))) as E.
  cbv zeta in E. specialize (E eq_refl).
  destruct E as (E1 & _ & _ & _ & _ & _ & _ & _ & _ & E10).
  eexists. eexists. split; [apply Hs|]. split; [intros ev'; apply Hs|].
  rewrite final_mk. split; [exact E10|].
  cbn [evaluation criteria isFallback finalScore makeTurn raw_criteria
       raw_isFallback zero_evaluation].
  split; [reflexivity|]. split; [reflexivity|].
  split; [apply zero_score|exact E1].
Qed.

(** C10.  A filtered answer is still timed: when it took more than 60
    seconds the violation counter goes up by one although the score is
    forced to 0, and if two violations were already on record the session
    ends as TERMINATED for time management. *)
Theorem filtered_answer_still_timed ev ans t s q :
  activeQuestion s = Some q ->
  status s = INTERVIEWING ->
  Spec.whitespace_only ans = true
  \/ ((5 < String.length ans)%nat /\ t * 1000 < 2000) ->
  60 < t ->
  exists o fs,
    submitAnswer ev ans t s = SubmitDone o []
    /\ timeViolations (final o) = S (timeViolations s)
    /\ scoreHistory (final o) = (scoreHistory s ++ [fs])%list
    /\ fs == 0
    /\ ((2 <= timeViolations s)%nat ->
        status (final o) = TERMINATED
        /\ terminationReason (final o)
           = Some (time_reason (S (timeViolations s)))).
Proof.
  intros Hq Hst Hc Ht.
  destruct (preFilter_fires ans t Hc) as (line & fb & Hp).
  pose proof (submitAnswer_filtered ev ans t s q _ _ Hq Hst Hp) as Hs.
  pose proof (turn_effect q ans t (zero_evaluation 0 fb) s
                (log line (freeze t s))) as E.
  cbv zeta in E. specialize (E eq_refl).
  destruct E as (E1 & _ & _ & E4 & _ & _ & _ & E8 & E9 & _).
  destruct (timeLogic_over t Ht) as (V & _). rewrite V in E4.
  eexists. eexists. split; [exact Hs|]. rewrite final_mk.
  split; [exact E4|]. split; [exact E1|]. split; [apply zero_score|].
  intros Hv. rewrite E8, E9, E4. unfold Spec.verdict.
  destruct (Nat.ltb_spec 2 (S (timeViolations s))); [|lia].
  split; reflexivity.
Qed.

End Filters.

(** ** The theorems at sample sessions *)

Section Samples.
Import INTERVIEW_POLICY InterviewEngine.

Lemma termination_priority_witness :
  exists o calls,
    submitAnswer Sample.strong_evaluator Sample.goodAnswer 30 Sample.asked
    = SubmitDone o calls
    /\ status (final o) = GENERATING
    /\ terminationReason (final o) = None.
Proof.
  set (r := submitAnswer Sample.strong_evaluator Sample.goodAnswer 30 Sample.asked).
  assert (Hr : r = SubmitDone (Sample.outcome_of r) (Sample.calls_of r))
    by (vm_compute; reflexivity).
  exists (Sample.outcome_of r), (Sample.calls_of r). split; [exact Hr|].
  destruct (termination_priority _ _ _ _ _ _ Hr) as (_ & _ & _ & H & _).
  apply H; vm_compute; lia.
Defined.

Lemma strike_accounting_witness :
  consecutiveWeakAnswers (final Sample.second_weak) = 2%nat
  /\ consecutiveWeakAnswers (final Sample.then_strong) = 0%nat.
Proof.
  destruct strike_accounting as [_ H].
  apply (H Sample.weak_evaluator Sample.weak_evaluator Sample.strong_evaluator
           Sample.goodAnswer Sample.goodAnswer Sample.goodAnswer 30 30 30
           Sample.boxModel Sample.closures Sample.asked
           Sample.first_weak Sample.second_weak Sample.then_strong
           [(Sample.closures, Sample.goodAnswer)]
           [(Sample.boxModel, Sample.goodAnswer)]
           [(Sample.closures, Sample.goodAnswer)]
           (nth 0 (scoreHistory (final Sample.then_strong)) 0)
           (nth 1 (scoreHistory (final Sample.then_strong)) 0)
           (nth 2 (scoreHistory (final Sample.then_strong)) 0));
    vm_compute; try reflexivity; discriminate.
Defined.

Lemma score_arithmetic_witness :
  (Spec.on_scale
     {| accuracy := 9; clarity := 9; depth := 9; relevance := 9 |}
   /\ LogicCore.calculateScore
        {| accuracy := 9; clarity := 9; depth := 9; relevance := 9 |}
      = Double.number
          (JS.toFixed 2
             (Spec.weighted_sum
                {| accuracy := 9; clarity := 9; depth := 9; relevance := 9 |})))
  /\ exists o calls,
       submitAnswer Sample.strong_evaluator Sample.goodAnswer 61 Sample.asked
       = SubmitDone o calls
       /\ nth 0 (scoreHistory (final o)) 0 == 8.5
       /\ exists turn gapPenalty,
            turns (final o) = (turns Sample.asked ++ [turn])%list
            /\ skillGapPenalty (evaluation turn) = Some gapPenalty
            /\ finalScore (evaluation turn)
               == Qmax 0 (totalScore (evaluation turn)
                          - timePenalty (evaluation turn) - gapPenalty)
            /\ 0 <= finalScore (evaluation turn).
Proof.
  split.
  - assert (S : Spec.on_scale
                  {| accuracy := 9; clarity := 9; depth := 9; relevance := 9 |})
      by (vm_compute; intuition discriminate).
    split; [exact S|].
    destruct score_arithmetic as (_ & H & _).
    destruct (H _ S) as (_ & _ & _ & X). apply X. vm_compute. reflexivity.
  - set (r := submitAnswer Sample.strong_evaluator Sample.goodAnswer 61 Sample.asked).
    assert (Hr : r = SubmitDone (Sample.outcome_of r) (Sample.calls_of r))
      by (vm_compute; reflexivity).
    destruct score_arithmetic as (_ & _ & _ & H).
    destruct (H _ _ _ _ _ _ Hr) as (turn & gp & Ht & _ & _ & Hg & _ & Hn & Hx).
    exists (Sample.outcome_of r), (Sample.calls_of r).
    split; [exact Hr|]. split; [vm_compute; reflexivity|].
    exists turn, gp. split; [exact Ht|]. split; [exact Hg|].
    split; [|exact Hn]. apply Hx.
    assert (Hc : nth 0 (turns (final (Sample.outcome_of r))) turn = turn)
      by (rewrite Ht; reflexivity).
    rewrite <- Hc. vm_compute. intuition discriminate.
Defined.

Lemma prefilter_forces_zero_witness :
  (exists o turn,
      submitAnswer Sample.strong_evaluator "   " 30 Sample.asked = SubmitDone o []
      /\ turns (final o) = [turn]
      /\ finalScore (evaluation turn) == 0)
  /\ (exists o turn,
         submitAnswer Sample.strong_evaluator "asdfgh" 1 Sample.asked
         = SubmitDone o []
         /\ turns (final o) = [turn]
         /\ finalScore (evaluation turn) == 0).
Proof.
  split.
  - destruct (prefilter_forces_zero Sample.strong_evaluator "   " 30
                Sample.asked Sample.closures eq_refl eq_refl
                (or_introl eq_refl))
      as (o & turn & H1 & _ & H3 & _ & _ & H6 & _).
    exists o, turn. auto.
  - assert (Hspam : Spec.whitespace_only "asdfgh" = true
                    \/ ((5 < String.length "asdfgh")%nat /\ 1 * 1000 < 2000)).
    { right. split; [cbn; lia|reflexivity]. }
    destruct (prefilter_forces_zero Sample.strong_evaluator "asdfgh" 1
                Sample.asked Sample.closures eq_refl eq_refl Hspam)
      as (o & turn & H1 & _ & H3 & _ & _ & H6 & _).
    exists o, turn. auto.
Defined.

Lemma filtered_answer_still_timed_witness :
  timeViolations Sample.twice_late = 2%nat
  /\ exists o,
       submitAnswer Sample.strong_evaluator "" 61 Sample.twice_late
       = SubmitDone o []
       /\ timeViolations (final o) = 3%nat
       /\ status (final o) = TERMINATED
       /\ terminationReason (final o)
          = Some "Time Management Failure: 3 violations exceeded limit of 2.".
Proof.
  assert (Hv : timeViolations Sample.twice_late = 2%nat)
    by (vm_compute; reflexivity).
  split; [exact Hv|].
  assert (Hq : activeQuestion Sample.twice_late = Some Sample.closures)
    by (vm_compute; reflexivity).
  assert (Hs : status Sample.twice_late = INTERVIEWING)
    by (vm_compute; reflexivity).
  assert (Ht : 60 < 61) by reflexivity.
  destruct (filtered_answer_still_timed Sample.strong_evaluator "" 61
              Sample.twice_late Sample.closures Hq Hs (or_introl eq_refl) Ht)
    as (o & fs & H1 & H2 & _ & _ & H5).
  exists o. split; [exact H1|]. rewrite Hv in H2, H5.
  split; [exact H2|]. apply H5. lia.
Defined.

End Samples.

(** ** Invariants of sessions *)

Section Invariants.
Import INTERVIEW_POLICY InterviewEngine Session.

Variable G : Call -> InterviewState -> bool.
Variable P : InterviewState -> Prop.

Hypothesis P_initial : P getInitialState.
Hypothesis P_log : forall m s, P s -> P (log m s).
Hypothesis P_mode : forall m s, P s -> P (set_evaluationMode m s).
Hypothesis P_startAnalysis :
  forall s, G CallStartAnalysis s = true -> P s -> P (final (startAnalysis s)).
Hypothesis P_initializeSession :
  forall jd resume s,
    G (CallInitializeSession jd resume) s = true ->
    P s -> P (final (initializeSession jd resume s)).
Hypothesis P_setGenerating :
  forall s, G CallSetGenerating s = true -> P s -> P (final (setGenerating s)).
Hypothesis P_presentQuestion :
  forall q s, P s -> P (final (presentQuestion q s)).
Hypothesis P_freeze :
  forall t s, status s = INTERVIEWING -> P s -> P (freeze t s).
Hypothesis P_turn :
  forall q a t raw s, P s -> P (conclude (applyPolicy q a t raw s)).

Lemma submit_begin_invariant ans t s :
  P s ->
  match submit_begin ans t s with
  | Thrown _ | Ignored => True
  | Awaiting frozen _ => P frozen
  | Finished o => P (final o) /\ Forall P (notified o)
  end.
Proof.
  intros Hs. unfold submit_begin. cbv zeta.
  destruct (activeQuestion s) as [q|]; [|exact I].
  destruct (bool_decide (status s = INTERVIEWING)) eqn:E; [|exact I].
  apply bool_decide_eq_true in E. cbn [negb].
  pose proof (P_freeze t s E Hs) as Hf.
  destruct (preFilter ans t) as [[line raw]|]; [|exact Hf].
  rewrite final_mk, notified_mk.
  assert (Hc : P (conclude (applyPolicy q ans t raw (log line (freeze t s)))))
    by (apply P_turn, P_log, Hf).
  split; [exact Hc|]. repeat constructor; assumption.
Qed.

Lemma submit_resume_invariant p result s :
  P s ->
  P (final (submit_resume p result s))
  /\ Forall P (notified (submit_resume p result s)).
Proof.
  intros Hs.
  assert (Hc : P (final (submit_resume p result s))).
  { unfold submit_resume. cbv zeta. unfold notify_last. rewrite final_mk.
    apply P_turn.
    destruct (bool_decide (raw_isFallback result = Some true) &&
              negb (bool_decide (evaluationMode s = FALLBACK_RULE_BASED)));
      [apply P_log, P_mode, Hs | exact Hs]. }
  split; [exact Hc|].
  destruct (submit_resume_final p result s) as (_ & _ & _ & _ & _ & N).
  rewrite N. repeat constructor. exact Hc.
Qed.

Lemma exec_invariant c w :
  G c (live w) = true ->
  P (live w) ->
  P (live (fst (exec c w))) /\ Forall P (snd (exec c w)).
Proof.
  intros Hg Hs. destruct c as [| jd resume | | q | q | ans t | | i result];
    cbn [exec settle fst snd live].
  - pose proof (P_startAnalysis _ Hg Hs). split; [|repeat constructor]; assumption.
  - pose proof (P_initializeSession _ _ _ Hg Hs).
    split; [|repeat constructor]; assumption.
  - pose proof (P_setGenerating _ Hg Hs). split; [|repeat constructor]; assumption.
  - unfold startInterview.
    destruct (negb (bool_decide (status (live w) = IDLE)) &&
              negb (bool_decide (status (live w) = GENERATING))).
    + split; [exact Hs|constructor].
    + pose proof (P_presentQuestion q _ (P_log LogSessionInitialized _ Hs)).
      split; [|repeat constructor]; assumption.
  - pose proof (P_presentQuestion q _ Hs). split; [|repeat constructor]; assumption.
  - pose proof (submit_begin_invariant ans t (live w) Hs) as B.
    destruct (submit_begin ans t (live w)) as [msg| |frozen p|o];
      cbn [fst snd live settle].
    + split; [exact Hs|constructor].
    + split; [exact Hs|constructor].
    + split; [exact B|]. repeat constructor. exact B.
    + exact B.
  - split; [exact P_initial|]. repeat constructor. exact P_initial.
  - destruct (nth_error (suspended w) i) as [p|]; cbn [fst snd live].
    + apply submit_resume_invariant, Hs.
    + split; [exact Hs|constructor].
Qed.

Lemma run_invariant cs :
  forall w,
    guarded_by G cs w = true ->
    P (live w) ->
    P (live (fst (run cs w))) /\ Forall P (snd (run cs w)).
Proof.
  induction cs as [|c r IH]; intros w Hg Hs; cbn [run guarded_by] in *.
  - split; [exact Hs|constructor].
  - apply andb_true_iff in Hg as [Hc Hr].
    destruct (exec_invariant c w Hc Hs) as [H1 F1].
    destruct (exec c w) as [w1 seen1] eqn:E1. cbn [fst snd] in *.
    destruct (IH w1 Hr H1) as [H2 F2].
    destruct (run r w1) as [w2 seen2]. cbn [fst snd] in *.
    split; [exact H2|]. apply Forall_app. split; assumption.
Qed.

End Invariants.

Section Observable.
Import INTERVIEW_POLICY InterviewEngine Session.

Lemma unguarded cs : forall w, guarded_by (fun _ _ => true) cs w = true.
Proof. induction cs as [|c r IH]; intros w; cbn; auto. Qed.

(** A property of the initial state that every operation keeps holds of
    every observable state. *)
Lemma observable_invariant (P : InterviewState -> Prop) :
  P getInitialState ->
  (forall m s, P s -> P (log m s)) ->
  (forall m s, P s -> P (set_evaluationMode m s)) ->
  (forall s, P s -> P (final (startAnalysis s))) ->
  (forall jd resume s, P s -> P (final (initializeSession jd resume s))) ->
  (forall s, P s -> P (final (setGenerating s))) ->
  (forall q s, P s -> P (final (presentQuestion q s))) ->
  (forall t s, status s = INTERVIEWING -> P s -> P (freeze t s)) ->
  (forall q a t raw s, P s -> P (conclude (applyPolicy q a t raw s))) ->
  forall s, observable s -> P s.
Proof.
  intros H0 H1 H2 H3 H4 H5 H6 H7 H8 s [cs Hs].
  destruct (run_invariant (fun _ _ => true) P H0 H1 H2
              (fun s _ => H3 s) (fun jd r s _ => H4 jd r s) (fun s _ => H5 s)
              H6 H7 H8 cs start (unguarded cs start) H0) as [Hl Hn].
  destruct Hs as [->|Hin]; [exact Hl|].
  exact (proj1 (List.Forall_forall _ _) Hn s Hin).
Qed.

End Observable.

(** ** Difficulty *)

Section DifficultyFacts.
Import INTERVIEW_POLICY InterviewEngine Session.

Lemma nextDifficulty_spec current score ceiling :
  LogicCore.nextDifficulty current score ceiling
  = Spec.clamp ceiling (Spec.adapt current score).
Proof.
  unfold LogicCore.nextDifficulty, Spec.clamp, Spec.adapt.
  destruct (Qle_bool SCORING.STRONG_SCORE score);
    [|destruct (Qle_bool score SCORING.WEAK_SCORE)];
    destruct current; destruct ceiling as [[]|]; reflexivity.
Qed.

Lemma clamp_below cap d : (Spec.rank (Spec.clamp (Some cap) d) <= Spec.rank cap)%nat.
Proof. destruct cap, d; cbn; lia. Qed.

Lemma capped_ledger s s1 : ledger s1 = ledger s -> Spec.capped s -> Spec.capped s1.
Proof.
  unfold Spec.capped, ledger. intros H Hc cap Hcap.
  injection H as H1 _ _ _ _ _ H7 _. rewrite H1. apply Hc. congruence.
Qed.

Lemma capped_initializeSession jd resume s :
  Spec.capped s -> Spec.capped (final (initializeSession jd resume s)).
Proof.
  intros Hc cap. unfold initializeSession. cbv zeta.
  unfold notify_last. rewrite final_mk.
  set (rate := if (0 <? _)%nat then _ else _).
  destruct (JS.lt rate DIFFICULTY.CRITICAL_GAP_MATCH_THRESHOLD);
    cbn [difficultyCeiling currentDifficulty log set_logs set_status
         set_difficultyCeiling set_detectedSkillGaps set_currentDifficulty].
  - intros H. injection H as <-. split; [reflexivity|].
    destruct (complexityLevel jd); cbn; lia.
  - intros H. destruct (Hc cap H) as [-> _]. split; [reflexivity|].
    destruct (complexityLevel jd); cbn; lia.
Qed.

Lemma capped_turn q a t raw s :
  Spec.capped s -> Spec.capped (conclude (applyPolicy q a t raw s)).
Proof.
  intros Hc cap.
  pose proof (turn_effect q a t raw s s eq_refl) as E. cbv zeta in E.
  destruct E as (_ & _ & _ & _ & E5 & E6 & _).
  rewrite E5, E6. intros H. destruct (Hc cap H) as [-> _].
  split; [reflexivity|]. rewrite H, nextDifficulty_spec. apply clamp_below.
Qed.

Lemma observable_capped s : observable s -> Spec.capped s.
Proof.
  apply observable_invariant.
  - intros cap H. discriminate.
  - intros m s0. apply capped_ledger. reflexivity.
  - intros m s0. apply capped_ledger. reflexivity.
  - intros s0. apply capped_ledger. reflexivity.
  - apply capped_initializeSession.
  - intros s0. apply capped_ledger. reflexivity.
  - intros q s0. apply capped_ledger. reflexivity.
  - intros t s0 _. apply capped_ledger. reflexivity.
  - apply capped_turn.
Qed.

(** C5.  The difficulty transition is the one-level escalation on a score
    of at least 8.0 (saturating at Hard), the one-level downgrade on a
    score of at most 4.5 (saturating at Easy), no change otherwise,
    clamped down to the ceiling when there is one; its result never
    exceeds the ceiling, and in no observable state of a session does the
    current difficulty exceed a ceiling that is set. *)
Theorem difficulty_adaptation :
  (forall current score ceiling,
      LogicCore.nextDifficulty current score ceiling
      = Spec.clamp ceiling
          (if Qle_bool 8.0 score then Spec.escalate current
           else if Qle_bool score 4.5 then Spec.downgrade current
                else current))
  /\ (forall current score cap,
         (Spec.rank (LogicCore.nextDifficulty current score (Some cap))
          <= Spec.rank cap)%nat)
  /\ (forall s cap,
         observable s ->
         difficultyCeiling s = Some cap ->
         (Spec.rank (currentDifficulty s) <= Spec.rank cap)%nat).
Proof.
  split; [intros; apply nextDifficulty_spec|]. split.
  - intros current score cap. rewrite nextDifficulty_spec. apply clamp_below.
  - intros s cap Ho Hc. apply (observable_capped s Ho cap Hc).
Qed.

Lemma difficulty_adaptation_witness :
  observable Sample.capped_state
  /\ difficultyCeiling Sample.capped_state = Some Medium
  /\ nth 0 (scoreHistory Sample.capped_state) 0 == 9
  /\ currentDifficulty Sample.capped_state = Medium
  /\ (Spec.rank (currentDifficulty Sample.capped_state) <= Spec.rank Medium)%nat.
Proof.
  set (s := Sample.capped_state).
  assert (Ho : observable s) by (exists Sample.capped_session; left; reflexivity).
  assert (Hc : difficultyCeiling s = Some Medium) by (vm_compute; reflexivity).
  split; [exact Ho|]. split; [exact Hc|]. split; [vm_compute; reflexivity|].
  split; [vm_compute; reflexivity|].
  destruct difficulty_adaptation as (_ & _ & H). exact (H s Medium Ho Hc).
Defined.

End DifficultyFacts.

(** ** The active question *)

Section ActiveQuestion.
Import INTERVIEW_POLICY InterviewEngine Session.

Lemma presentQuestion_final q s :
  final (presentQuestion q s)
  = log (LogQuestion (List.length (turns s) + 1) (targetSkill q) (difficulty q))
        (set_status INTERVIEWING (set_activeQuestion (Some q) s)).
Proof. reflexivity. Qed.

Lemma turn_clears q a t raw s :
  activeQuestion (conclude (applyPolicy q a t raw s)) = None
  /\ status (conclude (applyPolicy q a t raw s)) <> INTERVIEWING.
Proof.
  pose proof (turn_effect q a t raw s s eq_refl) as E. cbv zeta in E.
  destruct E as (_ & _ & _ & _ & _ & _ & E7 & E8 & _).
  split; [exact E7|]. rewrite E8. unfold Spec.verdict.
  repeat match goal with
         | |- context [if ?b then _ else _] => destruct b
         end; discriminate.
Qed.

Lemma interviewing_has_question s :
  observable s -> status s = INTERVIEWING -> activeQuestion s <> None.
Proof.
  apply (observable_invariant
           (fun s => status s = INTERVIEWING -> activeQuestion s <> None)).
  - discriminate.
  - intros m s0 H. exact H.
  - intros m s0 H. exact H.
  - intros s0 _. discriminate.
  - intros jd resume s0 _. unfold initializeSession. cbv zeta.
    unfold notify_last. rewrite final_mk.
    match goal with |- context [JS.lt ?a ?b] => destruct (JS.lt a b) end;
      discriminate.
  - intros s0 _. discriminate.
  - intros q s0 _ _. discriminate.
  - intros t s0 _ _. discriminate.
  - intros q a t raw s0 _ H. destruct (turn_clears q a t raw s0) as [_ N].
    contradiction.
Qed.

Lemma protocol_keeps_question_in_play cs :
  Spec.follows_protocol cs start = true ->
  forall s,
    s = live (fst (run cs start)) \/ In s (snd (run cs start)) ->
    activeQuestion s <> None ->
    status s = INTERVIEWING \/ status s = EVALUATING.
Proof.
  intros Hp.
  pose (P := fun s => activeQuestion s <> None ->
                      status s = INTERVIEWING \/ status s = EVALUATING).
  assert (Hidle : forall s, P s -> status s = IDLE -> activeQuestion s = None).
  { intros s Hs Hi. destruct (activeQuestion s) eqn:E; [|reflexivity].
    destruct Hs as [H|H]; congruence. }
  assert (Hana : forall s, P s -> status s = ANALYZING -> activeQuestion s = None).
  { intros s Hs Hi. destruct (activeQuestion s) eqn:E; [|reflexivity].
    destruct Hs as [H|H]; congruence. }
  assert (R : P (live (fst (run cs start))) /\ Forall P (snd (run cs start))).
  { apply (run_invariant Spec.in_protocol P).
    - intros H. contradiction.
    - intros m s H. exact H.
    - intros m s H. exact H.
    - intros s Hg Hs H. apply bool_decide_eq_true in Hg.
      exfalso. apply H. exact (Hidle s Hs Hg).
    - intros jd resume s Hg Hs. apply bool_decide_eq_true in Hg.
      unfold P, initializeSession. cbv zeta. unfold notify_last. rewrite final_mk.
      pose proof (Hana s Hs Hg) as Hn.
      match goal with |- context [JS.lt ?a ?b] => destruct (JS.lt a b) end;
        intros H; exfalso; apply H; exact Hn.
    - intros s Hg Hs H. apply bool_decide_eq_true in Hg.
      exfalso. apply H. exact (Hidle s Hs Hg).
    - intros q s _ _. left. reflexivity.
    - intros t s _ _ _. right. reflexivity.
    - intros q a t raw s _ H. destruct (turn_clears q a t raw s) as [N _].
      contradiction.
    - exact Hp.
    - intros H. contradiction. }
  destruct R as [Rl Rn]. intros s [->|Hin]; [exact Rl|].
  exact (proj1 (List.Forall_forall _ _) Rn s Hin).
Qed.

(** C1, as the code has it.  In every observable state, status
    INTERVIEWING comes with an active question; [presentQuestion] has the
    question in place in each of its intermediate states.  Conversely,
    along calls that follow the protocol of 4.1, an active question comes
    with status INTERVIEWING or EVALUATING. *)
Theorem active_question_invariant :
  (forall s, observable s -> status s = INTERVIEWING -> activeQuestion s <> None)
  /\ (forall q s s',
         In s' (presentQuestion_trace q s) -> activeQuestion s' = Some q)
  /\ (forall q s,
         status (final (presentQuestion q s)) = INTERVIEWING
         /\ activeQuestion (final (presentQuestion q s)) = Some q
         /\ notified (presentQuestion q s) = [final (presentQuestion q s)])
  /\ (forall cs s,
         Spec.follows_protocol cs start = true ->
         s = live (fst (run cs start)) \/ In s (snd (run cs start)) ->
         activeQuestion s <> None ->
         status s = INTERVIEWING \/ status s = EVALUATING).
Proof.
  split; [exact interviewing_has_question|]. split; [|split].
  - intros q s s' [<-|[<-|[<-|[]]]]; reflexivity.
  - intros q s. repeat split.
  - intros cs s Hp Hs. exact (protocol_keeps_question_in_play cs Hp s Hs).
Qed.

Lemma active_question_invariant_witness :
  observable Sample.asked
  /\ status Sample.asked = INTERVIEWING
  /\ activeQuestion Sample.asked <> None
  /\ Spec.follows_protocol Sample.evaluating_session start = true
  /\ (status Sample.evaluating_state = INTERVIEWING
      \/ status Sample.evaluating_state = EVALUATING).
Proof.
  destruct active_question_invariant as (H1 & _ & _ & H4).
  assert (Ho : observable Sample.asked).
  { exists [CallPresentQuestion Sample.closures]. left. reflexivity. }
  assert (Hs : status Sample.asked = INTERVIEWING) by reflexivity.
  assert (Hp : Spec.follows_protocol Sample.evaluating_session start = true)
    by (vm_compute; reflexivity).
  split; [exact Ho|]. split; [exact Hs|]. split; [exact (H1 _ Ho Hs)|].
  split; [exact Hp|].
  apply (H4 Sample.evaluating_session Sample.evaluating_state Hp).
  - left. reflexivity.
  - vm_compute. discriminate.
Defined.

(** C1, as stated, fails: while an answer is being evaluated the session
    is observed in status EVALUATING with the question still active. *)
Lemma active_question_iff_counterexample :
  observable Sample.evaluating_state
  /\ Spec.follows_protocol Sample.evaluating_session start = true
  /\ In Sample.evaluating_state (snd (run Sample.evaluating_session start))
  /\ status Sample.evaluating_state = EVALUATING
  /\ activeQuestion Sample.evaluating_state = Some Sample.closures
  /\ ~ (activeQuestion Sample.evaluating_state <> None
        <-> status Sample.evaluating_state = INTERVIEWING).
Proof.
  assert (Hst : status Sample.evaluating_state = EVALUATING)
    by (vm_compute; reflexivity).
  assert (Hq : activeQuestion Sample.evaluating_state = Some Sample.closures)
    by (vm_compute; reflexivity).
  split; [exists Sample.evaluating_session; left; reflexivity|].
  split; [vm_compute; reflexivity|].
  split; [vm_compute; auto 10|].
  split; [exact Hst|]. split; [exact Hq|].
  intros [H _]. rewrite Hq, Hst in H.
  assert (E : EVALUATING = INTERVIEWING) by (apply H; discriminate).
  discriminate.
Qed.

End ActiveQuestion.

(** ** Subscribers and the live state object *)

Section Subscribers.
Import InterviewEngine.

Lemma fold_read_only (l : Live.loc) (cbs : list Live.Subscriber) :
  Forall Live.read_only cbs ->
  forall h : gmap Live.loc InterviewState,
    fold_left (fun h cb => cb l h) cbs h !! l = h !! l.
Proof.
  induction 1 as [|cb r Hcb _ IH]; intros h; cbn [fold_left].
  - reflexivity.
  - rewrite IH. apply Hcb.
Qed.

Lemma notify_read_only e (h : gmap Live.loc InterviewState) :
  Forall Live.read_only (Live.subscribers e) ->
  Live.notify e h !! Live.state e = h !! Live.state e.
Proof. intros H. apply fold_read_only, H. Qed.

Lemma copying_read_only slot : Live.read_only (Live.copying slot).
Proof.
  intros l h. unfold Live.copying.
  destruct (h !! l) as [v|] eqn:E; [|exact E].
  destruct (decide (slot = l)) as [->|N].
  - apply lookup_insert_eq.
  - rewrite lookup_insert_ne by exact N. exact E.
Qed.

Lemma perform_read_only m e (h : gmap Live.loc InterviewState) s :
  Forall Live.read_only (Live.subscribers e) ->
  h !! Live.state e = Some s ->
  Live.perform m e h !! Live.state e = Some (final (m s)).
Proof.
  intros H Hs. unfold Live.perform. rewrite Hs. cbv zeta.
  destruct (notified (m s)).
  - apply lookup_insert_eq.
  - rewrite notify_read_only by exact H. apply lookup_insert_eq.
Qed.

Lemma mutate_lookup f e (h : gmap Live.loc InterviewState) s :
  h !! Live.state e = Some s ->
  Live.mutate f e h !! Live.state e = Some (f s).
Proof.
  intros Hs. unfold Live.mutate. rewrite lookup_alter_eq, Hs. reflexivity.
Qed.

Lemma submitAnswer_read_only ev ans t e (h : gmap Live.loc InterviewState) s :
  Forall Live.read_only (Live.subscribers e) ->
  h !! Live.state e = Some s ->
  match submitAnswer ev ans t s with
  | SubmitThrown _ => Live.submitAnswer ev ans t e h = None
  | SubmitIgnored => Live.submitAnswer ev ans t e h = Some h
  | SubmitDone o _ =>
      exists h',
        Live.submitAnswer ev ans t e h = Some h'
        /\ h' !! Live.state e = Some (final o)
  end.
Proof.
  intros H Hs. unfold Live.submitAnswer, submitAnswer, submit_begin.
  rewrite Hs. cbv zeta.
  destruct (activeQuestion s) as [q|]; [|reflexivity].
  destruct (bool_decide (status s = INTERVIEWING)); cbn [negb]; [|reflexivity].
  assert (H1 : Live.notify e (Live.mutate (freeze t) e h) !! Live.state e
               = Some (freeze t s)).
  { rewrite notify_read_only by exact H. apply mutate_lookup, Hs. }
  destruct (preFilter ans t) as [[line raw]|].
  - eexists. split; [reflexivity|].
    rewrite notify_read_only by exact H.
    rewrite (mutate_lookup _ _ _ _ H1), final_mk. reflexivity.
  - eexists. split; [reflexivity|].
    rewrite notify_read_only by exact H.
    rewrite (mutate_lookup _ _ _ _ H1), final_mk. reflexivity.
Qed.

End Subscribers.

Section Snapshots.
Import InterviewEngine.

Lemma reset_read_only e (h : gmap Live.loc InterviewState) :
  Forall Live.read_only (Live.subscribers e) ->
  snd (Live.reset e h) !! Live.getState (fst (Live.reset e h))
  = Some getInitialState
  /\ forall l, is_Some (h !! l) -> Live.getState (fst (Live.reset e h)) <> l.
Proof.
  intros H. unfold Live.reset. cbv zeta. cbn [fst snd]. unfold Live.getState.
  split.
  - pose (e' := {| Live.state := fresh (dom h);
                   Live.subscribers := Live.subscribers e |}).
    change (Live.notify e' (<[Live.state e' := getInitialState]> h)
              !! Live.state e' = Some getInitialState).
    rewrite notify_read_only by exact H. apply lookup_insert_eq.
  - cbn [Live.state]. intros l Hl E. apply elem_of_dom in Hl. rewrite <- E in Hl.
    exact (is_fresh (dom h) Hl).
Qed.

(** C9, as the code has it.  [notify] hands every subscriber the
    reference that [getState] returns.  When no subscriber writes through
    the reference it is handed, as the copying subscriber of the
    application does not, the state object after a notification is what
    it was before, and after each operation it holds exactly what the
    operation computed. *)
Theorem subscribers_share_live_state e (h : gmap Live.loc InterviewState) s :
  h !! Live.getState e = Some s ->
  Forall Live.read_only (Live.subscribers e) ->
  Live.notify e h
  = fold_left (fun h cb => cb (Live.getState e) h) (Live.subscribers e) h
  /\ Live.notify e h !! Live.getState e = Some s
  /\ (forall m, Live.perform m e h !! Live.getState e = Some (final (m s)))
  /\ (forall ev ans t o calls,
         submitAnswer ev ans t s = SubmitDone o calls ->
         exists h',
           Live.submitAnswer ev ans t e h = Some h'
           /\ h' !! Live.getState e = Some (final o))
  /\ snd (Live.reset e h) !! Live.getState (fst (Live.reset e h))
     = Some getInitialState
  /\ (forall slot, Live.read_only (Live.copying slot)).
Proof.
  intros Hs H. unfold Live.getState in *.
  split; [reflexivity|].
  split; [rewrite notify_read_only by exact H; exact Hs|].
  split; [intros m; apply perform_read_only; assumption|].
  split.
  - intros ev ans t o calls Ho.
    pose proof (submitAnswer_read_only ev ans t e h s H Hs) as L.
    rewrite Ho in L. exact L.
  - split; [apply reset_read_only, H|exact copying_read_only].
Qed.

Lemma subscribers_share_live_state_witness :
  Live.startAnalysis Sample.app_engine Sample.fresh_heap
    !! Live.getState Sample.app_engine
  = Some (final (startAnalysis getInitialState)).
Proof.
  assert (Hs : Sample.fresh_heap !! Live.getState Sample.app_engine
               = Some getInitialState) by reflexivity.
  assert (Hr : Forall Live.read_only (Live.subscribers Sample.app_engine)).
  { repeat constructor. apply copying_read_only. }
  destruct (subscribers_share_live_state Sample.app_engine Sample.fresh_heap
              getInitialState Hs Hr) as (_ & _ & H & _).
  exact (H startAnalysis).
Defined.

(** C9, as stated, fails: a subscriber that changes nothing but the value
    it was handed changes the state the engine goes on with. *)
Lemma snapshot_counterexample :
  (forall l l' (h : gmap Live.loc InterviewState),
      l' <> l -> Live.tamper l h !! l' = h !! l')
  /\ Sample.fresh_heap !! Live.getState Sample.tampered_engine
     = Some getInitialState
  /\ status <$> (Live.notify Sample.tampered_engine Sample.fresh_heap
                   !! Live.getState Sample.tampered_engine)
     = Some COMPLETED
  /\ status getInitialState = IDLE
  /\ status <$> (Live.startAnalysis Sample.tampered_engine Sample.fresh_heap
                   !! Live.getState Sample.tampered_engine)
     = Some COMPLETED
  /\ status (final (startAnalysis getInitialState)) = ANALYZING.
Proof.
  split.
  { intros l l' h N. unfold Live.tamper. apply lookup_alter_ne. congruence. }
  split; [reflexivity|]. split; [reflexivity|]. split; [reflexivity|].
  split; reflexivity.
Qed.

End Snapshots.

(** ** The fallback evaluator *)

Section Fallback.
Import INTERVIEW_POLICY FallbackRegistry.






Lemma heuristic_capped hits isShort :
  heuristic hits isShort <= FALLBACK_SCORING.MAX_SCORE.
Proof. unfold heuristic. apply Q.le_min_r. Qed.

Lemma accuracy_is_heuristic hits isShort :
  Qmin 10 (heuristic hits isShort) == heuristic hits isShort.
Proof.
  apply Q.min_r. pose proof (heuristic_capped hits isShort) as H.
  unfold FALLBACK_SCORING.MAX_SCORE in H. lra.
Qed.


End Fallback.

(** * Further properties of the engine *)

(** ** What the recorded history looks like *)

Section History.
Import INTERVIEW_POLICY InterviewEngine Session.

Lemma initializeSession_keeps jd resume s :
  let r := final (initializeSession jd resume s) in
  status r = IDLE
  /\ turns r = turns s
  /\ scoreHistory r = scoreHistory s
  /\ consecutiveWeakAnswers r = consecutiveWeakAnswers s
  /\ timeViolations r = timeViolations s
  /\ activeQuestion r = activeQuestion s
  /\ evaluationMode r = evaluationMode s
  /\ terminationReason r = terminationReason s.
Proof.
  unfold initializeSession. cbv zeta. unfold notify_last. rewrite final_mk.
  match goal with |- context [JS.lt ?a ?b] => destruct (JS.lt a b) end;
    repeat split; reflexivity.
Qed.

Lemma makeTurn_audited q a t raw s :
  Audit.audited
    (makeTurn q a t raw
       (LogicCore.calculateScore (raw_criteria raw))
       (LogicCore.penalty (LogicCore.calculateTimeLogic t))
       (LogicCore.gap_penalty
          (LogicCore.checkSkillGap (targetSkill q) (detectedSkillGaps s)))
       (turnScore q t raw s) (currentDifficulty s)
       (LogicCore.nextDifficulty (currentDifficulty s) (turnScore q t raw s)
                                 (difficultyCeiling s))).
Proof.
  unfold Audit.audited. cbv zeta.
  cbn [evaluation makeTurn totalScore criteria timePenalty timeTakenSeconds
       skillGapPenalty finalScore criticalFailure].
  pose proof (penalty_nonneg t) as Hp.
  pose proof (gap_penalty_nonneg (targetSkill q) (detectedSkillGaps s)) as Hg.
  split; [reflexivity|]. split; [reflexivity|]. split.
  - eexists. split; [reflexivity|]. split; [|split; [reflexivity|]].
    + unfold LogicCore.checkSkillGap.
      destruct (LogicCore.find_gap _ _) as [g|]; [|left; reflexivity].
      destruct (gap_type g); cbn; auto.
    + intros S. unfold turnScore.
      apply finalScoreOf_exact;
        [exact S|apply penalty_half_steps|apply gap_half_steps].
  - unfold turnScore.
    destruct (finalScoreOf_spec
                (LogicCore.calculateScore (raw_criteria raw))
                (LogicCore.penalty (LogicCore.calculateTimeLogic t))
                (LogicCore.gap_penalty
                   (LogicCore.checkSkillGap (targetSkill q)
                                            (detectedSkillGaps s))))
      as [L U].
    split; [exact L|]. split; [|reflexivity].
    specialize (U Hp Hg).
    assert (I : Double.number (LogicCore.calculateScore (raw_criteria raw))
                == LogicCore.calculateScore (raw_criteria raw))
      by (unfold LogicCore.calculateScore; apply number_idem).
    rewrite I in U. exact U.
Qed.

Lemma history_invariant s :
  observable s ->
  scoreHistory s = Audit.scores_of (turns s) /\ Forall Audit.audited (turns s).
Proof.
  assert (L : forall s s1,
             ledger s1 = ledger s ->
             scoreHistory s = Audit.scores_of (turns s)
             /\ Forall Audit.audited (turns s) ->
             scoreHistory s1 = Audit.scores_of (turns s1)
             /\ Forall Audit.audited (turns s1)).
  { intros a b H. unfold ledger in H. injection H as _ H2 H3 _ _ _ _ _.
    rewrite H2, H3. auto. }
  apply (observable_invariant
           (fun s => scoreHistory s = Audit.scores_of (turns s)
                     /\ Forall Audit.audited (turns s))).
  - split; [reflexivity|constructor].
  - intros m s0. apply L. reflexivity.
  - intros m s0. apply L. reflexivity.
  - intros s0. apply L. reflexivity.
  - intros jd resume s0 [H1 H2].
    destruct (initializeSession_keeps jd resume s0) as (_ & T & H & _).
    rewrite T, H. auto.
  - intros s0. apply L. reflexivity.
  - intros q s0. apply L. reflexivity.
  - intros t s0 _. apply L. reflexivity.
  - intros q a t raw s0 [H1 H2].
    pose proof (turn_effect q a t raw s0 s0 eq_refl) as E. cbv zeta in E.
    destruct E as (E1 & _ & _ & _ & _ & _ & _ & _ & _ & E10).
    rewrite E1, E10. unfold Audit.scores_of. rewrite map_app, H1.
    split; [reflexivity|]. apply Forall_app. split; [exact H2|].
    constructor; [apply makeTurn_audited | constructor].
Qed.

(** X1.  In every observable state the score history is the list of the
    final scores of the recorded turns, in order; in particular the two
    lists have the same length. *)
Theorem score_history_mirrors_turns s :
  observable s ->
  scoreHistory s = Audit.scores_of (turns s)
  /\ List.length (scoreHistory s) = List.length (turns s).
Proof.
  intros H. destruct (history_invariant s H) as [E _].
  split; [exact E|]. rewrite E. apply length_map.
Qed.

Lemma score_history_mirrors_turns_witness :
  observable Sample.capped_state
  /\ List.length (turns Sample.capped_state) = 1%nat
  /\ scoreHistory Sample.capped_state
     = Audit.scores_of (turns Sample.capped_state).
Proof.
  assert (Ho : observable Sample.capped_state)
    by (exists Sample.capped_session; left; reflexivity).
  split; [exact Ho|]. split; [vm_compute; reflexivity|].
  exact (proj1 (score_history_mirrors_turns _ Ho)).
Defined.

(** X2.  Every turn recorded in an observable state can be audited from
    its own fields: the base score is the weighted score of its criteria,
    the time penalty is the one of its time taken, the gap penalty is 0,
    0.5 or 1.5, and the final score is what step F computes from them; for
    criteria between 0 and 10 that is max(0, base - time penalty - gap
    penalty) to the last bit.  The final score is never negative and never
    above max(0, base), and the critical-failure flag says whether it is
    at most 2.0. *)
Theorem recorded_turns_audit s :
  observable s -> Forall Audit.audited (turns s).
Proof. intros H. exact (proj2 (history_invariant s H)). Qed.

Lemma recorded_turns_audit_witness :
  observable Sample.capped_state
  /\ Forall Audit.audited (turns Sample.capped_state).
Proof.
  assert (Ho : observable Sample.capped_state)
    by (exists Sample.capped_session; left; reflexivity).
  split; [exact Ho|]. exact (recorded_turns_audit _ Ho).
Defined.

End History.

(** ** The range of the scores *)

Section Range.
Import INTERVIEW_POLICY InterviewEngine.

Lemma floor_le_int y (n : Z) : y < inject_Z (n + 1) -> (Qfloor y <= n)%Z.
Proof.
  intros H. pose proof (Qfloor_le y) as L.
  assert (G : inject_Z (Qfloor y) < inject_Z (n + 1)) by lra.
  rewrite <- Zlt_Qlt in G. lia.
Qed.

Lemma floor_ge_int y (n : Z) : inject_Z n <= y -> (n <= Qfloor y)%Z.
Proof.
  intros H. rewrite <- (Qfloor_Z n). apply Qfloor_resp_le. exact H.
Qed.

(** Rounding does not cross a number that has [d] decimals. *)
Lemma toFixed_le_grid d x (n : Z) :
  x <= inject_Z n / inject_Z (JS.pow10 d) ->
  JS.toFixed d x <= inject_Z n / inject_Z (JS.pow10 d).
Proof.
  pose proof (scale_pos d) as Hs. set (k := inject_Z (JS.pow10 d)) in *.
  intros H.
  assert (Hx : x * k <= inject_Z n).
  { apply (Qmult_le_compat_r _ _ k) in H; [|lra].
    assert (E : inject_Z n / k * k == inject_Z n) by (field; lra). lra. }
  unfold JS.toFixed, JS.round_half_up. fold k.
  destruct (Qle_bool 0 x).
  - apply Qle_shift_div_r; [exact Hs|].
    assert (E : inject_Z n / k * k == inject_Z n) by (field; lra). rewrite E.
    rewrite <- Zle_Qle. apply floor_le_int.
    rewrite inject_Z_plus. change (inject_Z 1) with 1. lra.
  - assert (G : (- n <= Qfloor (- x * k + (1 # 2)))%Z).
    { apply floor_ge_int. rewrite inject_Z_opp. lra. }
    rewrite Zle_Qle, inject_Z_opp in G.
    assert (D : - inject_Z n / k <= inject_Z (Qfloor (- x * k + (1 # 2))) / k).
    { apply Qle_shift_div_l; [exact Hs|].
      assert (E : - inject_Z n / k * k == - inject_Z n) by (field; lra). lra. }
    assert (E2 : - inject_Z n / k == - (inject_Z n / k)) by (field; lra).
    lra.
Qed.

Lemma toFixed_ge_grid d x (n : Z) :
  inject_Z n / inject_Z (JS.pow10 d) <= x ->
  inject_Z n / inject_Z (JS.pow10 d) <= JS.toFixed d x.
Proof.
  pose proof (scale_pos d) as Hs. set (k := inject_Z (JS.pow10 d)) in *.
  intros H.
  assert (Hx : inject_Z n <= x * k).
  { apply (Qmult_le_compat_r _ _ k) in H; [|lra].
    assert (E : inject_Z n / k * k == inject_Z n) by (field; lra). lra. }
  unfold JS.toFixed, JS.round_half_up. fold k.
  destruct (Qle_bool 0 x).
  - apply Qle_shift_div_l; [exact Hs|].
    assert (E : inject_Z n / k * k == inject_Z n) by (field; lra). rewrite E.
    rewrite <- Zle_Qle. apply floor_ge_int. lra.
  - assert (G : (Qfloor (- x * k + (1 # 2)) <= - n)%Z).
    { apply floor_le_int. rewrite inject_Z_plus, inject_Z_opp.
      change (inject_Z 1) with 1. lra. }
    rewrite Zle_Qle, inject_Z_opp in G.
    assert (D : inject_Z (Qfloor (- x * k + (1 # 2))) / k <= - inject_Z n / k).
    { apply Qle_shift_div_r; [exact Hs|].
      assert (E : - inject_Z n / k * k == - inject_Z n) by (field; lra). lra. }
    assert (E2 : - inject_Z n / k == - (inject_Z n / k)) by (field; lra).
    lra.
Qed.

(** X3.  When the four criteria lie between 0 and 10, so does the base
    score the doubles give, and so does the final score of the turn,
    whatever the time taken and the skill gaps. *)
Theorem scores_stay_in_range c :
  Audit.in_range c ->
  (0 <= LogicCore.calculateScore c /\ LogicCore.calculateScore c <= 10)
  /\ forall q t fb isFb s,
       0 <= turnScore q t {| raw_criteria := c; raw_feedback := fb;
                             raw_isFallback := isFb |} s
       /\ turnScore q t {| raw_criteria := c; raw_feedback := fb;
                           raw_isFallback := isFb |} s <= 10.
Proof.
  intros H. pose proof (calculateScore_on_scale c H) as [L U].
  split; [split; assumption|].
  intros q t fb isFb s. unfold turnScore. cbn [raw_criteria].
  pose proof (penalty_nonneg t) as Hp.
  pose proof (gap_penalty_nonneg (targetSkill q) (detectedSkillGaps s)) as Hg.
  destruct (finalScoreOf_spec
              (LogicCore.calculateScore c)
              (LogicCore.penalty (LogicCore.calculateTimeLogic t))
              (LogicCore.gap_penalty
                 (LogicCore.checkSkillGap (targetSkill q)
                                          (detectedSkillGaps s))))
    as [A B].
  split; [exact A|]. specialize (B Hp Hg).
  assert (I : Double.number (LogicCore.calculateScore c)
              == LogicCore.calculateScore c)
    by (unfold LogicCore.calculateScore; apply number_idem).
  rewrite I in B. apply Qle_trans with (1 := B). apply Q.max_lub; lra.
Qed.

Lemma scores_stay_in_range_witness :
  0 <= LogicCore.calculateScore
         {| accuracy := 7.5; clarity := 10; depth := 0; relevance := 3.3 |}
  /\ LogicCore.calculateScore
       {| accuracy := 7.5; clarity := 10; depth := 0; relevance := 3.3 |} <= 10.
Proof.
  assert (H : Audit.in_range
                {| accuracy := 7.5; clarity := 10; depth := 0;
                   relevance := 3.3 |})
    by (unfold Audit.in_range; cbn; repeat split; discriminate).
  exact (proj1 (scores_stay_in_range _ H)).
Defined.

End Range.

(** ** The audit log *)

Section AuditLog.
Import INTERVIEW_POLICY InterviewEngine Session.

Lemma removelast_length {A} (l : list A) :
  List.length (removelast l) = Nat.pred (List.length l).
Proof.
  induction l as [|a [|b r] IH]; [reflexivity|reflexivity|].
  change (removelast (a :: b :: r)) with (a :: removelast (b :: r)).
  cbn [List.length] in *. rewrite IH. reflexivity.
Qed.

Lemma removelast_firstn {A} (l : list A) :
  removelast l = firstn (Nat.pred (List.length l)) l.
Proof.
  induction l as [|a [|b r] IH]; [reflexivity|reflexivity|].
  change (removelast (a :: b :: r)) with (a :: removelast (b :: r)).
  rewrite IH. reflexivity.
Qed.

(** [log] puts the new line first and keeps the newest 200. *)
Lemma log_keeps_newest m s :
  (List.length (logs s) <= 200)%nat ->
  logs (log m s) = firstn 200 (m :: logs s).
Proof.
  intros H. unfold log. cbn [logs set_logs].
  destruct (Nat.ltb_spec 200 (List.length (m :: logs s))) as [G|G].
  - rewrite removelast_firstn. cbn [List.length] in *.
    replace (List.length (logs s)) with 200%nat by lia. reflexivity.
  - symmetry. apply firstn_all2. exact G.
Qed.

Lemma log_stays_bounded m s :
  (1 <= List.length (logs s) <= 200)%nat ->
  (1 <= List.length (logs (log m s)) <= 200)%nat.
Proof.
  intros H. rewrite log_keeps_newest by lia.
  rewrite length_firstn. cbn [List.length]. lia.
Qed.

Ltac through_logs :=
  repeat first
    [ assumption
    | apply log_stays_bounded
    | progress cbn [logs set_status set_currentDifficulty set_evaluationMode
                    set_activeQuestion set_turns set_scoreHistory
                    set_consecutiveWeakAnswers set_timeViolations
                    set_detectedSkillGaps set_difficultyCeiling
                    set_terminationReason fst snd]
    | match goal with
      | |- context [logs (if ?b then _ else _)] => destruct b
      | |- context [logs (match ?o with Some _ => _ | None => _ end)] =>
          destruct o
      | |- context [logs (let '(_, _) := (if ?b then _ else _) in _)] =>
          destruct b
      end ].

Lemma applyPolicy_log_bounded q a t raw s :
  Audit.log_bounded s -> Audit.log_bounded (applyPolicy q a t raw s).
Proof.
  unfold Audit.log_bounded. intros H.
  unfold applyPolicy, strikeSystem. cbv zeta. through_logs.
Qed.

Lemma conclude_log_bounded s :
  Audit.log_bounded s -> Audit.log_bounded (conclude s).
Proof.
  unfold Audit.log_bounded. intros H.
  unfold conclude, checkTermination, terminate. cbv zeta. through_logs.
Qed.

Lemma initializeSession_log_bounded jd resume s :
  Audit.log_bounded s ->
  Audit.log_bounded (final (initializeSession jd resume s)).
Proof.
  unfold Audit.log_bounded. intros H.
  unfold initializeSession. cbv zeta. unfold notify_last. rewrite final_mk.
  through_logs.
Qed.

Lemma observable_log_bounded s : observable s -> Audit.log_bounded s.
Proof.
  apply observable_invariant.
  - unfold Audit.log_bounded. cbn. lia.
  - intros m s0. apply log_stays_bounded.
  - intros m s0 H. exact H.
  - intros s0 H. apply log_stays_bounded. exact H.
  - apply initializeSession_log_bounded.
  - intros s0 H. exact H.
  - intros q s0 H. apply log_stays_bounded. exact H.
  - intros t s0 _ H. apply log_stays_bounded. exact H.
  - intros q a t raw s0 H. apply conclude_log_bounded, applyPolicy_log_bounded, H.
Qed.

(** X4.  In every observable state the audit log holds between 1 and 200
    lines; logging one more line puts it first and keeps the newest 200, so
    only the oldest line is ever dropped. *)
Theorem audit_log_is_capped s :
  observable s ->
  (1 <= List.length (logs s) <= 200)%nat
  /\ forall m, logs (log m s) = firstn 200 (m :: logs s).
Proof.
  intros H. pose proof (observable_log_bounded s H) as B.
  split; [exact B|]. intros m. apply log_keeps_newest. apply B.
Qed.

Lemma audit_log_is_capped_witness :
  observable Sample.capped_state
  /\ (1 <= List.length (logs Sample.capped_state) <= 200)%nat.
Proof.
  assert (Ho : observable Sample.capped_state)
    by (exists Sample.capped_session; left; reflexivity).
  split; [exact Ho|]. exact (proj1 (audit_log_is_capped _ Ho)).
Defined.

End AuditLog.

(** ** The skill-gap penalty *)

Section GapPenalty.
Import INTERVIEW_POLICY LogicCore.







End GapPenalty.

(** ** The guards of submitAnswer *)

Section Guards.
Import INTERVIEW_POLICY InterviewEngine.




End Guards.

(** ** What only [reset] undoes *)

Section Growth.
Import INTERVIEW_POLICY InterviewEngine Session.

Lemma grows_same s s' :
  ledger s' = ledger s -> evaluationMode s' = evaluationMode s ->
  Trend.grows s s'.
Proof.
  unfold ledger, Trend.grows. intros L M.
  injection L as _ L2 _ _ L5 _ L7 _. rewrite L2, L5, L7, M.
  split; [exists []; rewrite app_nil_r; split; [reflexivity|cbn; lia]|].
  split; [lia|]. auto.
Qed.

Lemma grows_refl s : Trend.grows s s.
Proof. apply grows_same; reflexivity. Qed.

Lemma grows_initializeSession jd resume s :
  Trend.grows s (final (initializeSession jd resume s)).
Proof.
  destruct (initializeSession_keeps jd resume s) as (_ & T & _ & _ & V & _ & M & _).
  unfold Trend.grows. rewrite T, V, M.
  split; [exists []; rewrite app_nil_r; split; [reflexivity|cbn; lia]|].
  split; [lia|]. split; [|auto].
  unfold initializeSession. cbv zeta. unfold notify_last. rewrite final_mk.
  match goal with |- context [JS.lt ?a ?b] => destruct (JS.lt a b) end.
  - intros _. discriminate.
  - intros H. exact H.
Qed.

Lemma turn_mode q a t raw s :
  evaluationMode (conclude (applyPolicy q a t raw s)) = evaluationMode s.
Proof.
  pose proof (applyPolicy_fields q a t raw s) as A. cbv zeta in A.
  pose proof (conclude_fields (applyPolicy q a t raw s)) as C. cbv zeta in C.
  destruct A as (_ & A2 & _). destruct C as (_ & _ & _ & C4 & _).
  rewrite C4. exact A2.
Qed.

Lemma grows_after_turn q a t raw s s1 :
  ledger s1 = ledger s ->
  (evaluationMode s = FALLBACK_RULE_BASED ->
   evaluationMode s1 = FALLBACK_RULE_BASED) ->
  Trend.grows s (conclude (applyPolicy q a t raw s1)).
Proof.
  intros L M.
  pose proof (turn_effect q a t raw s s1 L) as E. cbv zeta in E.
  destruct E as (_ & _ & _ & E4 & _ & E6 & _ & _ & _ & E10).
  unfold Trend.grows. rewrite E4, E6, E10, turn_mode.
  split; [eexists; split; [reflexivity|cbn; lia]|].
  split; [destruct (LogicCore.isViolation _); lia|]. auto.
Qed.

Lemma submit_resume_shape p result s :
  exists s1,
    ledger s1 = ledger s
    /\ (raw_isFallback result = Some true ->
        evaluationMode s1 = FALLBACK_RULE_BASED)
    /\ (raw_isFallback result <> Some true ->
        evaluationMode s1 = evaluationMode s)
    /\ (evaluationMode s = FALLBACK_RULE_BASED -> s1 = s)
    /\ final (submit_resume p result s)
       = conclude (applyPolicy (pend_question p) (pend_answer p) (pend_time p)
                               result s1).
Proof.
  unfold submit_resume. cbv zeta. unfold notify_last. rewrite final_mk.
  destruct (bool_decide (raw_isFallback result = Some true)) eqn:B;
    [apply bool_decide_eq_true in B | apply bool_decide_eq_false in B].
  - destruct (bool_decide (evaluationMode s = FALLBACK_RULE_BASED)) eqn:M;
      [apply bool_decide_eq_true in M | apply bool_decide_eq_false in M];
      cbn [andb negb].
    + exists s. repeat split; auto.
    + eexists. split; [|split; [|split; [|split; [|reflexivity]]]].
      * reflexivity.
      * reflexivity.
      * intros N. contradiction.
      * intros N. contradiction.
  - cbn [andb]. exists s. repeat split; auto. intros N. contradiction.
Qed.

(** X7.  A call other than [reset] never takes anything back: the turns
    recorded before are still there, in order, with at most one more; the
    count of time violations has not gone down and has gone up by at most
    one; a difficulty ceiling that was set is still set; and fallback mode,
    once on, is still on. *)
Theorem only_reset_forgets c w :
  Audit.keeps_session c = true ->
  Trend.grows (live w) (live (fst (exec c w))).
Proof.
  intros Hc. destruct c as [| jd resume | | q | q | ans t | | i result];
    cbn [exec settle fst snd live]; try discriminate Hc.
  - apply grows_same; reflexivity.
  - apply grows_initializeSession.
  - apply grows_same; reflexivity.
  - unfold startInterview.
    destruct (negb (bool_decide (status (live w) = IDLE)) &&
              negb (bool_decide (status (live w) = GENERATING)));
      apply grows_same; reflexivity.
  - apply grows_same; reflexivity.
  - unfold submit_begin. cbv zeta.
    destruct (activeQuestion (live w)) as [q|]; [|apply grows_refl].
    destruct (bool_decide (status (live w) = INTERVIEWING)); cbn [negb];
      [|apply grows_refl].
    destruct (preFilter ans t) as [[line raw]|]; cbn [fst snd live settle].
    + rewrite final_mk. apply grows_after_turn; [reflexivity|auto].
    + apply grows_same; reflexivity.
  - destruct (nth_error (suspended w) i) as [p|]; cbn [fst snd live];
      [|apply grows_refl].
    destruct (submit_resume_shape p result (live w)) as (s1 & L & _ & _ & K & F).
    rewrite F. apply grows_after_turn; [exact L|].
    intros M. rewrite (K M). exact M.
Qed.

Lemma only_reset_forgets_witness :
  Trend.grows
    (live (fst (run Sample.evaluating_session start)))
    (live (fst (exec (Resolve 0 (Sample.strong_evaluator Sample.closures
                                                          Sample.goodAnswer))
                     (fst (run Sample.evaluating_session start))))).
Proof.
  exact (only_reset_forgets
           (Resolve 0 (Sample.strong_evaluator Sample.closures Sample.goodAnswer))
           (fst (run Sample.evaluating_session start)) eq_refl).
Defined.

(** X8.  Fallback mode is switched on by the evaluator's own flag and by
    nothing else: a result flagged as a fallback leaves the session in
    fallback mode, any other result leaves the mode as it was, and an
    answer settled by the filters leaves the mode as it was although its
    turn is flagged as a fallback.  In a session already in fallback mode
    the switch and its log line are skipped. *)
Theorem mode_follows_evaluator :
  (forall p result s,
      raw_isFallback result = Some true ->
      evaluationMode (final (submit_resume p result s)) = FALLBACK_RULE_BASED)
  /\ (forall p result s,
         raw_isFallback result <> Some true ->
         evaluationMode (final (submit_resume p result s)) = evaluationMode s)
  /\ (forall ans t s o,
         submit_begin ans t s = Finished o ->
         evaluationMode (final o) = evaluationMode s)
  /\ (forall p result s,
         evaluationMode s = FALLBACK_RULE_BASED ->
         final (submit_resume p result s)
         = conclude (applyPolicy (pend_question p) (pend_answer p)
                                 (pend_time p) result s)).
Proof.
  split; [|split; [|split]].
  - intros p result s H.
    destruct (submit_resume_shape p result s) as (s1 & _ & M & _ & _ & F).
    rewrite F, turn_mode. exact (M H).
  - intros p result s H.
    destruct (submit_resume_shape p result s) as (s1 & _ & _ & M & _ & F).
    rewrite F, turn_mode. exact (M H).
  - intros ans t s o. unfold submit_begin. cbv zeta.
    destruct (activeQuestion s) as [q|]; [|discriminate].
    destruct (bool_decide (status s = INTERVIEWING)); cbn [negb]; [|discriminate].
    destruct (preFilter ans t) as [[line raw]|]; [|discriminate].
    intros H. injection H as <-. rewrite final_mk, turn_mode. reflexivity.
  - intros p result s H.
    destruct (submit_resume_shape p result s) as (s1 & _ & _ & _ & K & F).
    rewrite F, (K H). reflexivity.
Qed.

Lemma mode_follows_evaluator_witness :
  evaluationMode
    (final (submit_resume
              {| pend_question := Sample.closures;
                 pend_answer := Sample.goodAnswer;
                 pend_time := 30 |}
              (FallbackRegistry.evaluate Sample.closures Sample.goodAnswer)
              Sample.evaluating_state))
  = FALLBACK_RULE_BASED.
Proof.
  destruct mode_follows_evaluator as (H & _). apply H. reflexivity.
Defined.

End Growth.

(** ** How far a turn moves the difficulty *)

Section Steps.
Import INTERVIEW_POLICY InterviewEngine Session.

Lemma clamp_adapt_adjacent current score ceiling :
  (forall cap, ceiling = Some cap ->
               (Spec.rank current <= Spec.rank cap)%nat) ->
  Trend.adjacent current (Spec.clamp ceiling (Spec.adapt current score)).
Proof.
  intros H. unfold Trend.adjacent, Spec.adapt.
  destruct ceiling as [cap|].
  - specialize (H cap eq_refl).
    destruct (Qle_bool SCORING.STRONG_SCORE score);
      [|destruct (Qle_bool score SCORING.WEAK_SCORE)];
      destruct current, cap; cbn in *; lia.
  - destruct (Qle_bool SCORING.STRONG_SCORE score);
      [|destruct (Qle_bool score SCORING.WEAK_SCORE)];
      destruct current; cbn; lia.
Qed.

(** X9.  From an observable state a completed submission moves the
    current difficulty by at most one level, up or down, and never above a
    ceiling that is set; the turn it records carries the difficulty before
    and after. *)
Theorem difficulty_moves_one_level ev ans t s o calls :
  observable s ->
  submitAnswer ev ans t s = SubmitDone o calls ->
  Trend.adjacent (currentDifficulty s) (currentDifficulty (final o))
  /\ (forall cap,
         difficultyCeiling s = Some cap ->
         (Spec.rank (currentDifficulty (final o)) <= Spec.rank cap)%nat)
  /\ exists turn,
       turns (final o) = (turns s ++ [turn])%list
       /\ difficultyBefore turn = currentDifficulty s
       /\ difficultyAfter turn = currentDifficulty (final o).
Proof.
  intros Ho H.
  destruct (submitAnswer_done _ _ _ _ _ _ H) as (q & s1 & _ & _ & L & F & _).
  pose proof (turn_effect q ans t (evaluationOf ev q ans t) s s1 L) as E.
  cbv zeta in E. rewrite <- F in E.
  destruct E as (_ & _ & _ & _ & E5 & _ & _ & _ & _ & E10).
  pose proof (observable_capped s Ho) as C.
  rewrite E5, nextDifficulty_spec. split; [|split].
  - apply clamp_adapt_adjacent. intros cap Hc. apply (C cap Hc).
  - intros cap Hc. rewrite Hc. apply clamp_below.
  - eexists. split; [exact E10|]. split; [reflexivity|].
    cbn [difficultyAfter makeTurn]. apply nextDifficulty_spec.
Qed.

Lemma difficulty_moves_one_level_witness :
  exists o calls,
    submitAnswer Sample.strong_evaluator Sample.goodAnswer 30 Sample.asked
    = SubmitDone o calls
    /\ Trend.adjacent (currentDifficulty Sample.asked)
                      (currentDifficulty (final o)).
Proof.
  set (r := submitAnswer Sample.strong_evaluator Sample.goodAnswer 30 Sample.asked).
  assert (Hr : r = SubmitDone (Sample.outcome_of r) (Sample.calls_of r))
    by (vm_compute; reflexivity).
  assert (Ho : observable Sample.asked).
  { exists [CallPresentQuestion Sample.closures]. left. reflexivity. }
  exists (Sample.outcome_of r), (Sample.calls_of r). split; [exact Hr|].
  exact (proj1 (difficulty_moves_one_level _ _ _ _ _ _ Ho Hr)).
Defined.

End Steps.

(** ** The fallback evaluator as a scorer *)

Section FallbackScores.
Import INTERVIEW_POLICY InterviewEngine FallbackRegistry.

Lemma heuristic_floor hits isShort :
  FALLBACK_SCORING.BASE_SCORE <= heuristic hits isShort.
Proof.
  unfold heuristic, FALLBACK_SCORING.BASE_SCORE, FALLBACK_SCORING.MAX_SCORE,
    FALLBACK_SCORING.KEYWORD_MATCH_VALUE, FALLBACK_SCORING.LENGTH_BONUS.
  assert (H : 0 <= inject_Z (Z.of_nat hits)).
  { change 0 with (inject_Z 0). rewrite <- Zle_Qle. lia. }
  apply Q.min_glb; [|discriminate].
  destruct isShort; cbn [negb]; lra.
Qed.

Lemma fallback_base_range q answer :
  4 <= LogicCore.calculateScore (raw_criteria (evaluate q answer))
  /\ LogicCore.calculateScore (raw_criteria (evaluate q answer)) <= 7.3.
Proof.
  unfold evaluate. cbv zeta. cbn [raw_criteria].
  set (hits := fst (scan_keywords (JS.toLowerCase answer) (expectedKeywords q))).
  set (short := (String.length answer <? FALLBACK_SCORING.LENGTH_THRESHOLD_CHARS)%nat).
  pose proof (accuracy_is_heuristic hits short) as A.
  pose proof (heuristic_capped hits short) as C.
  pose proof (heuristic_floor hits short) as F.
  unfold FALLBACK_SCORING.MAX_SCORE, FALLBACK_SCORING.BASE_SCORE in *.
  set (c := {| accuracy := _; clarity := _; depth := _; relevance := _ |}).
  assert (S : Spec.on_scale c).
  { unfold Spec.on_scale, c. cbn [accuracy clarity depth relevance].
    destruct short; destruct (0 <? hits)%nat; repeat split; lra. }
  assert (W : 4 <= Spec.weighted_sum c /\ Spec.weighted_sum c <= 7.3).
  { unfold Spec.weighted_sum, c. cbn [accuracy clarity depth relevance].
    destruct short; destruct (0 <? hits)%nat; split; lra. }
  destruct W as [W1 W2].
  destruct (calculateScore_between c 4 7.3 S W1 W2) as [L U].
  assert (E4 : Double.number (JS.toFixed 2 (4 - (1 # 10000000000000))) = 4)
    by (vm_compute; reflexivity).
  assert (E7 : Double.number (JS.toFixed 2 (7.3 + (1 # 10000000000000))) <= 7.3)
    by (vm_compute; discriminate).
  rewrite E4 in L. split; [exact L|]. apply Qle_trans with (2 := E7). exact U.
Qed.

(** X10.  Whatever the question and the answer, the base score of a
    fallback evaluation lies between 4.0 and 7.3.  So a turn scored by the
    fallback evaluator is never strong: its final score stays below 8.0 and
    the difficulty does not go up. *)
Theorem fallback_never_escalates q answer :
  (4 <= LogicCore.calculateScore (raw_criteria (evaluate q answer))
   /\ LogicCore.calculateScore (raw_criteria (evaluate q answer)) <= 7.3)
  /\ forall asked t s current ceiling,
       turnScore asked t (evaluate q answer) s < 8
       /\ (Spec.rank (LogicCore.nextDifficulty current
                        (turnScore asked t (evaluate q answer) s) ceiling)
           <= Spec.rank current)%nat.
Proof.
  pose proof (fallback_base_range q answer) as [L U].
  split; [split; assumption|].
  intros asked t s current ceiling.
  assert (B : turnScore asked t (evaluate q answer) s < 8).
  { unfold turnScore.
    pose proof (penalty_nonneg t) as Hp.
    pose proof (gap_penalty_nonneg (targetSkill asked) (detectedSkillGaps s)) as Hg.
    destruct (finalScoreOf_spec
                (LogicCore.calculateScore (raw_criteria (evaluate q answer)))
                (LogicCore.penalty (LogicCore.calculateTimeLogic t))
                (LogicCore.gap_penalty
                   (LogicCore.checkSkillGap (targetSkill asked)
                                            (detectedSkillGaps s))))
      as [_ B].
    specialize (B Hp Hg).
    assert (I : Double.number
                  (LogicCore.calculateScore (raw_criteria (evaluate q answer)))
                == LogicCore.calculateScore (raw_criteria (evaluate q answer)))
      by (unfold LogicCore.calculateScore; apply number_idem).
    rewrite I in B. apply Qle_lt_trans with (1 := B).
    apply Q.max_lub_lt; lra. }
  split; [exact B|].
  rewrite nextDifficulty_spec. unfold Spec.adapt, SCORING.STRONG_SCORE.
  assert (N : Qle_bool 8.0 (turnScore asked t (evaluate q answer) s) = false).
  { apply Qle_bool_false. lra. }
  rewrite N.
  destruct (Qle_bool _ SCORING.WEAK_SCORE); destruct current;
    destruct ceiling as [[]|]; cbn; lia.
Qed.

End FallbackScores.

(** ** The skill-gap analysis *)

Section GapAnalysis.
Import INTERVIEW_POLICY InterviewEngine.

Lemma missing_iff resume sk :
  missing (list_to_set (map (fun k => JS.trim (JS.toLowerCase (skill_name k)))
                            (skills resume)))
          sk = true
  <-> Gaps.absent resume sk.
Proof.
  unfold missing, Gaps.absent, Gaps.normal.
  rewrite negb_true_iff, bool_decide_eq_false, elem_of_list_to_set.
  rewrite list_elem_of_In, in_map_iff. split.
  - intros H k Hk E. apply H. exists k. auto.
  - intros H (k & E & Hk). exact (H k Hk E).
Qed.

Lemma gaps_of_In resume t required g :
  In g (gaps_of (list_to_set (map (fun k => JS.trim (JS.toLowerCase (skill_name k)))
                                  (skills resume)))
                t required)
  <-> gap_type g = t /\ In (skill g) required /\ Gaps.absent resume (skill g).
Proof.
  unfold gaps_of. rewrite in_map_iff. split.
  - intros (sk & <- & H). apply filter_In in H as [H1 H2].
    cbn [skill gap_type]. apply missing_iff in H2. auto.
  - intros (Ht & Hr & Ha). exists (skill g). split.
    + destruct g as [sk ty]. cbn in *. congruence.
    + apply filter_In. split; [exact Hr|]. apply missing_iff. exact Ha.
Qed.

Lemma primary_gaps_app resume jd :
  let set := list_to_set (map (fun k => JS.trim (JS.toLowerCase (skill_name k)))
                              (skills resume)) in
  Gaps.primary_gaps (gaps_of set PRIMARY (primarySkills jd)
                     ++ gaps_of set SECONDARY (secondarySkills jd))
  = gaps_of set PRIMARY (primarySkills jd).
Proof.
  cbv zeta. unfold Gaps.primary_gaps. rewrite List.filter_app.
  set (st := list_to_set _).
  assert (P : forall l, List.filter
                          (fun g => match gap_type g with
                                    | PRIMARY => true | SECONDARY => false end)
                          (gaps_of st PRIMARY l) = gaps_of st PRIMARY l).
  { unfold gaps_of. induction l as [|a r IH]; [reflexivity|]. cbn [List.filter].
    destruct (missing st a); cbn [map List.filter gap_type]; [rewrite IH|]; auto. }
  assert (S : forall l, List.filter
                          (fun g => match gap_type g with
                                    | PRIMARY => true | SECONDARY => false end)
                          (gaps_of st SECONDARY l) = []).
  { unfold gaps_of. induction l as [|a r IH]; [reflexivity|]. cbn [List.filter].
    destruct (missing st a); cbn [map List.filter gap_type]; auto. }
  rewrite P, S. apply app_nil_r.
Qed.

Lemma match_rate_low (count miss : nat) :
  (0 < count)%nat -> (miss <= count)%nat ->
  JS.lt ((inject_Z (Z.of_nat count) - inject_Z (Z.of_nat miss))
         / inject_Z (Z.of_nat count))
        DIFFICULTY.CRITICAL_GAP_MATCH_THRESHOLD
  = (2 * count <? 5 * miss)%nat.
Proof.
  intros Hc Hm. unfold DIFFICULTY.CRITICAL_GAP_MATCH_THRESHOLD.
  set (c := inject_Z (Z.of_nat count)). set (m := inject_Z (Z.of_nat miss)).
  assert (Cpos : 0 < c).
  { unfold c. change 0 with (inject_Z 0). rewrite <- Zlt_Qlt. lia. }
  apply eq_true_iff_eq. rewrite lt_iff, Nat.ltb_lt. split.
  - intros H. apply (Qmult_lt_compat_r _ _ c) in H; [|exact Cpos].
    assert (E : (c - m) / c * c == c - m) by (field; lra).
    rewrite E in H.
    assert (G : inject_Z (Z.of_nat (2 * count)) < inject_Z (Z.of_nat (5 * miss))).
    { rewrite !Nat2Z.inj_mul, !inject_Z_mult. fold c m.
      change (inject_Z (Z.of_nat 2)) with 2. change (inject_Z (Z.of_nat 5)) with 5.
      lra. }
    rewrite <- Zlt_Qlt in G. lia.
  - intros H.
    assert (G : inject_Z (Z.of_nat (2 * count)) < inject_Z (Z.of_nat (5 * miss))).
    { rewrite <- Zlt_Qlt. lia. }
    rewrite !Nat2Z.inj_mul, !inject_Z_mult in G. fold c m in G.
    change (inject_Z (Z.of_nat 2)) with 2 in G.
    change (inject_Z (Z.of_nat 5)) with 5 in G.
    apply Qlt_shift_div_r; [exact Cpos|]. lra.
Qed.

Lemma initializeSession_analysis jd resume s :
  let set := list_to_set (map (fun k => JS.trim (JS.toLowerCase (skill_name k)))
                              (skills resume)) in
  let r := final (initializeSession jd resume s) in
  detectedSkillGaps r
  = (gaps_of set PRIMARY (primarySkills jd)
     ++ gaps_of set SECONDARY (secondarySkills jd))%list
  /\ currentDifficulty r = default Easy (DIFFICULTY.INITIAL (complexityLevel jd))
  /\ difficultyCeiling r
     = (if (2 * List.length (primarySkills jd)
            <? 5 * List.length (gaps_of set PRIMARY (primarySkills jd)))%nat
        then Some DIFFICULTY.CAP_LEVEL else difficultyCeiling s).
Proof.
  cbv zeta. set (st := list_to_set _).
  unfold initializeSession. cbv zeta. fold st. unfold notify_last. rewrite final_mk.
  set (count := List.length (primarySkills jd)).
  set (miss := List.length (gaps_of st PRIMARY (primarySkills jd))).
  assert (Hm : (miss <= count)%nat).
  { unfold miss, count, gaps_of. rewrite length_map. apply filter_length_le. }
  destruct (Nat.ltb_spec 0 count) as [Hc|Hc].
  - rewrite (match_rate_low count miss Hc Hm).
    destruct (2 * count <? 5 * miss)%nat; repeat split; reflexivity.
  - assert (Z0 : (2 * count <? 5 * miss)%nat = false)
      by (apply Nat.ltb_ge; lia).
    rewrite Z0. repeat split; reflexivity.
Qed.

(** X12.  [initializeSession] reports as gaps exactly the required skills
    that no skill of the candidate matches (compared in lower case and
    trimmed), the primary ones first; it starts a Senior role at Medium and
    any other at Easy; it sets the ceiling to Medium when fewer than 60% of
    the primary skills are matched, that is when 5 times the missing ones
    exceed 2 times their number, and otherwise leaves the ceiling as it
    was; and it leaves the session in status IDLE with its turns
    untouched. *)
Theorem gap_analysis jd resume s :
  let r := final (initializeSession jd resume s) in
  (forall g,
      In g (detectedSkillGaps r)
      <-> In (skill g) (Gaps.required jd (gap_type g))
          /\ Gaps.absent resume (skill g))
  /\ (exists first rest,
         detectedSkillGaps r = (first ++ rest)%list
         /\ Forall (fun g => gap_type g = PRIMARY) first
         /\ Forall (fun g => gap_type g = SECONDARY) rest)
  /\ currentDifficulty r
     = match complexityLevel jd with Senior => Medium | _ => Easy end
  /\ difficultyCeiling r
     = (if (2 * List.length (primarySkills jd)
            <? 5 * List.length (Gaps.primary_gaps (detectedSkillGaps r)))%nat
        then Some Medium else difficultyCeiling s)
  /\ status r = IDLE
  /\ turns r = turns s.
Proof.
  cbv zeta.
  destruct (initializeSession_analysis jd resume s) as (G & D & C). cbv zeta in *.
  destruct (initializeSession_keeps jd resume s) as (St & T & _).
  set (st := list_to_set _) in *.
  split; [|split; [|split; [|split; [|split]]]].
  - intros g. rewrite G, in_app_iff. unfold st. rewrite !gaps_of_In.
    destruct (gap_type g); cbn [Gaps.required]; split.
    + intros [(_ & H)|(H & _)]; [exact H|discriminate].
    + intros H. left. split; [reflexivity|exact H].
    + intros [(H & _)|(_ & H)]; [discriminate|exact H].
    + intros H. right. split; [reflexivity|exact H].
  - eexists. eexists. split; [exact G|]. split.
    + apply List.Forall_forall. intros g Hg. unfold st in Hg.
      apply gaps_of_In in Hg. apply Hg.
    + apply List.Forall_forall. intros g Hg. unfold st in Hg.
      apply gaps_of_In in Hg. apply Hg.
  - rewrite D. destruct (complexityLevel jd); reflexivity.
  - rewrite C, G. unfold st. rewrite (primary_gaps_app resume jd). reflexivity.
  - exact St.
  - exact T.
Qed.

End GapAnalysis.

(** ** The application's clock *)

Section Clock.
Import INTERVIEW_POLICY InterviewEngine.

Lemma tick_comp x y : x == y -> App.tick x == App.tick y.
Proof.
  intros E. unfold App.tick.
  assert (B : Qle_bool x 1 = Qle_bool y 1).
  { apply eq_true_iff_eq. rewrite !Qle_bool_iff, E. tauto. }
  rewrite B. destruct (Qle_bool y 1); [reflexivity|]. rewrite E. reflexivity.
Qed.

Lemma countdown_comp n : forall x y, x == y -> App.countdown n x == App.countdown n y.
Proof.
  induction n as [|n IH]; intros x y E; cbn [App.countdown]; [exact E|].
  apply IH, tick_comp, E.
Qed.

Lemma tick_int (z : Z) :
  (0 <= z)%Z -> App.tick (inject_Z z) == inject_Z (Z.max 0 (z - 1)).
Proof.
  intros Hz. unfold App.tick.
  destruct (Qle_bool (inject_Z z) 1) eqn:B.
  - apply Qle_bool_iff in B. change 1 with (inject_Z 1) in B.
    rewrite <- Zle_Qle in B. rewrite Z.max_l by lia. reflexivity.
  - apply Qle_bool_false in B. change 1 with (inject_Z 1) in B.
    rewrite <- Zlt_Qlt in B. rewrite Z.max_r by lia.
    unfold Z.sub. rewrite inject_Z_plus. reflexivity.
Qed.

(** The countdown shows the whole seconds left, and stops at 0. *)
Lemma countdown_closed n : forall z : Z,
  (0 <= z)%Z ->
  App.countdown n (inject_Z z) == inject_Z (Z.max 0 (z - Z.of_nat n)).
Proof.
  induction n as [|n IH]; intros z Hz.
  - cbn [App.countdown]. rewrite Z.max_r by lia.
    replace (z - Z.of_nat 0)%Z with z by lia. reflexivity.
  - cbn [App.countdown]. rewrite (countdown_comp n _ _ (tick_int z Hz)).
    rewrite IH by lia. apply inject_Z_injective. lia.
Qed.

Lemma manual_time ticks :
  App.manualTimeTaken 60 (App.countdown ticks 60)
  == inject_Z (Z.min 60 (Z.of_nat ticks)).
Proof.
  unfold App.manualTimeTaken.
  pose proof (countdown_closed ticks 60 ltac:(lia)) as C.
  change (inject_Z 60) with 60 in C.
  assert (E : 60 - App.countdown ticks 60
              == inject_Z (Z.min 60 (Z.of_nat ticks))).
  { rewrite C. destruct (Z.le_ge_cases 60 (Z.of_nat ticks)) as [H|H].
    - rewrite Z.max_l, Z.min_l by lia. reflexivity.
    - rewrite Z.max_r, Z.min_r by lia.
      unfold Z.sub. rewrite inject_Z_plus, inject_Z_opp.
      change (inject_Z 60) with 60. ring. }
  rewrite Q.max_r; [exact E|]. rewrite E.
  change 0 with (inject_Z 0). rewrite <- Zle_Qle. lia.
Qed.

Lemma timeLogic_comp x y :
  x == y -> x <= 60 ->
  LogicCore.calculateTimeLogic y
  = {| LogicCore.penalty := 0; LogicCore.isViolation := false |}.
Proof. intros E H. apply timeLogic_within. rewrite <- E. exact H. Qed.

(** X13.  The time the application submits is never above the limit: a
    manual submission sends the whole seconds the countdown has run, at
    most 60, and the timeout sends 60.  So no submission made through the
    application is charged a time penalty or counted as a time violation.
    The filters of [submitAnswer] settle a manual answer as empty when it
    is white space only, whatever its length and the time; an answer that
    is not is settled as spam exactly when it has more than 5 characters
    and the countdown has ticked less than twice, and goes to the
    evaluator otherwise. *)
Theorem app_time_within_limit ticks :
  timeLimitPerQuestion (config getInitialState) = 60
  /\ App.manualTimeTaken 60 (App.countdown ticks 60)
     == inject_Z (Z.min 60 (Z.of_nat ticks))
  /\ LogicCore.calculateTimeLogic
       (App.manualTimeTaken 60 (App.countdown ticks 60))
     = {| LogicCore.penalty := 0; LogicCore.isViolation := false |}
  /\ LogicCore.calculateTimeLogic TIMING.LIMIT_SEC
     = {| LogicCore.penalty := 0; LogicCore.isViolation := false |}
  /\ forall answerText,
       preFilter answerText (App.manualTimeTaken 60 (App.countdown ticks 60))
       = if Spec.whitespace_only answerText
         then Some (LogEmptyAnswer 0,
                    zero_evaluation 0 "Automatic Failure: No answer provided.")
         else if (ticks <? 2)%nat && (5 <? String.length answerText)%nat
              then Some (LogSpam
                           (App.manualTimeTaken 60 (App.countdown ticks 60)),
                         zero_evaluation 0
                           "Automatic Failure: Response time impossibly fast (Spam detection).")
              else None.
Proof.
  pose proof (manual_time ticks) as M.
  assert (U : App.manualTimeTaken 60 (App.countdown ticks 60) <= 60).
  { rewrite M. change 60 with (inject_Z 60). rewrite <- Zle_Qle. lia. }
  split; [reflexivity|].
  split; [exact M|]. split; [apply timeLogic_within, U|].
  split; [reflexivity|].
  intros answerText. unfold preFilter.
  assert (E : is_empty_answer answerText = Spec.whitespace_only answerText)
    by (apply eq_true_iff_eq, is_empty_answer_iff).
  assert (S : is_spam_answer answerText
                (App.manualTimeTaken 60 (App.countdown ticks 60))
              = (ticks <? 2)%nat && (5 <? String.length answerText)%nat).
  { unfold is_spam_answer. f_equal.
    apply eq_true_iff_eq. rewrite lt_iff, Nat.ltb_lt.
    unfold TIMING.MIN_ANSWER_TIME_MS. rewrite M.
    assert (K : inject_Z (Z.min 60 (Z.of_nat ticks)) * 1000 < 2000
                <-> inject_Z (Z.min 60 (Z.of_nat ticks)) < inject_Z 2).
    { change (inject_Z 2) with 2. split; intros H; lra. }
    rewrite K, <- Zlt_Qlt. lia. }
  rewrite E, S. reflexivity.
Qed.

End Clock.

(** ** The final average *)

Section Average.
Import INTERVIEW_POLICY InterviewEngine.

(** A double between two whole numbers below [2^53] stays between them
    when it is rounded. *)
Lemma number_between (lo hi : Z) x :
  (Z.abs lo < 2 ^ 53)%Z -> (Z.abs hi < 2 ^ 53)%Z ->
  inject_Z lo <= x -> x <= inject_Z hi ->
  inject_Z lo <= Double.number x /\ Double.number x <= inject_Z hi.
Proof.
  intros Hlo Hhi L U.
  rewrite <- (number_Z lo Hlo), <- (number_Z hi Hhi).
  split; apply number_mono; assumption.
Qed.

(** The running sum of scores between [lo] and [hi], as the doubles add
    them, stays between the multiples of [lo] and [hi]. *)
Lemma fold_add_bounds (lo hi : Z) (h : list Q) :
  Forall (fun x => inject_Z lo <= x /\ x <= inject_Z hi) h ->
  forall (k : Z) acc,
    (0 <= k)%Z ->
    ((k + Z.of_nat (List.length h)) * (1 + Z.abs lo + Z.abs hi) < 2 ^ 53)%Z ->
    inject_Z (k * lo) <= acc -> acc <= inject_Z (k * hi) ->
    inject_Z ((k + Z.of_nat (List.length h)) * lo)
    <= fold_left Double.add h acc
    /\ fold_left Double.add h acc
       <= inject_Z ((k + Z.of_nat (List.length h)) * hi).
Proof.
  induction 1 as [|x r [Hl Hu] _ IH]; intros k acc Hk B L U.
  - cbn [fold_left List.length]. change (Z.of_nat 0) with 0%Z.
    rewrite Z.add_0_r. split; assumption.
  - cbn [fold_left]. cbn [List.length] in *.
    rewrite Nat2Z.inj_succ in *. unfold Z.succ in *.
    pose proof (Zle_0_nat (List.length r)) as Hr.
    pose proof (Z.abs_nonneg lo) as Alo. pose proof (Z.abs_nonneg hi) as Ahi.
    assert (Sk : forall j v : Z,
               (0 <= j <= k + 1)%Z -> (v = lo \/ v = hi) ->
               (Z.abs (j * v) < 2 ^ 53)%Z).
    { intros j v Hj Hv. rewrite Z.abs_mul, (Z.abs_eq j) by lia.
      apply Z.le_lt_trans with (2 := B).
      apply Z.mul_le_mono_nonneg; destruct Hv; subst; lia. }
    destruct (number_between (k * lo) (k * hi) acc) as [L1 U1];
      [apply Sk; lia|apply Sk; lia|exact L|exact U|].
    destruct (number_between lo hi x) as [L2 U2];
      [rewrite <- (Z.mul_1_l lo); apply Sk; lia
      |rewrite <- (Z.mul_1_l hi); apply Sk; lia|exact Hl|exact Hu|].
    replace (k + (Z.of_nat (List.length r) + 1))%Z
      with ((k + 1) + Z.of_nat (List.length r))%Z in * by ring.
    apply IH; [lia|exact B| |].
    + unfold Double.add.
      apply (number_between ((k + 1) * lo) ((k + 1) * hi));
        [apply Sk; lia|apply Sk; lia| |].
      * replace ((k + 1) * lo)%Z with (k * lo + lo)%Z by ring.
        rewrite inject_Z_plus. lra.
      * replace ((k + 1) * hi)%Z with (k * hi + hi)%Z by ring.
        rewrite inject_Z_plus. lra.
    + unfold Double.add.
      apply (number_between ((k + 1) * lo) ((k + 1) * hi));
        [apply Sk; lia|apply Sk; lia| |].
      * replace ((k + 1) * lo)%Z with (k * lo + lo)%Z by ring.
        rewrite inject_Z_plus. lra.
      * replace ((k + 1) * hi)%Z with (k * hi + hi)%Z by ring.
        rewrite inject_Z_plus. lra.
Qed.

(** X15.  The final average that is logged when a session ends is 0 for an
    empty history.  Otherwise, when every recorded score lies between two
    whole numbers [lo] and [hi] and the history is short enough for the
    doubles to count it (its length times 1 + |lo| + |hi| is below 2^53),
    the average lies between [lo] and [hi] as well: neither the rounding of
    the doubles in the sum and the division nor the rounding to two
    decimals takes it out of the range of the scores. *)
Theorem final_average_in_range s (lo hi : Z) :
  (scoreHistory s = [] -> calculateFinalAverage s = 0)
  /\ (scoreHistory s <> [] ->
      (Z.of_nat (List.length (scoreHistory s)) * (1 + Z.abs lo + Z.abs hi)
       < 2 ^ 53)%Z ->
      Forall (fun x => inject_Z lo <= x /\ x <= inject_Z hi) (scoreHistory s) ->
      inject_Z lo <= calculateFinalAverage s
      /\ calculateFinalAverage s <= inject_Z hi).
Proof.
  unfold calculateFinalAverage. split.
  - intros ->. reflexivity.
  - intros N B H. destruct (scoreHistory s) as [|x r] eqn:E; [contradiction|].
    clear N E.
    set (h := x :: r) in *.
    assert (Hn : (0 < Z.of_nat (List.length h))%Z)
      by (subst h; cbn [List.length]; lia).
    set (n := Z.of_nat (List.length h)) in *.
    pose proof (Z.abs_nonneg lo) as Alo. pose proof (Z.abs_nonneg hi) as Ahi.
    destruct (fold_add_bounds lo hi h H 0 0) as [L U];
      [lia|exact B|apply Qle_refl|apply Qle_refl|].
    fold n in L, U. rewrite Z.add_0_l in L, U.
    set (sum := fold_left Double.add h 0) in *.
    assert (Sn : forall v : Z, (Z.abs v <= 1 + Z.abs lo + Z.abs hi)%Z ->
                               (Z.abs (n * v) < 2 ^ 53)%Z).
    { intros v Hv. rewrite Z.abs_mul, (Z.abs_eq n) by lia.
      apply Z.le_lt_trans with (2 := B). apply Z.mul_le_mono_nonneg; lia. }
    assert (S1 : forall v : Z, (Z.abs v <= 1 + Z.abs lo + Z.abs hi)%Z ->
                               (Z.abs v < 2 ^ 53)%Z).
    { intros v Hv. apply Z.le_lt_trans with (2 := Sn v Hv).
      rewrite Z.abs_mul, (Z.abs_eq n) by lia.
      pose proof (Z.abs_nonneg v). nia. }
    destruct (number_between (n * lo) (n * hi) sum) as [L1 U1];
      [apply Sn; lia|apply Sn; lia|exact L|exact U|].
    assert (En : Double.number (inject_Z n) == inject_Z n).
    { apply number_Z. rewrite <- (Z.mul_1_r n). apply Sn. lia. }
    assert (Pn : 0 < inject_Z n)
      by (change 0 with (inject_Z 0); rewrite <- Zlt_Qlt; exact Hn).
    rewrite inject_Z_mult in L1, U1.
    assert (A : inject_Z lo <= Double.number sum / Double.number (inject_Z n)
                /\ Double.number sum / Double.number (inject_Z n) <= inject_Z hi).
    { rewrite En.
      split; [apply Qle_shift_div_l | apply Qle_shift_div_r];
        try exact Pn; lra. }
    destruct A as [A1 A2]. unfold Double.div.
    destruct (number_between lo hi _ (S1 lo ltac:(lia)) (S1 hi ltac:(lia)) A1 A2)
      as [D1 D2].
    set (mean := Double.number
                   (Double.number sum / Double.number (inject_Z n))) in *.
    assert (Elo : inject_Z (100 * lo) / inject_Z (JS.pow10 2) == inject_Z lo).
    { rewrite inject_Z_mult. change (inject_Z (JS.pow10 2)) with 100.
      change (inject_Z 100) with 100. field. }
    assert (Ehi : inject_Z (100 * hi) / inject_Z (JS.pow10 2) == inject_Z hi).
    { rewrite inject_Z_mult. change (inject_Z (JS.pow10 2)) with 100.
      change (inject_Z 100) with 100. field. }
    pose proof (toFixed_ge_grid 2 mean (100 * lo)) as G1.
    pose proof (toFixed_le_grid 2 mean (100 * hi)) as G2.
    rewrite Elo in G1. rewrite Ehi in G2. auto.
Qed.

Lemma final_average_in_range_witness :
  inject_Z 0 <= calculateFinalAverage Sample.capped_state
  /\ calculateFinalAverage Sample.capped_state <= inject_Z 10.
Proof.
  destruct (final_average_in_range Sample.capped_state 0 10) as [_ H].
  apply H.
  - vm_compute. discriminate.
  - vm_compute. reflexivity.
  - vm_compute. repeat constructor; discriminate.
Defined.

End Average.

(** ** Two critical failures in a row *)

Section CriticalFailures.
Import INTERVIEW_POLICY InterviewEngine.

(** X16.  Two submissions in a row whose final scores are both at most 2.0
    end the session: each is worth 2 strikes, so the counter passes the
    limit of 3 and the status is TERMINATED, for the strikes unless more
    than 2 time violations take precedence. *)
Theorem two_critical_failures_terminate
    ev1 ev2 a1 a2 t1 t2 q2 s o1 o2 c1 c2 f1 f2 :
  submitAnswer ev1 a1 t1 s = SubmitDone o1 c1 ->
  submitAnswer ev2 a2 t2 (final (presentQuestion q2 (final o1)))
  = SubmitDone o2 c2 ->
  scoreHistory (final o2) = (scoreHistory s ++ [f1; f2])%list ->
  f1 <= 2 -> f2 <= 2 ->
  consecutiveWeakAnswers (final o2) = (consecutiveWeakAnswers s + 4)%nat
  /\ status (final o2) = TERMINATED
  /\ ((timeViolations (final o2) <= 2)%nat ->
      terminationReason (final o2)
      = Some (strike_reason (consecutiveWeakAnswers s + 4))).
Proof.
  intros H1 H2 Hh L1 L2.
  destruct (submitAnswer_score _ _ _ _ _ _ H1) as (qa & _ & _ & Ha & Ca).
  destruct (submitAnswer_score _ _ _ _ _ _ H2) as (qb & _ & _ & Hb & Cb).
  assert (P2 : scoreHistory (final (presentQuestion q2 (final o1)))
               = scoreHistory (final o1)) by reflexivity.
  assert (K2 : consecutiveWeakAnswers (final (presentQuestion q2 (final o1)))
               = consecutiveWeakAnswers (final o1)) by reflexivity.
  rewrite P2 in Hb. rewrite K2 in Cb.
  remember (turnScore qa t1 (evaluationOf ev1 qa a1 t1) s) as x1.
  remember (turnScore qb t2 (evaluationOf ev2 qb a2 t2)
              (final (presentQuestion q2 (final o1)))) as x2.
  clear Heqx1 Heqx2.
  rewrite Hb, Ha, <- !app_assoc in Hh. apply app_inv_head in Hh.
  cbn [app] in Hh. injection Hh as E1 E2. subst x1 x2.
  destruct (strikes_after_cases f1 (consecutiveWeakAnswers s)) as (G1 & _).
  destruct (strikes_after_cases f2 (consecutiveWeakAnswers (final o1)))
    as (G2 & _).
  rewrite (G1 L1) in Ca. rewrite (G2 L2), Ca in Cb.
  assert (K : consecutiveWeakAnswers (final o2)
              = (consecutiveWeakAnswers s + 4)%nat) by lia.
  destruct (submitAnswer_done _ _ _ _ _ _ H2) as (q' & s1 & _ & _ & L & F & _).
  pose proof (turn_effect q' a2 t2 (evaluationOf ev2 q' a2 t2) _ s1 L) as E.
  cbv zeta in E. rewrite <- F in E.
  destruct E as (_ & _ & _ & _ & _ & _ & _ & E8 & E9 & _).
  split; [exact K|]. rewrite E8, E9, K. unfold Spec.verdict. split.
  - destruct (2 <? _)%nat; [reflexivity|].
    destruct (Nat.leb_spec 3 (consecutiveWeakAnswers s + 4)); [reflexivity|lia].
  - intros V. destruct (Nat.ltb_spec 2 (timeViolations (final o2))); [lia|].
    destruct (Nat.leb_spec 3 (consecutiveWeakAnswers s + 4)); [reflexivity|lia].
Qed.

Lemma two_critical_failures_terminate_witness :
  exists o1 o2,
    submitAnswer Sample.strong_evaluator "" 10 Sample.asked = SubmitDone o1 []
    /\ submitAnswer Sample.strong_evaluator "   " 10
         (final (presentQuestion Sample.boxModel (final o1)))
       = SubmitDone o2 []
    /\ status (final o2) = TERMINATED
    /\ terminationReason (final o2)
       = Some "Performance Threshold Reached: 4 consecutive strikes.".
Proof.
  set (r1 := submitAnswer Sample.strong_evaluator "" 10 Sample.asked).
  assert (H1 : r1 = SubmitDone (Sample.outcome_of r1) [])
    by (vm_compute; reflexivity).
  set (r2 := submitAnswer Sample.strong_evaluator "   " 10
               (final (presentQuestion Sample.boxModel
                                       (final (Sample.outcome_of r1))))).
  assert (H2 : r2 = SubmitDone (Sample.outcome_of r2) [])
    by (vm_compute; reflexivity).
  exists (Sample.outcome_of r1), (Sample.outcome_of r2).
  split; [exact H1|]. split; [exact H2|].
  destruct (two_critical_failures_terminate _ _ _ _ _ _ _ _ _ _ _ _
              (nth 0 (scoreHistory (final (Sample.outcome_of r2))) 0)
              (nth 1 (scoreHistory (final (Sample.outcome_of r2))) 0)
              H1 H2) as (_ & St & Re).
  - vm_compute. reflexivity.
  - vm_compute. discriminate.
  - vm_compute. discriminate.
  - split; [exact St|]. rewrite Re; [reflexivity|]. vm_compute. lia.
Defined.

End CriticalFailures.
